(** * tiatoolbox.tools.patchextraction: patch geometry and point-centred
      patch extraction

    A shallow embedding of [tiatoolbox/tools/patchextraction.py], the
    properties its specification states about it, and further
    properties of the code: its errors and edge cases, and what the
    results hold for inputs the specification leaves open.

    Python objects live in a store: a heap of mutable objects (numpy
    arrays, lists, class instances with their attribute dictionary)
    addressed by location, the image files on disk, and the log of files
    read.  Methods are computations in a state-and-exception monad over
    that store, so aliasing, in-place updates and raised exceptions are
    all explicit.

    Numbers: array elements, coordinates and sizes are integers ([Z]).
    The arguments of [get_last_steps] are Python numbers, an [int]
    without bound or a binary64 float, and its arithmetic rounds as
    Python's does (see [fl.round]); the square root of
    [extract_patches] is represented by the integer it is truncated to
    (see [np.isqrt]). *)

From stdpp Require Import gmap strings list.
From Stdlib Require Import QArith Qround.

Open Scope Z_scope.

(** ** Python values, exceptions and objects *)

Definition loc := nat.

(** The exceptions the module raises or lets through.  [Exception msg] is
    the plain [raise Exception(msg)] of [extract_patches];
    [MethodNotSupported] is imported from [tiatoolbox.utils.exceptions],
    a module outside the sources at hand: it is taken as an exception
    class of its own with an optional message, raised both as a class
    ([raise MethodNotSupported]) and as an instance;
    [LoaderError] stands for whatever the image loader raises on a path
    it cannot read. *)
Inductive exn :=
  | Exception (msg : string)
  | MethodNotSupported (msg : option string)
  | NotImplementedError
  | TypeError
  | ValueError
  | IndexError
  | AttributeError
  | ZeroDivisionError
  | OverflowError
  | LoaderError.

(** Values held by variables, arguments and attributes.  [VPath] is a
    [pathlib.Path]; [VRef] points to a mutable object of the heap. *)
Inductive pyval :=
  | VNone
  | VInt (z : Z)
  | VStr (s : string)
  | VPath (s : string)
  | VRef (l : loc).

(** A numpy array: its shape and its elements by index.  Elements outside
    the shape are never looked at. *)
Record ndarray := Ndarray { shape : list nat; item : list Z → Z }.

(** What indexing an array gives: a scalar, or a view of a sub-array. *)
Inductive npval :=
  | Scalar (z : Z)
  | View (a : ndarray).

(** An element of the [labels] and [cell_id] lists: the [[]] placeholder
    appended before the loops, or a value stored later. *)
Inductive cell :=
  | Blank
  | Val (v : npval).

Inductive pyclass :=
  | C_object
  | C_ABC
  | C_PatchExtractor
  | C_FixedWindowPatchExtractor
  | C_VariableWindowPatchExtractor
  | C_PointsPatchExtractor.

Inductive obj :=
  | ONdarray (a : ndarray)
  | OList (xs : list cell)
  | OInstance (cls : pyclass) (attrs : gmap string pyval).

Record store := Store {
  heap : gmap loc obj;
  disk : string → option ndarray;
  reads : list string
}.

(** ** The state-and-exception monad *)

Definition M (St A : Type) : Type := St → (exn + A) * St.

Definition ret {St A} (a : A) : M St A := λ σ, (inr a, σ).

Definition raise {St A} (e : exn) : M St A := λ σ, (inl e, σ).

Definition bind {St A B} (m : M St A) (k : A → M St B) : M St B :=
  λ σ, match m σ with
       | (inr a, σ') => k a σ'
       | (inl e, σ') => (inl e, σ')
       end.

#[global] Instance M_ret {St} : MRet (M St) := λ A, @ret St A.
#[global] Instance M_bind {St} : MBind (M St) := λ A B k m, bind m k.

Definition lift {St A} (r : exn + A) : M St A := λ σ, (r, σ).

(** [for x in xs: body], with the local variables the body rebinds
    threaded through as [s]. *)
Fixpoint for_ {St X L} (xs : list X) (body : X → L → M St L) (s : L) : M St L :=
  match xs with
  | [] => ret s
  | x :: xs' => s' ← body x s; for_ xs' body s'
  end.

(** [range(start, stop)] *)
Definition range (start stop : Z) : list Z :=
  (λ i : nat, start + Z.of_nat i) <$> seq 0 (Z.to_nat (stop - start)).

(** ** Python and numpy primitives *)

Module py.

(** [int(x / 2)] for an integer [x]: true division, then truncation
    towards zero. *)
Definition int_half (x : Z) : Z := Z.quot x 2.

(** [str.lower] on the ASCII letters. *)
Definition lower_ascii (c : Ascii.ascii) : Ascii.ascii :=
  let n := Ascii.nat_of_ascii c in
  if ((65 <=? n) && (n <=? 90))%nat then Ascii.ascii_of_nat (n + 32) else c.

Fixpoint lower (s : string) : string :=
  match s with
  | EmptyString => EmptyString
  | String c s' => String (lower_ascii c) (lower s')
  end.

(** A sequence index [i] against length [n]: negative indices count
    from the end, anything out of range is an [IndexError]. *)
Definition index (n : nat) (i : Z) : exn + nat :=
  let j := if i <? 0 then i + Z.of_nat n else i in
  if (0 <=? j) && (j <? Z.of_nat n) then inr (Z.to_nat j) else inl IndexError.

(** [slice(start, stop).indices(n)]: one bound of a slice clipped to a
    sequence of length [n]. *)
Definition slice_bound (n : nat) (i : Z) : Z :=
  if i <? 0 then Z.max (i + Z.of_nat n) 0 else Z.min i (Z.of_nat n).

(** First index and length of [seq[start:stop]]. *)
Definition slice_indices (n : nat) (start stop : Z) : Z * nat :=
  let b := slice_bound n start in
  let e := slice_bound n stop in
  (b, Z.to_nat (e - b)).

(** [xs[i] = v] on a list *)
Definition list_setitem (xs : list cell) (i : Z) (v : cell) : exn + list cell :=
  match index (length xs) i with
  | inr j => inr (<[j := v]> xs)
  | inl e => inl e
  end.

End py.

Module np.

(** The integer part of [np.sqrt(n)].  [extract_patches] only uses the
    root through [int(root / 2)] and [int(root + start)] with [start]
    an integer, and both depend on the integer part alone. *)
Definition isqrt (n : Z) : Z := Z.sqrt n.

(** [len(a)] *)
Definition len (a : ndarray) : exn + Z :=
  match shape a with
  | [] => inl TypeError
  | n :: _ => inr (Z.of_nat n)
  end.

(** The [i]-th item met when iterating over [a]. *)
Definition row (a : ndarray) (i : Z) : ndarray :=
  {| shape := tail (shape a); item := λ idx, item a (i :: idx) |}.

(** [a[k]] for a constant [k >= 0]. *)
Definition getitem (a : ndarray) (k : Z) : exn + npval :=
  match shape a with
  | [] => inl IndexError
  | n :: rest =>
      match py.index n k with
      | inl e => inl e
      | inr j =>
          match rest with
          | [] => inr (Scalar (item a [Z.of_nat j]))
          | _ => inr (View (row a (Z.of_nat j)))
          end
      end
  end.

(** [v + k] and [v - k] for an integer [k] (element-wise on a view). *)
Definition add (v : npval) (k : Z) : npval :=
  match v with
  | Scalar z => Scalar (z + k)
  | View a => View {| shape := shape a; item := λ idx, item a idx + k |}
  end.

(** [np.zeros(dims)] *)
Definition zeros (dims : list Z) : exn + ndarray :=
  if forallb (λ d, 0 <=? d) dims
  then inr {| shape := Z.to_nat <$> dims; item := λ _, 0 |}
  else inl ValueError.

(** Index [i] of the symmetric (edge-included, mirrored) extension of an
    axis of length [n]. *)
Definition mirror (n : nat) (i : Z) : Z :=
  let m := i mod (2 * Z.of_nat n) in
  if m <? Z.of_nat n then m else 2 * Z.of_nat n - 1 - m.

(** [np.lib.pad(a, ((pad_y, pad_y), (pad_x, pad_x), (0, 0)), "symmetric")]:
    the pad widths must fit a three-dimensional array and be
    non-negative, and an empty axis cannot be extended. *)
Definition pad_symmetric (a : ndarray) (pad_y pad_x : Z) : exn + ndarray :=
  match shape a with
  | [h; w; d] =>
      if (pad_y <? 0) || (pad_x <? 0) then inl ValueError
      else if ((h =? 0)%nat && (0 <? pad_y)) || ((w =? 0)%nat && (0 <? pad_x))
      then inl ValueError
      else inr {| shape := [(h + 2 * Z.to_nat pad_y)%nat; (w + 2 * Z.to_nat pad_x)%nat; d];
                  item := λ idx,
                    match idx with
                    | [i; j; k] => item a [mirror h (i - pad_y); mirror w (j - pad_x); k]
                    | _ => 0
                    end |}
  | _ => inl ValueError
  end.

(** [a[s0:e0, s1:e1]]: basic slicing of the two leading axes; always a
    view, clipped to the array.  The bounds must be integers: an array
    used as a bound is a [TypeError]. *)
Definition getslice2 (a : ndarray) (s0 e0 s1 e1 : npval) : exn + ndarray :=
  match s0, e0, s1, e1 with
  | Scalar s0, Scalar e0, Scalar s1, Scalar e1 =>
      match shape a with
      | h :: w :: rest =>
          let '(b0, n0) := py.slice_indices h s0 e0 in
          let '(b1, n1) := py.slice_indices w s1 e1 in
          inr {| shape := n0 :: n1 :: rest;
                 item := λ idx,
                   match idx with
                   | i :: j :: ks => item a (b0 + i :: b1 + j :: ks)
                   | _ => 0
                   end |}
      | _ => inl IndexError
      end
  | _, _, _, _ => inl TypeError
  end.

(** Broadcasting a value of shape [src] into a target of shape [dst] of
    the same rank: every axis agrees or has length one in the value. *)
Definition broadcastable (src dst : list nat) : bool :=
  (length src =? length dst)%nat
  && forallb (λ sd : nat * nat, (sd.1 =? sd.2)%nat || (sd.1 =? 1)%nat) (zip src dst).

Definition bcast_index (src : list nat) (idx : list Z) : list Z :=
  zip_with (λ (s : nat) i, if (s =? 1)%nat then 0 else i) src idx.

(** [t[i, :, :, :] = v]: the index is checked first, then the value is
    broadcast into the selected block. *)
Definition setitem (t : ndarray) (i : Z) (v : ndarray) : exn + ndarray :=
  match shape t with
  | [] => inl IndexError
  | n :: sub =>
      match py.index n i with
      | inl e => inl e
      | inr j =>
          if broadcastable (shape v) sub
          then inr {| shape := shape t;
                      item := λ idx,
                        match idx with
                        | k :: rest =>
                            if k =? Z.of_nat j then item v (bcast_index (shape v) rest)
                            else item t idx
                        | [] => item t idx
                        end |}
          else inl ValueError
      end
  end.

End np.

#[global] Instance npval_inhabited : Inhabited npval := populate (Scalar 0).
#[global] Instance pyclass_eq_dec : EqDecision pyclass.
Proof. solve_decision. Defined.

(** ** Operations on the store *)

(** A new object at a location not yet in use. *)
Definition alloc (o : obj) : M store pyval := λ σ,
  let l := fresh (dom (heap σ)) in
  (inr (VRef l), {| heap := <[l := o]> (heap σ); disk := disk σ; reads := reads σ |}).

(** Overwrite the object a reference points to (in-place update). *)
Definition put (v : pyval) (o : obj) : M store unit := λ σ,
  match v with
  | VRef l => (inr (), {| heap := <[l := o]> (heap σ); disk := disk σ; reads := reads σ |})
  | _ => (inl TypeError, σ)
  end.

Definition deref (σ : store) (v : pyval) : option obj :=
  match v with
  | VRef l => heap σ !! l
  | _ => None
  end.

(** [self.name] *)
Definition getattr (self : pyval) (name : string) : M store pyval := λ σ,
  match deref σ self with
  | Some (OInstance _ attrs) =>
      match attrs !! name with
      | Some v => (inr v, σ)
      | None => (inl AttributeError, σ)
      end
  | _ => (inl AttributeError, σ)
  end.

(** [self.name = v] *)
Definition setattr (self : pyval) (name : string) (v : pyval) : M store unit := λ σ,
  match deref σ self with
  | Some (OInstance cls attrs) => put self (OInstance cls (<[name := v]> attrs)) σ
  | _ => (inl AttributeError, σ)
  end.

(** [isinstance(v, np.ndarray)] *)
Definition isinstance_ndarray (v : pyval) : M store bool := λ σ,
  (inr match deref σ v with Some (ONdarray _) => true | _ => false end, σ).

(** Use of a value where numpy or arithmetic needs an integer. *)
Definition as_int {St} (v : pyval) : M St Z :=
  match v with
  | VInt z => ret z
  | _ => raise TypeError
  end.

Definition ndarray_of (v : pyval) : M store ndarray := λ σ,
  match deref σ v with
  | Some (ONdarray a) => (inr a, σ)
  | _ => (inl TypeError, σ)
  end.

Definition list_of (v : pyval) : M store (list cell) := λ σ,
  match deref σ v with
  | Some (OList xs) => (inr xs, σ)
  | _ => (inl TypeError, σ)
  end.

(** [xs.append(c)] *)
Definition list_append (xs : pyval) (c : cell) : M store unit :=
  l ← list_of xs; put xs (OList (l ++ [c])).

(** [xs[i] = c] *)
Definition list_setitem (xs : pyval) (i : Z) (c : cell) : M store unit :=
  l ← list_of xs; l' ← lift (py.list_setitem l i c); put xs (OList l').

(** [t[i, :, :, :] = v] *)
Definition nd_setitem (t : pyval) (i : Z) (v : ndarray) : M store unit :=
  a ← ndarray_of t; a' ← lift (np.setitem a i v); put t (ONdarray a').

(** [image[start_h:end_h, start_w:end_w]] *)
Definition nd_getslice2 (image : pyval) (start_h end_h start_w end_w : npval)
  : M store ndarray :=
  a ← ndarray_of image; lift (np.getslice2 a start_h end_h start_w end_w).

(** Modelled from the spec: [imread] of [tiatoolbox.utils.misc], the image
    loader, is not part of the sources at hand.  The spec describes it as
    [load_image(path) -> array]: it reads the file at [path] and returns
    a new array.  The read is logged; a path that cannot be loaded
    raises. *)
Definition imread (path : string) : M store pyval := λ σ,
  let σ' := {| heap := heap σ; disk := disk σ; reads := reads σ ++ [path] |} in
  match disk σ path with
  | Some a => alloc (ONdarray a) σ'
  | None => (inl LoaderError, σ')
  end.

(** ** Python numbers

    A Python [int] is an integer without bound; a Python [float] is a
    binary64 value: a finite number [m * 2 ^ e], an infinity or a
    not-a-number.  The sign of a zero is left out: nothing in this module
    can observe it (a division by either zero raises, and [math.ceil]
    and [int] take both zeros to 0). *)

Inductive float64 :=
  | Fin (m e : Z)
  | Inf (negative : bool)
  | NaN.

Inductive pynum :=
  | PyInt (z : Z)
  | PyFloat (x : float64).

Module fl.

(** The value [m * 2 ^ e] as a fraction with a positive denominator. *)
Definition frac (m e : Z) : Z * Z :=
  if 0 <=? e then (m * 2 ^ e, 1) else (m, 2 ^ (- e)).

(** The integer nearest to [n / d], for [d > 0]; a tie goes to the even
    one. *)
Definition rne_div (n d : Z) : Z :=
  let f := n / d in
  let r := n mod d in
  if 2 * r <? d then f
  else if d <? 2 * r then f + 1
  else if Z.even f then f else f + 1.

(** The integer part of the binary logarithm of [n / d], for
    [n, d > 0]. *)
Definition ilog2 (n d : Z) : Z :=
  let l := Z.log2 n - Z.log2 d in
  if (if 0 <=? l then d * 2 ^ l <=? n else d <=? n * 2 ^ (- l)) then l else l - 1.

(** [n / d], for [d > 0], rounded to the nearest binary64 value, ties to
    even: 53 significant bits, the exponent of the last place no lower
    than -1074 (subnormal numbers), and an infinity from [2 ^ 1024]
    on. *)
Definition round (n d : Z) : float64 :=
  if n =? 0 then Fin 0 0
  else
    let a := Z.abs n in
    let e := Z.max (ilog2 a d - 52) (-1074) in
    let m := if 0 <=? e then rne_div a (d * 2 ^ e) else rne_div (a * 2 ^ (- e)) d in
    if (0 <=? e) && (2 ^ 1024 <=? m * 2 ^ e) then Inf (n <? 0)
    else Fin (Z.sgn n * m) e.

Definition is_zero (x : float64) : bool :=
  match x with
  | Fin m _ => m =? 0
  | _ => false
  end.

Definition is_negative (x : float64) : bool :=
  match x with
  | Fin m _ => m <? 0
  | Inf s => s
  | NaN => false
  end.

(** [x - y] on floats *)
Definition sub (x y : float64) : float64 :=
  match x, y with
  | NaN, _ | _, NaN => NaN
  | Inf s, Inf s' => if Bool.eqb s s' then NaN else Inf s
  | Inf s, Fin _ _ => Inf s
  | Fin _ _, Inf s => Inf (negb s)
  | Fin m e, Fin m' e' =>
      let '(n, d) := frac m e in
      let '(n', d') := frac m' e' in
      round (n * d' - n' * d) (d * d')
  end.

(** [x * y] on floats *)
Definition mul (x y : float64) : float64 :=
  match x, y with
  | NaN, _ | _, NaN => NaN
  | Inf s, z | z, Inf s => if is_zero z then NaN else Inf (xorb s (is_negative z))
  | Fin m e, Fin m' e' =>
      let '(n, d) := frac m e in
      let '(n', d') := frac m' e' in
      round (n * n') (d * d')
  end.

(** [x / y] on floats, for [y] other than zero *)
Definition div (x y : float64) : float64 :=
  match x, y with
  | NaN, _ | _, NaN => NaN
  | Inf _, Inf _ => NaN
  | Inf s, Fin m' _ => Inf (xorb s (m' <? 0))
  | Fin _ _, Inf _ => Fin 0 0
  | Fin m e, Fin m' e' =>
      let '(n, d) := frac m e in
      let '(n', d') := frac m' e' in
      round (n * d' * Z.sgn n') (d * Z.abs n')
  end.

End fl.

Module num.

(** [float(z)]: an [int] too large for a float is an
    [OverflowError]. *)
Definition to_float (a : pynum) : exn + float64 :=
  match a with
  | PyFloat x => inr x
  | PyInt z =>
      match fl.round z 1 with
      | Inf _ => inl OverflowError
      | x => inr x
      end
  end.

(** [a - b] *)
Definition sub (a b : pynum) : exn + pynum :=
  match a, b with
  | PyInt x, PyInt y => inr (PyInt (x - y))
  | _, _ =>
      match to_float a, to_float b with
      | inr x, inr y => inr (PyFloat (fl.sub x y))
      | inl e, _ | _, inl e => inl e
      end
  end.

(** [a * b] *)
Definition mul (a b : pynum) : exn + pynum :=
  match a, b with
  | PyInt x, PyInt y => inr (PyInt (x * y))
  | _, _ =>
      match to_float a, to_float b with
      | inr x, inr y => inr (PyFloat (fl.mul x y))
      | inl e, _ | _, inl e => inl e
      end
  end.

(** [a / b], true division: always a float.  Of two [int]s it is the
    quotient rounded once, and an [OverflowError] when that is too large
    for a float. *)
Definition truediv (a b : pynum) : exn + float64 :=
  match a, b with
  | PyInt x, PyInt y =>
      if y =? 0 then inl ZeroDivisionError
      else
        match fl.round (x * Z.sgn y) (Z.abs y) with
        | Inf _ => inl OverflowError
        | q => inr q
        end
  | _, _ =>
      match to_float a, to_float b with
      | inr x, inr y => if fl.is_zero y then inl ZeroDivisionError else inr (fl.div x y)
      | inl e, _ | _, inl e => inl e
      end
  end.

(** [math.ceil(x)] of a float: an [int] *)
Definition ceil (x : float64) : exn + Z :=
  match x with
  | NaN => inl ValueError
  | Inf _ => inl OverflowError
  | Fin m e => inr (if 0 <=? e then m * 2 ^ e else - ((- m) / 2 ^ (- e)))
  end.

(** [int(a)]: truncation towards zero *)
Definition int (a : pynum) : exn + Z :=
  match a with
  | PyInt z => inr z
  | PyFloat NaN => inl ValueError
  | PyFloat (Inf _) => inl OverflowError
  | PyFloat (Fin m e) => inr (if 0 <=? e then m * 2 ^ e else Z.quot m (2 ^ (- e)))
  end.

End num.

(** ** class PatchExtractor *)

(** [PatchExtractor.__init__] *)
Definition PatchExtractor_init (self img_patch_h img_patch_w pad_y pad_x : pyval)
  : M store unit :=
  setattr self "img_patch_h" img_patch_h;;
  setattr self "img_patch_w" img_patch_w;;
  setattr self "pad_y" pad_y;;
  setattr self "pad_x" pad_x.

(** [PatchExtractor.get_last_steps].  [self] is not used. *)
Definition get_last_steps (image_dim label_patch_dim stride : pynum) : exn + Z :=
  match num.sub image_dim label_patch_dim with
  | inl e => inl e
  | inr d =>
      match num.truediv d stride with
      | inl e => inl e
      | inr q =>
          match num.ceil q with
          | inl e => inl e
          | inr nr_step =>
              match num.mul (PyInt (nr_step + 1)) stride with
              | inl e => inl e
              | inr last_step => num.int last_step
              end
          end
      end
  end.

(** The method resolution order of the classes of the module. *)
Definition mro (c : pyclass) : list pyclass :=
  match c with
  | C_object => [C_object]
  | C_ABC => [C_ABC; C_object]
  | C_PatchExtractor => [C_PatchExtractor; C_ABC; C_object]
  | C_FixedWindowPatchExtractor =>
      [C_FixedWindowPatchExtractor; C_PatchExtractor; C_ABC; C_object]
  | C_VariableWindowPatchExtractor =>
      [C_VariableWindowPatchExtractor; C_PatchExtractor; C_ABC; C_object]
  | C_PointsPatchExtractor =>
      [C_PointsPatchExtractor; C_PatchExtractor; C_ABC; C_object]
  end.

(** The classes that define [__init__] themselves ([ABC] does not). *)
Definition defines_init (c : pyclass) : bool :=
  match c with
  | C_ABC => false
  | _ => true
  end.

(** What follows [start] in a resolution order. *)
Fixpoint after (start : pyclass) (cs : list pyclass) : option (list pyclass) :=
  match cs with
  | [] => None
  | c :: cs' => if decide (c = start) then Some cs' else after start cs'
  end.

(** [object.__init__] called with keyword arguments for an instance of a class
    that overrides [__init__]: any argument is a [TypeError]. *)
Definition object_init (self : pyval) (kwargs : list (string * pyval)) : M store unit :=
  match kwargs with
  | [] => ret ()
  | _ => raise TypeError
  end.

(** [super(PatchExtractor, self).__init__] with keyword arguments: the lookup starts
    after [PatchExtractor] in the resolution order of the class of
    [self]; what follows there is [ABC], without an [__init__], and
    [object]. *)
Definition super_PatchExtractor_init (cls : pyclass) (self : pyval)
    (kwargs : list (string * pyval)) : M store unit :=
  match after C_PatchExtractor (mro cls) ≫= List.find defines_init with
  | Some C_object => object_init self kwargs
  | _ => raise TypeError
  end.

(** [cls.__new__(cls)]: an instance without attributes. *)
Definition new (cls : pyclass) : M store pyval := alloc (OInstance cls ∅).

(** [PatchExtractor(img_patch_h, img_patch_w, pad_y, pad_x)]: the base
    class declares no abstract method, so it can be instantiated, and
    its own [__init__] runs. *)
Definition PatchExtractor (img_patch_h img_patch_w pad_y pad_x : pyval) : M store pyval :=
  self ← new C_PatchExtractor;
  PatchExtractor_init self img_patch_h img_patch_w pad_y pad_x;;
  ret self.

(** ** class FixedWindowPatchExtractor, class VariableWindowPatchExtractor *)

Definition FixedWindowPatchExtractor_init (self img_patch_h img_patch_w stride_h stride_w : pyval)
  : M store unit :=
  super_PatchExtractor_init C_FixedWindowPatchExtractor self
    [("img_patch_h"%string, img_patch_h); ("img_patch_w"%string, img_patch_w)];;
  setattr self "stride_h" stride_h;;
  setattr self "stride_w" stride_w;;
  raise NotImplementedError.

Definition FixedWindowPatchExtractor (img_patch_h img_patch_w : pyval)
    (stride_h stride_w : option pyval) : M store pyval :=
  self ← new C_FixedWindowPatchExtractor;
  FixedWindowPatchExtractor_init self img_patch_h img_patch_w
    (default (VInt 1) stride_h) (default (VInt 1) stride_w);;
  ret self.

Definition VariableWindowPatchExtractor_init
    (self img_patch_h img_patch_w stride_h stride_w label_patch_h label_patch_w : pyval)
  : M store unit :=
  super_PatchExtractor_init C_VariableWindowPatchExtractor self
    [("img_patch_h"%string, img_patch_h); ("img_patch_w"%string, img_patch_w)];;
  setattr self "stride_h" stride_h;;
  setattr self "stride_w" stride_w;;
  setattr self "label_patch_h" label_patch_h;;
  setattr self "label_patch_w" label_patch_w;;
  raise NotImplementedError.

Definition VariableWindowPatchExtractor (img_patch_h img_patch_w : pyval)
    (stride_h stride_w label_patch_h label_patch_w : option pyval) : M store pyval :=
  self ← new C_VariableWindowPatchExtractor;
  VariableWindowPatchExtractor_init self img_patch_h img_patch_w
    (default (VInt 1) stride_h) (default (VInt 1) stride_w)
    (default VNone label_patch_h) (default VNone label_patch_w);;
  ret self.

(** ** class PointsPatchExtractor *)

(** [PointsPatchExtractor.__init__] *)
Definition PointsPatchExtractor_init
    (self img_patch_h img_patch_w pad_y pad_x input_points num_examples_per_patch : pyval)
  : M store unit :=
  super_PatchExtractor_init C_PointsPatchExtractor self
    [("img_patch_h"%string, img_patch_h); ("img_patch_w"%string, img_patch_w);
     ("pad_y"%string, pad_y); ("pad_x"%string, pad_x)];;
  setattr self "input_points" input_points;;
  setattr self "num_examples_per_patch" num_examples_per_patch.

Definition PointsPatchExtractor (img_patch_h img_patch_w pad_y pad_x input_points : pyval)
    (num_examples_per_patch : option pyval) : M store pyval :=
  self ← new C_PointsPatchExtractor;
  PointsPatchExtractor_init self img_patch_h img_patch_w pad_y pad_x input_points
    (default (VInt 9) num_examples_per_patch);;
  ret self.

(** The body of the two innermost loops of [extract_patches]: the window
    for offsets [h], [w] is cut out of the padded image and stored, with
    the label and the cell number, at position [iter_tot]. *)
Definition write_patch (image img_patches labels cell_id : pyval) (patch_h patch_w : Z)
    (cell_type : npval) (cell_location : list npval) (cell_tot : Z)
    (h w iter_tot : Z) : M store Z :=
  let start_h := np.add (np.add (cell_location !!! 0%nat) (- h)) (- py.int_half (patch_h - 1)) in
  let start_w := np.add (np.add (cell_location !!! 1%nat) (- w)) (- py.int_half (patch_w - 1)) in
  let end_h := np.add start_h patch_h in
  let end_w := np.add start_w patch_w in
  list_setitem labels iter_tot (Val cell_type);;
  list_setitem cell_id iter_tot (Val (Scalar cell_tot));;
  v ← nd_getslice2 image start_h end_h start_w end_w;
  nd_setitem img_patches iter_tot v;;
  ret (iter_tot + 1).

(** [start_location], [end_location] for [num_examples_per_patch = n].
    For [n > 1] the source takes [root = np.sqrt(n)],
    [start = -int(root / 2)], [end = int(root + start)]; [int] truncates
    a non-negative float, so only the integer part of the root counts. *)
Definition offset_bounds (n : Z) : Z * Z :=
  if 1 <? n then
    let root_num_examples := np.isqrt n in
    let start_location := - (root_num_examples / 2) in
    (start_location, root_num_examples + start_location)
  else (0, 1).

(** The body of [for row in input_points], for the [i]-th row; the state
    threaded through is [(cell_tot, iter_tot)].
    [np.array([row[2], row[1]], dtype=np.int)] is taken as the pair of
    the two integers: the conversion to machine integers, which raises
    [OverflowError] on a coordinate that does not fit and lets sums wrap
    around, is left out, and the window is computed on unbounded
    integers.  The two agree on the inputs of [fits_np_int] below. *)
Definition extract_point (self input_points image img_patches labels cell_id : pyval)
    (patch_h patch_w : Z) (i : Z) (st : Z * Z) : M store (Z * Z) :=
  pts ← ndarray_of input_points;
  let row := np.row pts i in
  cell_type ← lift (np.getitem row 0);
  r2 ← lift (np.getitem row 2);
  r1 ← lift (np.getitem row 1);
  let cell_location := [r2; r1] in
  pad_y ← getattr self "pad_y" ≫= as_int;
  let cell_location :=
    <[0%nat := np.add (np.add (cell_location !!! 0%nat) pad_y) (-1)]> cell_location in
  pad_x ← getattr self "pad_x" ≫= as_int;
  let cell_location :=
    <[1%nat := np.add (np.add (cell_location !!! 1%nat) pad_x) (-1)]> cell_location in
  n ← getattr self "num_examples_per_patch" ≫= as_int;
  let '(start_location, end_location) := offset_bounds n in
  iter_tot ← for_ (range start_location end_location) (λ h,
                for_ (range start_location end_location) (λ w,
                  write_patch image img_patches labels cell_id patch_h patch_w
                    cell_type cell_location st.1 h w)) st.2;
  ret (st.1 + 1, iter_tot).

(** [extract_patches] from [patch_h = self.img_patch_h] on: padding,
    allocation of the results and the loops, once [input_points] and
    [image] are bound. *)
Definition extract_body (self input_points image : pyval) : M store (pyval * pyval * pyval) :=
  patch_h ← getattr self "img_patch_h";
  patch_w ← getattr self "img_patch_w";
  pad_y ← getattr self "pad_y";
  pad_x ← getattr self "pad_x";
  pad_y ← as_int pad_y;
  pad_x ← as_int pad_x;
  a ← ndarray_of image;
  padded ← lift (np.pad_symmetric a pad_y pad_x);
  image ← alloc (ONdarray padded);
  len_points ← ndarray_of input_points ≫= λ p, lift (np.len p);
  n ← getattr self "num_examples_per_patch" ≫= as_int;
  let num_patches_img := len_points * n in
  patch_h ← as_int patch_h;
  patch_w ← as_int patch_w;
  z ← lift (np.zeros [num_patches_img; patch_h; patch_w;
                        Z.of_nat (shape padded !!! 2%nat)]);
  img_patches ← alloc (ONdarray z);
  labels ← alloc (OList []);
  cell_id ← alloc (OList []);
  for_ (range 0 num_patches_img) (λ _ _,
    list_append labels Blank;; list_append cell_id Blank) ();;
  for_ (range 0 len_points)
    (extract_point self input_points image img_patches labels cell_id patch_h patch_w)
    (1, 0);;
  mret (img_patches, labels, cell_id).

Definition points_error : exn :=
  Exception "Please input correct csv, json path or csv data".
Definition image_error : exn :=
  Exception "Please input correct image path or numpy array".

(** [PointsPatchExtractor.extract_patches(self, input_img)].  The other
    parameters of the method are not used ([labels] is rebound before any
    use); so are [img_h], [img_w] and [img_d].  The result is the triple
    [(img_patches, labels, cell_id)] of references. *)
Definition extract_patches (self input_img : pyval) : M store (pyval * pyval * pyval) :=
  pts ← getattr self "input_points";
  is_array ← isinstance_ndarray pts;
  input_points ← (if is_array : bool then mret pts else raise points_error);
  image ← match input_img with
           | VStr path => imread path
           | _ =>
               is_array ← isinstance_ndarray input_img;
               if is_array : bool then mret input_img else raise image_error
           end;
  extract_body self input_points image.

(** [PointsPatchExtractor.merge_patches(self, patches=None)] *)
Definition merge_patches (self : pyval) (patches : option pyval) : M store pyval :=
  raise (MethodNotSupported (Some "Merge patches not supported for PointsPatchExtractor"%string)).

(** ** get_patch_extractor *)

(** [get_patch_extractor(method_name, img_patch_h=224, img_patch_w=224,
    input_points=None, pad_y=0, pad_x=0)]; an omitted argument is
    [None] here and takes its default. *)
Definition get_patch_extractor (method_name : string)
    (img_patch_h img_patch_w input_points pad_y pad_x : option pyval) : M store pyval :=
  let img_patch_h := default (VInt 224) img_patch_h in
  let img_patch_w := default (VInt 224) img_patch_w in
  let input_points := default VNone input_points in
  let pad_y := default (VInt 0) pad_y in
  let pad_x := default (VInt 0) pad_x in
  if decide (py.lower method_name = "point"%string) then
    PointsPatchExtractor img_patch_h img_patch_w pad_y pad_x input_points None
  else if decide (py.lower method_name = "fixedwindow"%string) then
    FixedWindowPatchExtractor img_patch_h img_patch_w None None
  else if decide (py.lower method_name = "variablewindow"%string) then
    VariableWindowPatchExtractor img_patch_h img_patch_w None None None None
  else raise (MethodNotSupported None).

(** * The method as a function of what it reads

    [extract_patches] writes only to the three objects it creates.  Its
    loops are restated over those three objects alone ([outs]), and the
    whole method as a function of the attributes, the points array and
    the image ([extract_fun]); [extract_patches_run] below shows that the
    method computes exactly this function. *)

#[global] Instance exn_ret : MRet (sum exn) := λ A, inr.
#[global] Instance exn_bind : MBind (sum exn) := λ A B f m,
  match m with
  | inl e => inl e
  | inr a => f a
  end.

Record outs := Outs {
  out_patches : ndarray;
  out_labels : list cell;
  out_ids : list cell
}.

Definition set_label (i : Z) (c : cell) : M outs unit := λ o,
  match py.list_setitem (out_labels o) i c with
  | inr l => (inr (), {| out_patches := out_patches o; out_labels := l; out_ids := out_ids o |})
  | inl e => (inl e, o)
  end.

Definition set_id (i : Z) (c : cell) : M outs unit := λ o,
  match py.list_setitem (out_ids o) i c with
  | inr l => (inr (), {| out_patches := out_patches o; out_labels := out_labels o; out_ids := l |})
  | inl e => (inl e, o)
  end.

Definition set_patch (i : Z) (v : ndarray) : M outs unit := λ o,
  match np.setitem (out_patches o) i v with
  | inr a => (inr (), {| out_patches := a; out_labels := out_labels o; out_ids := out_ids o |})
  | inl e => (inl e, o)
  end.

Definition write_patch_fun (padded : ndarray) (patch_h patch_w : Z)
    (cell_type : npval) (cell_location : list npval) (cell_tot : Z)
    (h w iter_tot : Z) : M outs Z :=
  let start_h := np.add (np.add (cell_location !!! 0%nat) (- h)) (- py.int_half (patch_h - 1)) in
  let start_w := np.add (np.add (cell_location !!! 1%nat) (- w)) (- py.int_half (patch_w - 1)) in
  let end_h := np.add start_h patch_h in
  let end_w := np.add start_w patch_w in
  set_label iter_tot (Val cell_type);;
  set_id iter_tot (Val (Scalar cell_tot));;
  v ← lift (np.getslice2 padded start_h end_h start_w end_w);
  set_patch iter_tot v;;
  ret (iter_tot + 1).

Definition extract_point_fun (points padded : ndarray) (pad_y pad_x n patch_h patch_w : Z)
    (i : Z) (st : Z * Z) : M outs (Z * Z) :=
  let row := np.row points i in
  cell_type ← lift (np.getitem row 0);
  r2 ← lift (np.getitem row 2);
  r1 ← lift (np.getitem row 1);
  let cell_location := [np.add (np.add r2 pad_y) (-1); np.add (np.add r1 pad_x) (-1)] in
  let '(start_location, end_location) := offset_bounds n in
  iter_tot ← for_ (range start_location end_location) (λ h,
                for_ (range start_location end_location) (λ w,
                  write_patch_fun padded patch_h patch_w cell_type cell_location st.1 h w)) st.2;
  ret (st.1 + 1, iter_tot).

(** What the method has in hand when its loops start. *)
Record frame := Frame {
  f_points : ndarray;
  f_padded : ndarray;
  f_patch_h : Z;
  f_patch_w : Z;
  f_pad_y : Z;
  f_pad_x : Z;
  f_n : Z;
  f_len : Z;
  f_zeros : ndarray
}.

Definition attr (attrs : gmap string pyval) (name : string) : exn + pyval :=
  from_option inr (inl AttributeError) (attrs !! name).

Definition int_attr (attrs : gmap string pyval) (name : string) : exn + Z :=
  v ← attr attrs name;
  match v with
  | VInt z => inr z
  | _ => inl TypeError
  end.

(** Everything up to the loops, given the points and the image as the
    two [isinstance] tests and the loader deliver them. *)
Definition prepare (attrs : gmap string pyval) (points image : exn + ndarray) : exn + frame :=
  pts ← points;
  img ← image;
  patch_h ← attr attrs "img_patch_h";
  patch_w ← attr attrs "img_patch_w";
  _ ← attr attrs "pad_y";
  _ ← attr attrs "pad_x";
  pad_y ← int_attr attrs "pad_y";
  pad_x ← int_attr attrs "pad_x";
  padded ← np.pad_symmetric img pad_y pad_x;
  len_points ← np.len pts;
  n ← int_attr attrs "num_examples_per_patch";
  patch_h ← int_attr attrs "img_patch_h";
  patch_w ← int_attr attrs "img_patch_w";
  z ← np.zeros [len_points * n; patch_h; patch_w; Z.of_nat (shape padded !!! 2%nat)];
  inr {| f_points := pts; f_padded := padded; f_patch_h := patch_h; f_patch_w := patch_w;
         f_pad_y := pad_y; f_pad_x := pad_x; f_n := n; f_len := len_points; f_zeros := z |}.

Definition blanks (num_patches_img : Z) : list cell :=
  replicate (Z.to_nat num_patches_img) Blank.

Definition init_outs (f : frame) : outs :=
  {| out_patches := f_zeros f;
     out_labels := blanks (f_len f * f_n f);
     out_ids := blanks (f_len f * f_n f) |}.

Definition fill (f : frame) : M outs (Z * Z) :=
  for_ (range 0 (f_len f))
    (extract_point_fun (f_points f) (f_padded f) (f_pad_y f) (f_pad_x f) (f_n f)
       (f_patch_h f) (f_patch_w f))
    (1, 0).

Definition extract_fun (attrs : gmap string pyval) (points image : exn + ndarray)
  : exn + outs :=
  f ← prepare attrs points image;
  match fill f (init_outs f) with
  | (inr _, o) => inr o
  | (inl e, _) => inl e
  end.

(** The attributes, points and image a call reads from the store. *)
Definition attrs_of (σ : store) (self : pyval) : option (gmap string pyval) :=
  match deref σ self with
  | Some (OInstance _ attrs) => Some attrs
  | _ => None
  end.

Definition points_of (σ : store) (self : pyval) : exn + ndarray :=
  match attrs_of σ self with
  | Some attrs =>
      v ← attr attrs "input_points";
      match deref σ v with
      | Some (ONdarray a) => inr a
      | _ => inl points_error
      end
  | None => inl AttributeError
  end.

Definition image_of (σ : store) (input_img : pyval) : exn + ndarray :=
  match input_img with
  | VStr path =>
      match disk σ path with
      | Some a => inr a
      | None => inl LoaderError
      end
  | _ =>
      match deref σ input_img with
      | Some (ONdarray a) => inr a
      | _ => inl image_error
      end
  end.

Definition extract_spec (σ : store) (self input_img : pyval) : exn + outs :=
  extract_fun (default ∅ (attrs_of σ self)) (points_of σ self) (image_of σ input_img).

(** The store in which the three objects made by the method, at [lp],
    [ll] and [lc], hold [o], and everything else is as in [σ0]. *)
Definition with_outs (σ0 : store) (lp ll lc : loc) (o : outs) : store :=
  {| heap := <[lp := ONdarray (out_patches o)]>
               (<[ll := OList (out_labels o)]>
                  (<[lc := OList (out_ids o)]> (heap σ0)));
     disk := disk σ0;
     reads := reads σ0 |}.

(** A computation on the store that acts on the three objects as [f]
    does, and on nothing else. *)
Definition refines {A} (σ0 : store) (lp ll lc : loc) (m : M store A) (f : M outs A) : Prop :=
  ∀ o, m (with_outs σ0 lp ll lc o) = ((f o).1, with_outs σ0 lp ll lc (f o).2).

(** A result of the method in store [σ'] against a result of the
    function: the same exception, or three references to objects holding
    what the function gives. *)
Definition agrees (r : exn + pyval * pyval * pyval) (σ' : store) (spec : exn + outs) : Prop :=
  match r, spec with
  | inl e, inl e' => e = e'
  | inr (p, l, c), inr o =>
      deref σ' p = Some (ONdarray (out_patches o))
      ∧ deref σ' l = Some (OList (out_labels o))
      ∧ deref σ' c = Some (OList (out_ids o))
  | _, _ => False
  end.

(** The references returned are three different locations not in use in
    [σ]. *)
Definition fresh_results (σ : store) (r : exn + pyval * pyval * pyval) : Prop :=
  match r with
  | inr (VRef p, VRef l, VRef c) =>
      heap σ !! p = None ∧ heap σ !! l = None ∧ heap σ !! c = None
      ∧ p ≠ l ∧ p ≠ c ∧ l ≠ c
  | inr _ => False
  | inl _ => True
  end.

Definition is_Exception (e : exn) : Prop :=
  match e with
  | Exception _ => True
  | _ => False
  end.

(** A computation that never raises the plain [Exception]. *)
Definition quiet {St A} (m : M St A) : Prop :=
  ∀ σ e σ', m σ = (inl e, σ') → ¬ is_Exception e.

(** The call finds its receiver, an array of points and, unless the image
    is given as a path, an array for the image. *)
Definition resolved (σ : store) (self input_img : pyval) : Prop :=
  (∃ cls attrs v a,
      deref σ self = Some (OInstance cls attrs)
      ∧ attrs !! "input_points"%string = Some v
      ∧ deref σ v = Some (ONdarray a))
  ∧ match input_img with
    | VStr _ => True
    | _ => ∃ a, deref σ input_img = Some (ONdarray a)
    end.

(** ** What each position of the result holds

    Position [i] of the three results belongs to point [i / n]; within
    the point, the offsets run row by row over the square grid. *)

Definition offset_of (f : frame) (i : Z) : Z * Z :=
  let '(start_location, end_location) := offset_bounds (f_n f) in
  let side := end_location - start_location in
  let q := i mod f_n f in
  (start_location + q / side, start_location + q mod side).

(** Top-left corner [(start_h, start_w)] of the window of position [i]. *)
Definition window_of (f : frame) (i : Z) : Z * Z :=
  let p := i / f_n f in
  (item (f_points f) [p; 2] + f_pad_y f - 1 - (offset_of f i).1
     - py.int_half (f_patch_h f - 1),
   item (f_points f) [p; 1] + f_pad_x f - 1 - (offset_of f i).2
     - py.int_half (f_patch_w f - 1)).

(** [image[start_h:end_h, start_w:end_w]] for position [i]. *)
Definition slice_of (f : frame) (i : Z) : exn + ndarray :=
  let '(start_h, start_w) := window_of f i in
  np.getslice2 (f_padded f)
    (Scalar start_h) (Scalar (start_h + f_patch_h f))
    (Scalar start_w) (Scalar (start_w + f_patch_w f)).

(** Position [i] has been written: label, cell number and patch. *)
Definition written (f : frame) (o : outs) (i : Z) : Prop :=
  out_labels o !! Z.to_nat i = Some (Val (Scalar (item (f_points f) [i / f_n f; 0])))
  ∧ out_ids o !! Z.to_nat i = Some (Val (Scalar (i / f_n f + 1)))
  ∧ ∃ v, slice_of f i = inr v
         ∧ np.broadcastable (shape v) (tail (shape (f_zeros f))) = true
         ∧ ∀ rest, item (out_patches o) (i :: rest) = item v (np.bcast_index (shape v) rest).

(** The results while the loops run: their sizes never change, and the
    positions before [t] have been written. *)
Definition filled (f : frame) (t : Z) (o : outs) : Prop :=
  length (out_labels o) = Z.to_nat (f_len f * f_n f)
  ∧ length (out_ids o) = Z.to_nat (f_len f * f_n f)
  ∧ shape (out_patches o) = shape (f_zeros f)
  ∧ ∀ i, 0 ≤ i < t → written f o i.

(** The window of position [i] lies inside the padded image. *)
Definition window_inside (f : frame) (i : Z) : bool :=
  let '(start_h, start_w) := window_of f i in
  match shape (f_padded f) with
  | [h; w; _] =>
      (0 <=? start_h) && (start_h + f_patch_h f <=? Z.of_nat h)
      && (0 <=? start_w) && (start_w + f_patch_w f <=? Z.of_nat w)
  | _ => false
  end.

Definition windows_fit (f : frame) : bool :=
  forallb (window_inside f) (range 0 (f_len f * f_n f)).

(** ** Valid calls

    The configuration of a point-centred extractor, and a call the
    specification counts as valid: a receiver with that configuration
    and an array of points with three columns (label, x, y), an image
    with three axes and at least one pixel (given as an array or as a
    path the loader can read), positive patch sizes, non-negative
    padding, and a number of examples whose square root is an odd
    integer. *)

Record config := Config {
  cfg_patch_h : Z;
  cfg_patch_w : Z;
  cfg_pad_y : Z;
  cfg_pad_x : Z;
  cfg_n : Z
}.

Definition has_config (attrs : gmap string pyval) (c : config) : Prop :=
  attrs !! "img_patch_h"%string = Some (VInt (cfg_patch_h c))
  ∧ attrs !! "img_patch_w"%string = Some (VInt (cfg_patch_w c))
  ∧ attrs !! "pad_y"%string = Some (VInt (cfg_pad_y c))
  ∧ attrs !! "pad_x"%string = Some (VInt (cfg_pad_x c))
  ∧ attrs !! "num_examples_per_patch"%string = Some (VInt (cfg_n c)).

Definition valid_input (σ : store) (self input_img : pyval) (c : config)
    (points img : ndarray) : Prop :=
  (∃ cls attrs v,
      deref σ self = Some (OInstance cls attrs)
      ∧ has_config attrs c
      ∧ attrs !! "input_points"%string = Some v
      ∧ deref σ v = Some (ONdarray points))
  ∧ image_of σ input_img = inr img
  ∧ (∃ n_points : nat, shape points = [n_points; 3%nat])
  ∧ (∃ h w d : nat, shape img = [h; w; d] ∧ (0 < h)%nat ∧ (0 < w)%nat)
  ∧ 0 < cfg_patch_h c ∧ 0 < cfg_patch_w c
  ∧ 0 ≤ cfg_pad_y c ∧ 0 ≤ cfg_pad_x c
  ∧ (∃ side, 0 < side ∧ Z.odd side = true ∧ cfg_n c = side * side).

Definition the_array (r : exn + ndarray) : ndarray :=
  match r with
  | inr a => a
  | inl _ => {| shape := []; item := λ _, 0 |}
  end.

(** The padded image of a valid call. *)
Definition padded_of (c : config) (img : ndarray) : ndarray :=
  the_array (np.pad_symmetric img (cfg_pad_y c) (cfg_pad_x c)).

(** [len(points)] *)
Definition len_of (points : ndarray) : Z := Z.of_nat (hd 0%nat (shape points)).

(** What the loops of a valid call start from. *)
Definition frame_of (c : config) (points img : ndarray) : frame :=
  {| f_points := points;
     f_padded := padded_of c img;
     f_patch_h := cfg_patch_h c;
     f_patch_w := cfg_patch_w c;
     f_pad_y := cfg_pad_y c;
     f_pad_x := cfg_pad_x c;
     f_n := cfg_n c;
     f_len := len_of points;
     f_zeros := the_array (np.zeros [len_of points * cfg_n c; cfg_patch_h c; cfg_patch_w c;
                                      Z.of_nat (shape (padded_of c img) !!! 2%nat)]) |}.

Definition is_ndarray (σ : store) (v : pyval) : Prop :=
  ∃ a, deref σ v = Some (ONdarray a).

Definition is_str (v : pyval) : Prop := ∃ s, v = VStr s.

(** ** get_last_steps as the specification words it

    "[ceil((image_dim - patch_dim) / stride)] steps, then
    [last_step = (steps + 1) * stride], truncated to an integer". *)

Definition truncate (q : Q) : Z :=
  if Qle_bool 0 q then Qfloor q else Qceiling q.

Definition last_step_spec (image_dim patch_dim stride : Q) : Z :=
  let steps := Qceiling ((image_dim - patch_dim) / stride) in
  truncate (inject_Z (steps + 1) * stride)%Q.

(** ** Example data *)

(** An image whose pixel [(i, j, k)] holds [100 i + 10 j + k]. *)
Definition example_image (h w d : nat) : ndarray :=
  {| shape := [h; w; d];
     item := λ idx,
       match idx with
       | [i; j; k] => 100 * i + 10 * j + k
       | _ => 0
       end |}.

(** The array of points with rows [(label, x, y)]. *)
Definition example_points (rows : list (Z * Z * Z)) : ndarray :=
  {| shape := [length rows; 3%nat];
     item := λ idx,
       match idx with
       | [i; j] =>
           match rows !! Z.to_nat i with
           | Some (label, x, y) => if j =? 0 then label else if j =? 1 then x else y
           | None => 0
           end
       | _ => 0
       end |}.

Definition example_attrs (c : config) (input_points : pyval) : gmap string pyval :=
  list_to_map
    [("img_patch_h"%string, VInt (cfg_patch_h c));
     ("img_patch_w"%string, VInt (cfg_patch_w c));
     ("pad_y"%string, VInt (cfg_pad_y c));
     ("pad_x"%string, VInt (cfg_pad_x c));
     ("input_points"%string, input_points);
     ("num_examples_per_patch"%string, VInt (cfg_n c))].

(** A store with an extractor at location 0, its points at 1, an image
    at 2, and the same image on disk as ["slide.png"]. *)
Definition example_store (c : config) (rows : list (Z * Z * Z)) (img : ndarray) : store :=
  {| heap := list_to_map
               [(0%nat, OInstance C_PointsPatchExtractor (example_attrs c (VRef 1%nat)));
                (1%nat, ONdarray (example_points rows));
                (2%nat, ONdarray img)];
     disk := λ path, if decide (path = "slide.png"%string) then Some img else None;
     reads := [] |}.

(** Two points, nine examples each, on a 3 x 3 image padded by 3. *)
Definition example_config : config :=
  {| cfg_patch_h := 3; cfg_patch_w := 3; cfg_pad_y := 3; cfg_pad_x := 3; cfg_n := 9 |}.
Definition example_rows : list (Z * Z * Z) := [(7, 2, 2); (8, 1, 3)].

(** One point in the corner of a 3 x 3 image without padding. *)
Definition corner_config : config :=
  {| cfg_patch_h := 3; cfg_patch_w := 3; cfg_pad_y := 0; cfg_pad_x := 0; cfg_n := 1 |}.
Definition corner_rows : list (Z * Z * Z) := [(7, 1, 1)].

Definition empty_store : store := {| heap := ∅; disk := λ _, None; reads := [] |}.

(** The valid example call. *)
Definition example_run : (exn + pyval * pyval * pyval) * store :=
  extract_patches (VRef 0%nat) (VRef 2%nat)
    (example_store example_config example_rows (example_image 3 3 1)).

(** * The loops for any number of examples

    For [n] examples per point the two inner loops run over
    [range(start_location, end_location)] each, whatever [n] is: the
    side of the grid visited is [end_location - start_location], and
    [iter_tot] advances by the square of that side for each point. *)

Definition grid_side (n : Z) : Z :=
  let '(start_location, end_location) := offset_bounds n in
  end_location - start_location.

Definition per_point (n : Z) : Z := grid_side n * grid_side n.

(** The offsets [(h, w)] at which position [i] is written. *)
Definition grid_offset (n i : Z) : Z * Z :=
  let '(start_location, _) := offset_bounds n in
  let q := i mod per_point n in
  (start_location + q / grid_side n, start_location + q mod grid_side n).

(** [(start_h, start_w)] for position [i]. *)
Definition grid_window (f : frame) (i : Z) : Z * Z :=
  let p := i / per_point (f_n f) in
  (item (f_points f) [p; 2] + f_pad_y f - 1 - (grid_offset (f_n f) i).1
     - py.int_half (f_patch_h f - 1),
   item (f_points f) [p; 1] + f_pad_x f - 1 - (grid_offset (f_n f) i).2
     - py.int_half (f_patch_w f - 1)).

(** [image[start_h:end_h, start_w:end_w]] for position [i]. *)
Definition grid_slice (f : frame) (i : Z) : exn + ndarray :=
  let '(start_h, start_w) := grid_window f i in
  np.getslice2 (f_padded f)
    (Scalar start_h) (Scalar (start_h + f_patch_h f))
    (Scalar start_w) (Scalar (start_w + f_patch_w f)).

(** The slice of position [i] can be stored into a patch. *)
Definition slice_fits (f : frame) (i : Z) : bool :=
  match grid_slice f i with
  | inr v => np.broadcastable (shape v) (tail (shape (f_zeros f)))
  | inl _ => false
  end.

Definition slices_fit (f : frame) : bool :=
  forallb (slice_fits f) (range 0 (f_len f * per_point (f_n f))).

(** Position [i] has been written. *)
Definition stored (f : frame) (o : outs) (i : Z) : Prop :=
  out_labels o !! Z.to_nat i
  = Some (Val (Scalar (item (f_points f) [i / per_point (f_n f); 0])))
  ∧ out_ids o !! Z.to_nat i = Some (Val (Scalar (i / per_point (f_n f) + 1)))
  ∧ ∃ v, grid_slice f i = inr v
         ∧ np.broadcastable (shape v) (tail (shape (f_zeros f))) = true
         ∧ ∀ rest, item (out_patches o) (i :: rest) = item v (np.bcast_index (shape v) rest).

(** Position [i] is as it was before the loops. *)
Definition untouched (f : frame) (o : outs) (i : Z) : Prop :=
  out_labels o !! Z.to_nat i = out_labels (init_outs f) !! Z.to_nat i
  ∧ out_ids o !! Z.to_nat i = out_ids (init_outs f) !! Z.to_nat i
  ∧ ∀ rest, item (out_patches o) (i :: rest) = item (f_zeros f) (i :: rest).

(** The results when [iter_tot = t]. *)
Definition filled_to (f : frame) (t : Z) (o : outs) : Prop :=
  length (out_labels o) = Z.to_nat (f_len f * f_n f)
  ∧ length (out_ids o) = Z.to_nat (f_len f * f_n f)
  ∧ shape (out_patches o) = shape (f_zeros f)
  ∧ (∀ i, 0 ≤ i < t → stored f o i)
  ∧ (∀ i, t ≤ i → untouched f o i).

(** The loops stop at position [i]: the first whose slice does not fit. *)
Definition stops_at (f : frame) (i : Z) : Prop :=
  0 ≤ i < f_len f * per_point (f_n f)
  ∧ slice_fits f i = false
  ∧ ∀ j, 0 ≤ j < i → slice_fits f j = true.

(** The receiver holds configuration [c] and an array of points, and the
    image argument delivers an array. *)
Definition configured (σ : store) (self input_img : pyval) (c : config)
    (points img : ndarray) : Prop :=
  (∃ cls attrs v,
      deref σ self = Some (OInstance cls attrs)
      ∧ has_config attrs c
      ∧ attrs !! "input_points"%string = Some v
      ∧ deref σ v = Some (ONdarray points))
  ∧ image_of σ input_img = inr img.

(** [extract_fun] for a receiver with configuration [c]. *)
Definition prepare_config (c : config) (points img : ndarray) : exn + frame :=
  padded ← np.pad_symmetric img (cfg_pad_y c) (cfg_pad_x c);
  len_points ← np.len points;
  z ← np.zeros [len_points * cfg_n c; cfg_patch_h c; cfg_patch_w c;
                 Z.of_nat (shape padded !!! 2%nat)];
  inr {| f_points := points; f_padded := padded;
         f_patch_h := cfg_patch_h c; f_patch_w := cfg_patch_w c;
         f_pad_y := cfg_pad_y c; f_pad_x := cfg_pad_x c;
         f_n := cfg_n c; f_len := len_points; f_zeros := z |}.

Definition fill_result (f : frame) : exn + outs :=
  match fill f (init_outs f) with
  | (inr _, o) => inr o
  | (inl e, _) => inl e
  end.

Definition extract_config (c : config) (points img : ndarray) : exn + outs :=
  prepare_config c points img ≫= fill_result.

(** A call on a configured receiver with shapes that let the loops
    start: points in rows of at least three columns, an image with three
    axes and at least one pixel, patch sizes and padding that are not
    negative, and at least one example per point. *)
Definition well_shaped (σ : store) (self input_img : pyval) (c : config)
    (points img : ndarray) : Prop :=
  configured σ self input_img c points img
  ∧ (∃ N K : nat, shape points = [N; K] ∧ (3 ≤ K)%nat)
  ∧ (∃ h w d : nat, shape img = [h; w; d] ∧ (0 < h)%nat ∧ (0 < w)%nat)
  ∧ 0 ≤ cfg_patch_h c ∧ 0 ≤ cfg_patch_w c
  ∧ 0 ≤ cfg_pad_y c ∧ 0 ≤ cfg_pad_x c
  ∧ 1 ≤ cfg_n c.

(** The numbers of a call are small enough for the machine arithmetic
    of the loops to be exact.  [np.array([row[2], row[1]], dtype=np.int)]
    holds the coordinates of a point as C [long] integers, of 32 bits on
    some platforms, and the window is computed from them; the root of
    the number of examples is a float.  With these bounds no conversion
    overflows, no sum wraps around and the root has the integer part of
    the exact root; the embedding computes on unbounded integers. *)
Definition fits_np_int (c : config) (points : ndarray) : bool :=
  (cfg_n c <? 2 ^ 52)
  && forallb
       (λ q, (Z.abs (item points [q; 2]) + cfg_pad_y c + cfg_patch_h c + np.isqrt (cfg_n c)
              <? 2 ^ 31)
             && (Z.abs (item points [q; 1]) + cfg_pad_x c + cfg_patch_w c + np.isqrt (cfg_n c)
                 <? 2 ^ 31))
       (range 0 (len_of points)).

(** Where [seq[start:start + len]] begins when it has all its [len]
    items, for a sequence of [n] items: at [start] when the slice lies
    inside the sequence, and counted from the end of the sequence when
    both its bounds are negative. *)
Definition slice_start (n : nat) (start len : Z) : option Z :=
  if (0 <=? start) && (start + len <=? Z.of_nat n) then Some start
  else if (- Z.of_nat n <=? start) && (start + len <? 0) then Some (start + Z.of_nat n)
  else None.

(** A store like [example_store], for any array of points. *)
Definition store_of (c : config) (points img : ndarray) : store :=
  {| heap := list_to_map
               [(0%nat, OInstance C_PointsPatchExtractor (example_attrs c (VRef 1%nat)));
                (1%nat, ONdarray points);
                (2%nat, ONdarray img)];
     disk := λ path, if decide (path = "slide.png"%string) then Some img else None;
     reads := [] |}.

(** The call on [store_of c (example_points rows) (example_image 3 3 1)]. *)
Definition run_of (c : config) (rows : list (Z * Z * Z)) : (exn + pyval * pyval * pyval) * store :=
  extract_patches (VRef 0%nat) (VRef 2%nat)
    (store_of c (example_points rows) (example_image 3 3 1)).

(** Five examples per point: not a square. *)
Definition ragged_config : config :=
  {| cfg_patch_h := 3; cfg_patch_w := 3; cfg_pad_y := 3; cfg_pad_x := 3; cfg_n := 5 |}.

(** A 2 x 2 patch at the last row of an image without padding: the
    window has one row inside the image. *)
Definition clipped_config : config :=
  {| cfg_patch_h := 2; cfg_patch_w := 2; cfg_pad_y := 0; cfg_pad_x := 0; cfg_n := 1 |}.
Definition clipped_rows : list (Z * Z * Z) := [(7, 1, 3)].

(** Nine examples of 2 x 2 around a point of the last row of a 3 x 3
    image padded by 1: the windows of the offsets [h = -1] start at the
    last row of the padded image. *)
Definition edge_config : config :=
  {| cfg_patch_h := 2; cfg_patch_w := 2; cfg_pad_y := 1; cfg_pad_x := 1; cfg_n := 9 |}.
Definition edge_rows : list (Z * Z * Z) := [(7, 2, 3)].

(** A point with a negative coordinate: the window ends before row 0. *)
Definition wrapped_config : config :=
  {| cfg_patch_h := 3; cfg_patch_w := 3; cfg_pad_y := 3; cfg_pad_x := 3; cfg_n := 1 |}.
Definition wrapped_rows : list (Z * Z * Z) := [(7, 2, -5)].

Definition zero_config : config :=
  {| cfg_patch_h := 3; cfg_patch_w := 3; cfg_pad_y := 3; cfg_pad_x := 3; cfg_n := 0 |}.

(** One point given as a pair, without its third column. *)
Definition pair_points : ndarray := {| shape := [1%nat; 2%nat]; item := λ _, 1 |}.

(** An image without a channel axis. *)
Definition grey_image : ndarray := {| shape := [3%nat; 3%nat]; item := λ _, 0 |}.

(** Closed comparisons between numbers that compute. *)
Ltac decide_cmp := vm_compute; repeat split; first [discriminate | reflexivity].

(** * Proofs

    ** Running the monad *)

Lemma bind_run {St A B} (m : M St A) (k : A → M St B) σ :
  (m ≫= k) σ = match m σ with (inr a, σ') => k a σ' | (inl e, σ') => (inl e, σ') end.
Proof. reflexivity. Qed.

Lemma list_of_run σ l xs : heap σ !! l = Some (OList xs) → list_of (VRef l) σ = (inr xs, σ).
Proof. intros H. unfold list_of, deref. rewrite H. reflexivity. Qed.

Lemma ndarray_of_run σ l a :
  heap σ !! l = Some (ONdarray a) → ndarray_of (VRef l) σ = (inr a, σ).
Proof. intros H. unfold ndarray_of, deref. rewrite H. reflexivity. Qed.

Lemma put_run σ l o :
  put (VRef l) o σ = (inr (), {| heap := <[l := o]> (heap σ); disk := disk σ; reads := reads σ |}).
Proof. reflexivity. Qed.

Lemma getattr_run σ l cls attrs name :
  heap σ !! l = Some (OInstance cls attrs) → getattr (VRef l) name σ = (attr attrs name, σ).
Proof.
  intros H. unfold getattr, deref, attr. rewrite H. destruct (attrs !! name); reflexivity.
Qed.

Section Refine.
Context (σ0 : store) (lp ll lc : loc).
Hypothesis Hpl : lp ≠ ll.
Hypothesis Hpc : lp ≠ lc.
Hypothesis Hlc : ll ≠ lc.

Local Abbreviation R := (refines σ0 lp ll lc).

Lemma refines_ret {A} (a : A) : R (mret a) (mret a).
Proof. intros o. reflexivity. Qed.

Lemma refines_lift {A} (r : exn + A) : R (lift r) (lift r).
Proof. intros o. reflexivity. Qed.

Lemma refines_bind {A B} (m : M store A) f (k : A → M store B) g :
  R m f → (∀ a, R (k a) (g a)) → R (m ≫= k) (f ≫= g).
Proof.
  intros Hm Hk o. rewrite !bind_run, Hm.
  destruct (f o) as [[e|a] o']; simpl; [reflexivity|]. apply Hk.
Qed.

Lemma refines_for {X S} (xs : list X) (body : X → S → M store S) body' s :
  (∀ x s, R (body x s) (body' x s)) → R (for_ xs body s) (for_ xs body' s).
Proof.
  intros Hb. revert s. induction xs as [|x xs IH]; intros s; simpl.
  - apply refines_ret.
  - apply refines_bind; [apply Hb|]. intros s'. apply IH.
Qed.

Lemma lookup_lp o : heap (with_outs σ0 lp ll lc o) !! lp = Some (ONdarray (out_patches o)).
Proof. simpl. apply lookup_insert_eq. Qed.
Lemma lookup_ll o : heap (with_outs σ0 lp ll lc o) !! ll = Some (OList (out_labels o)).
Proof. simpl. rewrite lookup_insert_ne by done. apply lookup_insert_eq. Qed.
Lemma lookup_lc o : heap (with_outs σ0 lp ll lc o) !! lc = Some (OList (out_ids o)).
Proof. simpl. rewrite !lookup_insert_ne by done. apply lookup_insert_eq. Qed.
Lemma lookup_other o l : l ≠ lp → l ≠ ll → l ≠ lc →
  heap (with_outs σ0 lp ll lc o) !! l = heap σ0 !! l.
Proof. intros. simpl. rewrite !lookup_insert_ne by done. done. Qed.

Lemma with_outs_labels o l' :
  {| heap := <[ll := OList l']> (heap (with_outs σ0 lp ll lc o));
     disk := disk (with_outs σ0 lp ll lc o); reads := reads (with_outs σ0 lp ll lc o) |}
  = with_outs σ0 lp ll lc {| out_patches := out_patches o; out_labels := l'; out_ids := out_ids o |}.
Proof.
  unfold with_outs; simpl. f_equal.
  rewrite (insert_insert_ne _ ll lp) by done.
  rewrite insert_insert_eq. reflexivity.
Qed.

Lemma with_outs_ids o l' :
  {| heap := <[lc := OList l']> (heap (with_outs σ0 lp ll lc o));
     disk := disk (with_outs σ0 lp ll lc o); reads := reads (with_outs σ0 lp ll lc o) |}
  = with_outs σ0 lp ll lc {| out_patches := out_patches o; out_labels := out_labels o; out_ids := l' |}.
Proof.
  unfold with_outs; simpl. f_equal.
  rewrite (insert_insert_ne _ lc lp), (insert_insert_ne _ lc ll) by done.
  rewrite insert_insert_eq. reflexivity.
Qed.

Lemma with_outs_patches o a :
  {| heap := <[lp := ONdarray a]> (heap (with_outs σ0 lp ll lc o));
     disk := disk (with_outs σ0 lp ll lc o); reads := reads (with_outs σ0 lp ll lc o) |}
  = with_outs σ0 lp ll lc {| out_patches := a; out_labels := out_labels o; out_ids := out_ids o |}.
Proof. unfold with_outs; simpl. f_equal. apply insert_insert_eq. Qed.

Lemma refines_set_label i c : R (list_setitem (VRef ll) i c) (set_label i c).
Proof.
  intros o. unfold list_setitem, set_label.
  rewrite bind_run, (list_of_run _ _ _ (lookup_ll o)), bind_run. unfold lift.
  destruct (py.list_setitem (out_labels o) i c) as [e|l']; simpl; [reflexivity|].
  f_equal. apply with_outs_labels.
Qed.

Lemma refines_set_id i c : R (list_setitem (VRef lc) i c) (set_id i c).
Proof.
  intros o. unfold list_setitem, set_id.
  rewrite bind_run, (list_of_run _ _ _ (lookup_lc o)), bind_run. unfold lift.
  destruct (py.list_setitem (out_ids o) i c) as [e|l']; simpl; [reflexivity|].
  f_equal. apply with_outs_ids.
Qed.

Lemma refines_set_patch i v : R (nd_setitem (VRef lp) i v) (set_patch i v).
Proof.
  intros o. unfold nd_setitem, set_patch.
  rewrite bind_run, (ndarray_of_run _ _ _ (lookup_lp o)), bind_run. unfold lift.
  destruct (np.setitem (out_patches o) i v) as [e|a]; simpl; [reflexivity|].
  f_equal. apply with_outs_patches.
Qed.

(** Reads of objects other than the three. *)
Lemma refines_ndarray_of l a :
  heap σ0 !! l = Some (ONdarray a) → l ≠ lp → l ≠ ll → l ≠ lc →
  R (ndarray_of (VRef l)) (mret a).
Proof.
  intros Hl ? ? ? o. apply ndarray_of_run. rewrite lookup_other; done.
Qed.

Lemma refines_int_attr l cls attrs name :
  heap σ0 !! l = Some (OInstance cls attrs) → l ≠ lp → l ≠ ll → l ≠ lc →
  R (getattr (VRef l) name ≫= as_int) (lift (int_attr attrs name)).
Proof.
  intros Hl ? ? ? o. rewrite bind_run.
  rewrite (getattr_run _ _ cls attrs) by (rewrite lookup_other; done).
  unfold lift, int_attr, attr.
  destruct (attrs !! name) as [[]|]; reflexivity.
Qed.

Section Loops.
Context (lself lpts limg : loc) (cls : pyclass) (attrs : gmap string pyval)
        (points padded : ndarray).
Hypothesis Hself : heap σ0 !! lself = Some (OInstance cls attrs).
Hypothesis Hpts : heap σ0 !! lpts = Some (ONdarray points).
Hypothesis Himg : heap σ0 !! limg = Some (ONdarray padded).
Hypothesis Hfresh : ∀ l, is_Some (heap σ0 !! l) → l ≠ lp ∧ l ≠ ll ∧ l ≠ lc.

Lemma refines_write_patch patch_h patch_w cell_type cell_location cell_tot h w iter_tot :
  R (write_patch (VRef limg) (VRef lp) (VRef ll) (VRef lc) patch_h patch_w
       cell_type cell_location cell_tot h w iter_tot)
    (write_patch_fun padded patch_h patch_w cell_type cell_location cell_tot h w iter_tot).
Proof.
  unfold write_patch, write_patch_fun.
  apply refines_bind; [apply refines_set_label|intros _].
  apply refines_bind; [apply refines_set_id|intros _].
  apply refines_bind.
  - unfold nd_getslice2. intros o. rewrite bind_run.
    destruct (Hfresh limg) as (?&?&?); [eauto|].
    rewrite (refines_ndarray_of _ _ Himg) by done. reflexivity.
  - intros v. apply refines_bind; [apply refines_set_patch|intros _]. apply refines_ret.
Qed.

Lemma refines_read {A B} (m : M store A) (a : A) (k : A → M store B) f :
  (∀ o, m (with_outs σ0 lp ll lc o) = (inr a, with_outs σ0 lp ll lc o)) →
  R (k a) f → R (m ≫= k) f.
Proof. intros Hm Hk o. rewrite bind_run, Hm. apply Hk. Qed.

Lemma read_int_attr name z o :
  int_attr attrs name = inr z →
  (getattr (VRef lself) name ≫= as_int) (with_outs σ0 lp ll lc o)
  = (inr z, with_outs σ0 lp ll lc o).
Proof.
  intros Hz. destruct (Hfresh lself) as (?&?&?); [eauto|].
  rewrite (refines_int_attr _ _ _ name Hself) by done. unfold lift. rewrite Hz.
  reflexivity.
Qed.

Lemma refines_extract_point pad_y pad_x n patch_h patch_w i st :
  int_attr attrs "pad_y" = inr pad_y →
  int_attr attrs "pad_x" = inr pad_x →
  int_attr attrs "num_examples_per_patch" = inr n →
  R (extract_point (VRef lself) (VRef lpts) (VRef limg) (VRef lp) (VRef ll) (VRef lc)
       patch_h patch_w i st)
    (extract_point_fun points padded pad_y pad_x n patch_h patch_w i st).
Proof.
  intros Hy Hx Hn. unfold extract_point, extract_point_fun.
  apply (refines_read _ points).
  { intros o. destruct (Hfresh lpts) as (?&?&?); [eauto|].
    apply (refines_ndarray_of _ _ Hpts); done. }
  apply refines_bind; [apply refines_lift|intros cell_type].
  apply refines_bind; [apply refines_lift|intros r2].
  apply refines_bind; [apply refines_lift|intros r1].
  apply (refines_read _ pad_y); [intros o; by apply read_int_attr|].
  apply (refines_read _ pad_x); [intros o; by apply read_int_attr|].
  apply (refines_read _ n); [intros o; by apply read_int_attr|].
  destruct (offset_bounds n) as [start_location end_location].
  apply refines_bind; [|intros it; apply refines_ret].
  apply refines_for. intros h it. apply refines_for. intros w it'.
  apply refines_write_patch.
Qed.
End Loops.
End Refine.


Lemma fresh_lookup (σ : store) : heap σ !! fresh (dom (heap σ)) = None.
Proof. apply not_elem_of_dom, is_fresh. Qed.

Lemma alloc_run σ o :
  alloc o σ = (inr (VRef (fresh (dom (heap σ)))),
               {| heap := <[fresh (dom (heap σ)) := o]> (heap σ);
                  disk := disk σ; reads := reads σ |}).
Proof. reflexivity. Qed.

Lemma alloc_subseteq (σ : store) o : heap σ ⊆ <[fresh (dom (heap σ)) := o]> (heap σ).
Proof. apply insert_subseteq, fresh_lookup. Qed.


(** Closing the branches in which the method raises. *)
Ltac use_eqns :=
  repeat match goal with
         | H : _ = inl _ |- _ => rewrite H; simpl
         | H : _ = inr _ |- _ => rewrite H; simpl
         end.

Ltac fail_case :=
  eexists _, _; split; [reflexivity|];
  unfold extract_fun, prepare, int_attr; simpl; use_eqns;
  repeat split; auto using alloc_subseteq; done.

Lemma with_outs_subseteq σ0 lp ll lc o :
  heap σ0 !! lp = None → heap σ0 !! ll = None → heap σ0 !! lc = None →
  lp ≠ ll → lp ≠ lc → ll ≠ lc →
  heap σ0 ⊆ heap (with_outs σ0 lp ll lc o).
Proof.
  intros Hp Hl Hc ? ? ?. simpl.
  etrans; [|apply insert_subseteq; by rewrite !lookup_insert_ne].
  etrans; [|apply insert_subseteq; by rewrite !lookup_insert_ne].
  by apply insert_subseteq.
Qed.

Lemma alloc3_run {A} σ0 z (k : pyval → pyval → pyval → M store A) :
  ∃ lp ll lc,
    (heap σ0 !! lp = None ∧ heap σ0 !! ll = None ∧ heap σ0 !! lc = None)
    ∧ (lp ≠ ll ∧ lp ≠ lc ∧ ll ≠ lc)
    ∧ (alloc (ONdarray z) ≫= λ p, alloc (OList []) ≫= λ l, alloc (OList []) ≫= λ c, k p l c) σ0
      = k (VRef lp) (VRef ll) (VRef lc)
          (with_outs σ0 lp ll lc {| out_patches := z; out_labels := []; out_ids := [] |}).
Proof.
  rewrite bind_run, alloc_run, bind_run, alloc_run, bind_run, alloc_run. simpl.
  set (lp := fresh (dom (heap σ0))).
  set (ll := fresh (dom (<[lp := ONdarray z]> (heap σ0)))).
  set (lc := fresh (dom (<[ll := OList []]> (<[lp := ONdarray z]> (heap σ0))))).
  assert (Hp : heap σ0 !! lp = None) by apply fresh_lookup.
  assert (Hl : (<[lp := ONdarray z]> (heap σ0)) !! ll = None)
    by apply not_elem_of_dom, is_fresh.
  assert (Hc : (<[ll := OList []]> (<[lp := ONdarray z]> (heap σ0))) !! lc = None)
    by apply not_elem_of_dom, is_fresh.
  apply lookup_insert_None in Hl as [Hl Hpl].
  apply lookup_insert_None in Hc as [Hc Hlc].
  apply lookup_insert_None in Hc as [Hc Hpc].
  exists lp, ll, lc. repeat split; try done.
  unfold with_outs. simpl. f_equal. f_equal.
  rewrite (insert_insert_ne _ lc ll), (insert_insert_ne _ lc lp) by done.
  rewrite (insert_insert_ne _ ll lp) by done. reflexivity.
Qed.

Lemma list_append_run σ l xs c :
  heap σ !! l = Some (OList xs) →
  list_append (VRef l) c σ
  = (inr (), {| heap := <[l := OList (xs ++ [c])]> (heap σ); disk := disk σ; reads := reads σ |}).
Proof. intros H. unfold list_append. by rewrite bind_run, (list_of_run _ _ _ H). Qed.

Lemma appends_run {X} σ0 lp ll lc (xs : list X) o :
  lp ≠ ll → lp ≠ lc → ll ≠ lc →
  for_ xs (λ _ _, list_append (VRef ll) Blank;; list_append (VRef lc) Blank) ()
    (with_outs σ0 lp ll lc o)
  = (inr (), with_outs σ0 lp ll lc
               {| out_patches := out_patches o;
                  out_labels := out_labels o ++ replicate (length xs) Blank;
                  out_ids := out_ids o ++ replicate (length xs) Blank |}).
Proof.
  intros Hpl Hpc Hlc. revert o. induction xs as [|x xs IH]; intros o.
  - simpl. rewrite !app_nil_r. by destruct o.
  - cbn [for_]. rewrite !bind_run.
    rewrite (list_append_run _ _ _ _ (lookup_ll σ0 lp ll lc Hpl o)).
    rewrite (with_outs_labels σ0 lp ll lc Hpl).
    rewrite (list_append_run _ _ _ _ (lookup_lc σ0 lp ll lc Hpc Hlc _)).
    rewrite (with_outs_ids σ0 lp ll lc Hpc Hlc). rewrite IH. simpl.
    by rewrite <- !app_assoc.
Qed.

Lemma range_length a b : length (range a b) = Z.to_nat (b - a).
Proof. unfold range. by rewrite length_fmap, length_seq. Qed.

Lemma extract_body_run σ lself cls attrs lpts points limg img :
  heap σ !! lself = Some (OInstance cls attrs) →
  heap σ !! lpts = Some (ONdarray points) →
  heap σ !! limg = Some (ONdarray img) →
  ∃ r σ', extract_body (VRef lself) (VRef lpts) (VRef limg) σ = (r, σ')
    ∧ agrees r σ' (extract_fun attrs (inr points) (inr img))
    ∧ heap σ ⊆ heap σ' ∧ disk σ' = disk σ ∧ reads σ' = reads σ
    ∧ fresh_results σ r.
Proof.
  intros Hself Hpts Himg.
  unfold extract_body.
  rewrite bind_run, (getattr_run _ _ _ _ _ Hself).
  destruct (attr attrs "img_patch_h") as [?|vph] eqn:Hph; [fail_case|].
  rewrite bind_run, (getattr_run _ _ _ _ _ Hself).
  destruct (attr attrs "img_patch_w") as [?|vpw] eqn:Hpw; [fail_case|].
  rewrite bind_run, (getattr_run _ _ _ _ _ Hself).
  destruct (attr attrs "pad_y") as [?|vpy] eqn:Hpy; [fail_case|].
  rewrite bind_run, (getattr_run _ _ _ _ _ Hself).
  destruct (attr attrs "pad_x") as [?|vpx] eqn:Hpx; [fail_case|].
  rewrite bind_run.
  destruct vpy as [| pad_y | | |]; try fail_case.
  unfold as_int at 1, ret at 1; cbv beta iota.
  rewrite bind_run.
  destruct vpx as [| pad_x | | |]; try fail_case.
  unfold as_int at 1, ret at 1; cbv beta iota.
  rewrite bind_run, (ndarray_of_run _ _ _ Himg).
  rewrite bind_run. unfold lift at 1.
  destruct (np.pad_symmetric img pad_y pad_x) as [?|padded] eqn:Hpad; [fail_case|].
  rewrite bind_run, alloc_run.
  set (limg' := fresh (dom (heap σ))).
  set (σ1 := {| heap := <[limg' := ONdarray padded]> (heap σ); disk := disk σ; reads := reads σ |}).
  assert (Hσ1 : heap σ ⊆ heap σ1) by apply alloc_subseteq.
  assert (Hself1 : heap σ1 !! lself = Some (OInstance cls attrs)).
  { eapply lookup_weaken; eauto. }
  assert (Hpts1 : heap σ1 !! lpts = Some (ONdarray points)).
  { eapply lookup_weaken; eauto. }
  assert (Himg1 : heap σ1 !! limg' = Some (ONdarray padded)) by apply lookup_insert_eq.
  rewrite !bind_run, (ndarray_of_run _ _ _ Hpts1). unfold lift at 1.
  destruct (np.len points) as [?|len_points] eqn:Hlen; [fail_case|].
  rewrite !bind_run, (getattr_run _ _ _ _ _ Hself1).
  destruct (attr attrs "num_examples_per_patch") as [?|vn] eqn:Hn; [fail_case|].
  destruct vn as [| n | | |]; try fail_case.
  unfold as_int at 1, ret at 1; cbv beta iota.
  rewrite bind_run.
  destruct vph as [| patch_h | | |]; try fail_case.
  unfold as_int at 1, ret at 1; cbv beta iota.
  rewrite bind_run.
  destruct vpw as [| patch_w | | |]; try fail_case.
  unfold as_int at 1, ret at 1; cbv beta iota.
  rewrite bind_run. unfold lift at 1.
  destruct (np.zeros _) as [?|z] eqn:Hz; [fail_case|].
  destruct (alloc3_run σ1 z (λ img_patches labels cell_id,
    for_ (range 0 (len_points * n)) (λ _ _,
      list_append labels Blank;; list_append cell_id Blank) ();;
    for_ (range 0 len_points)
      (extract_point (VRef lself) (VRef lpts) (VRef limg') img_patches labels cell_id
         patch_h patch_w) (1, 0);;
    mret (img_patches, labels, cell_id)))
    as (lp & ll & lc & (Hp & Hl & Hc) & (Hpl & Hpc & Hlc) & ->).
  rewrite bind_run, appends_run by done. cbn [out_patches out_labels out_ids app].
  rewrite range_length, Z.sub_0_r. fold (blanks (len_points * n)).
  set (f := {| f_points := points; f_padded := padded; f_patch_h := patch_h;
               f_patch_w := patch_w; f_pad_y := pad_y; f_pad_x := pad_x; f_n := n;
               f_len := len_points; f_zeros := z |}).
  change (with_outs σ1 lp ll lc _) with (with_outs σ1 lp ll lc (init_outs f)).
  rewrite bind_run.
  assert (Hfresh : ∀ l, is_Some (heap σ1 !! l) → l ≠ lp ∧ l ≠ ll ∧ l ≠ lc).
  { intros l [x Hx]. repeat split; intros ->; congruence. }
  rewrite (refines_for σ1 lp ll lc _ _ (extract_point_fun points padded pad_y pad_x n patch_h patch_w)).
  2:{ intros i st. eapply (refines_extract_point σ1 lp ll lc Hpl Hpc Hlc); eauto.
      - unfold int_attr. by rewrite Hpy.
      - unfold int_attr. by rewrite Hpx.
      - unfold int_attr. by rewrite Hn. }
  change (for_ (range 0 len_points) (extract_point_fun points padded pad_y pad_x n patch_h patch_w) (1, 0)) with (fill f).
  exists (match (fill f (init_outs f)).1 with
          | inr _ => inr (VRef lp, VRef ll, VRef lc)
          | inl e => inl e
          end), (with_outs σ1 lp ll lc (fill f (init_outs f)).2).
  split; [by destruct (fill f (init_outs f)) as [[?|?] ?]|].
  split.
  { assert (Hspec : extract_fun attrs (inr points) (inr img)
                     = match fill f (init_outs f) with
                       | (inr _, o) => inr o
                       | (inl e, _) => inl e
                       end).
    { unfold extract_fun, prepare, int_attr. simpl. use_eqns. reflexivity. }
    rewrite Hspec.
    destruct (fill f (init_outs f)) as [[?|?] o]; [done|].
    unfold agrees, deref. cbn [fst snd].
    rewrite (lookup_lp σ1), (lookup_ll σ1), (lookup_lc σ1); done. }
  split; [etrans; [apply Hσ1|by apply with_outs_subseteq]|].
  repeat split; try done.
  destruct (fill f (init_outs f)) as [[?|?] o]; simpl; [done|].
  repeat split; try done; eapply lookup_weaken_None; eauto.
Qed.


Lemma quiet_ret {St A} (a : A) : quiet (St := St) (mret a).
Proof. intros σ e σ' H. discriminate. Qed.

Lemma quiet_lift {St A} (r : exn + A) :
  (∀ e, r = inl e → ¬ is_Exception e) → quiet (St := St) (lift r).
Proof. intros Hr σ e σ' H. unfold lift in H. apply Hr. congruence. Qed.

Lemma quiet_bind {St A B} (m : M St A) (k : A → M St B) :
  quiet m → (∀ a, quiet (k a)) → quiet (m ≫= k).
Proof.
  intros Hm Hk σ e σ'. rewrite bind_run.
  destruct (m σ) as [[e1|a] σ1] eqn:E.
  - intros [= <- <-]. eapply Hm, E.
  - apply Hk.
Qed.

Lemma quiet_for {St X S} (xs : list X) (body : X → S → M St S) s :
  (∀ x s, quiet (body x s)) → quiet (for_ xs body s).
Proof.
  intros Hb. revert s. induction xs as [|x xs IH]; intros s; simpl.
  - apply quiet_ret.
  - apply quiet_bind; [apply Hb|apply IH].
Qed.

Lemma index_error n i e : py.index n i = inl e → e = IndexError.
Proof. unfold py.index. case_match; congruence. Qed.

Lemma list_setitem_error xs i c e : py.list_setitem xs i c = inl e → e = IndexError.
Proof.
  unfold py.list_setitem. destruct (py.index _ _) eqn:E; [|done].
  intros [= <-]. eapply index_error, E.
Qed.

Lemma setitem_error t i v e : np.setitem t i v = inl e → e = IndexError ∨ e = ValueError.
Proof.
  unfold np.setitem. destruct (shape t); [intros [= <-]; auto|].
  destruct (py.index _ _) eqn:E; [intros [= <-]; left; eapply index_error, E|].
  case_match; [done|intros [= <-]; auto].
Qed.

Lemma getitem_error a k e : np.getitem a k = inl e → e = IndexError.
Proof.
  unfold np.getitem. destruct (shape a) as [|? rest]; [congruence|].
  destruct (py.index _ _) eqn:E; [intros [= <-]; eapply index_error, E|].
  destruct rest; done.
Qed.

Lemma getslice2_error a s0 e0 s1 e1 e :
  np.getslice2 a s0 e0 s1 e1 = inl e → e = TypeError ∨ e = IndexError.
Proof.
  unfold np.getslice2.
  destruct s0, e0, s1, e1; try (intros [= <-]; auto).
  destruct (shape a) as [|? [|? ?]]; try (intros [= <-]; auto).
Qed.

Lemma quiet_write_patch padded patch_h patch_w cell_type cell_location cell_tot h w it :
  quiet (write_patch_fun padded patch_h patch_w cell_type cell_location cell_tot h w it).
Proof.
  unfold write_patch_fun.
  apply quiet_bind.
  { intros o e o'. unfold set_label.
    destruct (py.list_setitem _ _ _) eqn:E; [|done].
    intros [= <- <-]. apply list_setitem_error in E as ->. intros []. }
  intros _. apply quiet_bind.
  { intros o e o'. unfold set_id.
    destruct (py.list_setitem _ _ _) eqn:E; [|done].
    intros [= <- <-]. apply list_setitem_error in E as ->. intros []. }
  intros _. apply quiet_bind.
  { apply quiet_lift. intros e He. by destruct (getslice2_error _ _ _ _ _ _ He) as [-> | ->]; intros []. }
  intros v. apply quiet_bind; [|intros; apply quiet_ret].
  intros o e o'. unfold set_patch.
  destruct (np.setitem _ _ _) eqn:E; [|done].
  intros [= <- <-]. by destruct (setitem_error _ _ _ _ E) as [-> | ->]; intros [].
Qed.

Lemma quiet_extract_point points padded pad_y pad_x n patch_h patch_w i st :
  quiet (extract_point_fun points padded pad_y pad_x n patch_h patch_w i st).
Proof.
  unfold extract_point_fun.
  repeat (apply quiet_bind;
          [apply quiet_lift; intros e He; apply getitem_error in He as ->; intros []|intros ?]).
  destruct (offset_bounds n).
  apply quiet_bind; [|intros; apply quiet_ret].
  apply quiet_for. intros h s. apply quiet_for. intros w s'. apply quiet_write_patch.
Qed.

Lemma quiet_fill f : quiet (fill f).
Proof. apply quiet_for. intros. apply quiet_extract_point. Qed.

Lemma pad_symmetric_error a y x e : np.pad_symmetric a y x = inl e → e = ValueError.
Proof.
  unfold np.pad_symmetric. destruct (shape a) as [|? [|? [|? [|? ?]]]]; try congruence.
  repeat case_match; congruence.
Qed.

Lemma zeros_error dims e : np.zeros dims = inl e → e = ValueError.
Proof. unfold np.zeros. case_match; congruence. Qed.

Lemma len_error a e : np.len a = inl e → e = TypeError.
Proof. unfold np.len. case_match; congruence. Qed.

Lemma attr_error attrs name e : attr attrs name = inl e → e = AttributeError.
Proof. unfold attr. destruct (attrs !! name); simpl; congruence. Qed.

Lemma int_attr_error attrs name e :
  int_attr attrs name = inl e → e = AttributeError ∨ e = TypeError.
Proof.
  unfold int_attr. destruct (attr attrs name) as [?|v] eqn:E; simpl.
  - intros [= <-]. left. eapply attr_error, E.
  - destruct v; intros [= <-]; auto.
Qed.

Lemma prepare_quiet attrs points img e :
  prepare attrs (inr points) (inr img) = inl e → ¬ is_Exception e.
Proof.
  unfold prepare. simpl.
  repeat match goal with
  | |- context [attr ?a ?n ≫= _] =>
      let E := fresh in destruct (attr a n) eqn:E; simpl;
      [intros [= <-]; apply attr_error in E as ->; intros []|]
  | |- context [int_attr ?a ?n ≫= _] =>
      let E := fresh in destruct (int_attr a n) eqn:E; simpl;
      [intros [= <-]; by destruct (int_attr_error _ _ _ E) as [-> | ->]; intros []|]
  | |- context [np.pad_symmetric ?a ?y ?x ≫= _] =>
      let E := fresh in destruct (np.pad_symmetric a y x) eqn:E; simpl;
      [intros [= <-]; apply pad_symmetric_error in E as ->; intros []|]
  | |- context [np.len ?a ≫= _] =>
      let E := fresh in destruct (np.len a) eqn:E; simpl;
      [intros [= <-]; apply len_error in E as ->; intros []|]
  | |- context [np.zeros ?a ≫= _] =>
      let E := fresh in destruct (np.zeros a) eqn:E; simpl;
      [intros [= <-]; apply zeros_error in E as ->; intros []|]
  end.
  done.
Qed.

Lemma extract_fun_quiet attrs points img e :
  extract_fun attrs (inr points) (inr img) = inl e → ¬ is_Exception e.
Proof.
  unfold extract_fun. destruct (prepare _ _ _) as [e'|f] eqn:E; simpl.
  - intros [= <-]. eapply prepare_quiet, E.
  - destruct (fill f (init_outs f)) as [[e'|?] o] eqn:E'; [|done].
    intros [= <-]. eapply quiet_fill, E'.
Qed.


Lemma deref_weaken σ σ' v o : heap σ ⊆ heap σ' → deref σ v = Some o → deref σ' v = Some o.
Proof. intros Hsub. destruct v; simpl; try done. intros H. eapply lookup_weaken; eauto. Qed.

Lemma extract_spec_preserved σ σ' self input_img :
  heap σ ⊆ heap σ' → disk σ' = disk σ → resolved σ self input_img →
  extract_spec σ' self input_img = extract_spec σ self input_img.
Proof.
  intros Hsub Hdisk [(cls & attrs & v & a & Hs & Hv & Ha) Himg].
  unfold extract_spec, points_of, attrs_of, attr.
  rewrite Hs, (deref_weaken _ _ _ _ Hsub Hs), Hv. simpl.
  rewrite Ha, (deref_weaken _ _ _ _ Hsub Ha).
  f_equal. unfold image_of. rewrite Hdisk.
  destruct input_img; try done;
    destruct Himg as [b Hb]; by rewrite Hb, (deref_weaken _ _ _ _ Hsub Hb).
Qed.

Theorem extract_patches_run σ self input_img :
  ∃ r σ', extract_patches self input_img σ = (r, σ')
    ∧ agrees r σ' (extract_spec σ self input_img)
    ∧ heap σ ⊆ heap σ' ∧ disk σ' = disk σ
    ∧ (reads σ' = reads σ ∨ ∃ path, input_img = VStr path ∧ reads σ' = reads σ ++ [path])
    ∧ (∀ e, r = inl e → is_Exception e → σ' = σ)
    ∧ fresh_results σ r
    ∧ (σ' = σ ∨ resolved σ self input_img).
Proof.
  unfold extract_patches, extract_spec, points_of, attrs_of.
  destruct (deref σ self) as [[| |cls attrs]|] eqn:Hs;
    try (rewrite bind_run; unfold getattr at 1; rewrite Hs;
         eexists _, _; split; [reflexivity|]; simpl; repeat split; auto; done).
  destruct self as [| | | |lself]; try done. simpl in Hs.
  rewrite bind_run, (getattr_run _ _ _ _ _ Hs).
  destruct (attr attrs "input_points") as [?|v] eqn:Hv.
  { unfold attr in Hv. destruct (attrs !! "input_points"); [done|]. simplify_eq/=.
    eexists _, _; split; [reflexivity|]. simpl. repeat split; auto; done. }
  assert (Hv' : attrs !! "input_points"%string = Some v).
  { unfold attr in Hv. destruct (attrs !! "input_points"); by simplify_eq/=. }
  rewrite bind_run. unfold isinstance_ndarray at 1. cbn [mbind exn_bind].
  destruct (deref σ v) as [[points| |]|] eqn:Hp;
    try (eexists _, _; split; [reflexivity|]; simpl; repeat split; auto; done).
  destruct v as [| | | |lpts]; try done. simpl in Hp.
  rewrite bind_run. unfold mret at 1, M_ret at 1, ret at 1. rewrite bind_run.
  assert (Hres : (∃ cls attrs v a,
      deref σ (VRef lself) = Some (OInstance cls attrs)
      ∧ attrs !! "input_points"%string = Some v
      ∧ deref σ v = Some (ONdarray a))).
  { exists cls, attrs, (VRef lpts), points. done. }
  destruct (image_of σ input_img) as [e|img] eqn:Himg.
  - (* the image is not delivered *)
    destruct input_img as [| | path | |limg]; simpl in Himg;
      try (simplify_eq; eexists _, _; split; [reflexivity|]; simpl; repeat split; auto; done).
    + unfold imread. destruct (disk σ path); [done|]. simplify_eq.
      eexists _, _; split; [reflexivity|]. simpl. split_and!; try done.
      * right. eauto.
      * by intros e [= <-] [].
      * right. split; done.
    + rewrite bind_run. unfold isinstance_ndarray.
      change (deref σ (VRef limg)) with (heap σ !! limg).
      destruct (heap σ !! limg) as [[| |]|]; simplify_eq;
        eexists _, _; (split; [reflexivity|]); simpl; repeat split; auto; done.
  - (* the image is an array [img], at [limg] in [σ1] *)
    assert (∃ limg σ1,
      match input_img with
      | VStr path => imread path
      | _ => isinstance_ndarray input_img
               ≫= λ is_array : bool, if is_array then mret input_img else raise image_error
      end σ = (inr (VRef limg), σ1)
      ∧ heap σ1 !! limg = Some (ONdarray img)
      ∧ heap σ ⊆ heap σ1 ∧ disk σ1 = disk σ
      ∧ (reads σ1 = reads σ ∨ ∃ path, input_img = VStr path ∧ reads σ1 = reads σ ++ [path]))
      as (limg & σ1 & -> & Hi1 & Hsub & Hdisk & Hreads).
    { destruct input_img as [| | path | |limg]; simpl in Himg; try done.
      - unfold imread. destruct (disk σ path) as [a|]; [|done]. simplify_eq.
        rewrite alloc_run. eexists _, _; split; [reflexivity|]. simpl. split_and!; try done.
        + apply lookup_insert_eq.
        + apply alloc_subseteq.
        + right. eauto.
      - rewrite bind_run. unfold isinstance_ndarray.
        change (deref σ (VRef limg)) with (heap σ !! limg).
        destruct (heap σ !! limg) as [[a| |]|] eqn:Hl; simplify_eq.
        exists limg, σ. split_and!; auto. }
    destruct (extract_body_run σ1 lself cls attrs lpts points limg img)
      as (r & σ' & Hrun & Hag & Hsub' & Hdisk' & Hreads' & Hfr); try done.
    { eapply lookup_weaken; eauto. }
    { eapply lookup_weaken; eauto. }
    exists r, σ'. split_and!; try done.
    + by etrans.
    + congruence.
    + rewrite Hreads'. done.
    + intros e -> He. simpl in Hag.
      destruct (extract_fun attrs (inr points) (inr img)) eqn:E; [|done].
      subst. by apply extract_fun_quiet in E.
    + destruct r as [?|[[[] []] []]]; try done. simpl in *.
      destruct Hfr as (?&?&?&?&?&?). split_and!; try done; eapply lookup_weaken_None; eauto.
    + right. split; [done|].
      destruct input_img; simpl in Himg; try done; simplify_eq/=;
        repeat case_match; simplify_eq; eauto.
Qed.


Lemma for_rule {St X L} (I : nat → L → St → Prop) (xs : list X)
    (body : X → L → M St L) s σ :
  I 0%nat s σ →
  (∀ k x s σ s' σ',
     xs !! k = Some x → I k s σ → body x s σ = (inr s', σ') → I (S k) s' σ') →
  match for_ xs body s σ with
  | (inr s', σ') => I (length xs) s' σ'
  | (inl e, σ') =>
      ∃ k x sk σk, xs !! k = Some x ∧ I k sk σk ∧ body x sk σk = (inl e, σ')
  end.
Proof.
  revert I s σ. induction xs as [|x xs IH]; intros I s σ H0 Hstep; simpl; [done|].
  rewrite bind_run. destruct (body x s σ) as [[e|s1] σ1] eqn:E.
  - by exists 0%nat, x, s, σ.
  - specialize (IH (λ k, I (S k)) s1 σ1).
    destruct (for_ xs body s1 σ1) as [[e|s2] σ2].
    + destruct IH as (k & y & sk & σk & ? & ? & ?).
      * eapply (Hstep 0%nat); eauto.
      * intros k y ? ? ? ? ?. by apply (Hstep (S k)).
      * by exists (S k), y, sk, σk.
    + apply IH; [eapply (Hstep 0%nat); eauto|].
      intros k y ? ? ? ? ?. by apply (Hstep (S k)).
Qed.

Lemma lookup_range a b (k : nat) x :
  range a b !! k = Some x ↔ x = a + Z.of_nat k ∧ (k < Z.to_nat (b - a))%nat.
Proof.
  unfold range. rewrite list_lookup_fmap, fmap_Some. split.
  - intros (j & Hj & ->). apply lookup_seq in Hj as [-> ?]. done.
  - intros [-> ?]. exists k. split; [|done]. by apply lookup_seq.
Qed.

Lemma offset_bounds_square s : 0 < s → offset_bounds (s * s) = (- (s / 2), s + - (s / 2)).
Proof.
  intros Hs. unfold offset_bounds, np.isqrt.
  destruct (1 <? s * s) eqn:E.
  - by rewrite Z.sqrt_square by lia.
  - apply Z.ltb_ge in E. assert (s = 1) as -> by nia. reflexivity.
Qed.

Lemma index_inr n i j : 0 ≤ i → py.index n i = inr j → i < Z.of_nat n ∧ j = Z.to_nat i.
Proof.
  unfold py.index. intros Hi. destruct (i <? 0) eqn:E; [lia|].
  case_match; [|done]. intros [= <-]. lia.
Qed.

Lemma index_ok n i : 0 ≤ i < Z.of_nat n → py.index n i = inr (Z.to_nat i).
Proof.
  unfold py.index. intros Hi. destruct (i <? 0) eqn:E; [lia|].
  case_match; [done|lia].
Qed.

Lemma setitem_inr t i v a' :
  0 ≤ i → np.setitem t i v = inr a' →
  shape a' = shape t
  ∧ np.broadcastable (shape v) (tail (shape t)) = true
  ∧ (∀ rest, item a' (i :: rest) = item v (np.bcast_index (shape v) rest))
  ∧ (∀ k rest, k ≠ i → item a' (k :: rest) = item t (k :: rest)).
Proof.
  intros Hi. unfold np.setitem. destruct (shape t) as [|n sub] eqn:Ht; [done|].
  destruct (py.index n i) as [?|j] eqn:Hj; [done|].
  apply index_inr in Hj as [? ->]; [|done].
  destruct (np.broadcastable (shape v) sub) eqn:Hb; [|done].
  intros [= <-]. simpl. split_and!; try done.
  - intros rest. rewrite Z2Nat.id by done. by rewrite Z.eqb_refl.
  - intros k rest Hk. rewrite Z2Nat.id by done.
    destruct (k =? i) eqn:E; [apply Z.eqb_eq in E; done|done].
Qed.

Lemma setitem_ok t i v n sub :
  shape t = n :: sub → 0 ≤ i < Z.of_nat n → np.broadcastable (shape v) sub = true →
  ∃ a', np.setitem t i v = inr a'.
Proof.
  intros Ht Hi Hb. unfold np.setitem. rewrite Ht, index_ok, Hb by done. eauto.
Qed.

Lemma list_setitem_inr xs i c xs' :
  0 ≤ i → py.list_setitem xs i c = inr xs' →
  (Z.to_nat i < length xs)%nat ∧ xs' = <[Z.to_nat i := c]> xs.
Proof.
  intros Hi. unfold py.list_setitem. destruct (py.index _ _) as [?|j] eqn:Hj; [done|].
  apply index_inr in Hj as [? ->]; [|done]. intros [= <-]. split; [lia|done].
Qed.

Lemma list_setitem_ok xs i c :
  0 ≤ i < Z.of_nat (length xs) → py.list_setitem xs i c = inr (<[Z.to_nat i := c]> xs).
Proof. intros Hi. unfold py.list_setitem. by rewrite index_ok. Qed.

Lemma write_patch_fun_inr P ph pw ct cy cx ctot h w it o t' o' :
  0 ≤ it →
  write_patch_fun P ph pw ct [Scalar cy; Scalar cx] ctot h w it o = (inr t', o') →
  t' = it + 1
  ∧ (Z.to_nat it < length (out_labels o))%nat
  ∧ (Z.to_nat it < length (out_ids o))%nat
  ∧ out_labels o' = <[Z.to_nat it := Val ct]> (out_labels o)
  ∧ out_ids o' = <[Z.to_nat it := Val (Scalar ctot)]> (out_ids o)
  ∧ ∃ v, np.getslice2 P
           (Scalar (cy + - h + - py.int_half (ph - 1)))
           (Scalar (cy + - h + - py.int_half (ph - 1) + ph))
           (Scalar (cx + - w + - py.int_half (pw - 1)))
           (Scalar (cx + - w + - py.int_half (pw - 1) + pw)) = inr v
         ∧ np.setitem (out_patches o) it v = inr (out_patches o').
Proof.
  intros Hit. unfold write_patch_fun. cbn [lookup_total list_lookup_total np.add].
  rewrite bind_run. unfold set_label at 1.
  destruct (py.list_setitem (out_labels o) it (Val ct)) as [?|l'] eqn:Hl; [done|].
  apply list_setitem_inr in Hl as [? ->]; [|done].
  rewrite bind_run. unfold set_id at 1. cbn [out_ids out_labels out_patches].
  destruct (py.list_setitem (out_ids o) it _) as [?|c'] eqn:Hc; [done|].
  apply list_setitem_inr in Hc as [? ->]; [|done].
  rewrite bind_run. unfold lift at 1.
  destruct (np.getslice2 _ _ _ _ _) as [?|v] eqn:Hv; [done|].
  rewrite bind_run. unfold set_patch at 1. cbn [out_ids out_labels out_patches].
  destruct (np.setitem _ _ _) as [?|a'] eqn:Ha; [done|].
  intros [= <- <-]. cbn [out_ids out_labels out_patches]. split_and!; try done.
  exists v. done.
Qed.

Lemma write_patch_fun_ok P ph pw ct cy cx ctot h w it o v a' :
  0 ≤ it < Z.of_nat (length (out_labels o)) →
  it < Z.of_nat (length (out_ids o)) →
  np.getslice2 P
    (Scalar (cy + - h + - py.int_half (ph - 1)))
    (Scalar (cy + - h + - py.int_half (ph - 1) + ph))
    (Scalar (cx + - w + - py.int_half (pw - 1)))
    (Scalar (cx + - w + - py.int_half (pw - 1) + pw)) = inr v →
  np.setitem (out_patches o) it v = inr a' →
  ∃ o', write_patch_fun P ph pw ct [Scalar cy; Scalar cx] ctot h w it o = (inr (it + 1), o').
Proof.
  intros Hit Hit' Hv Ha. unfold write_patch_fun. cbn [lookup_total list_lookup_total np.add].
  rewrite bind_run. unfold set_label at 1. rewrite list_setitem_ok by done.
  rewrite bind_run. unfold set_id at 1. cbn [out_ids out_labels out_patches].
  rewrite list_setitem_ok by lia.
  rewrite bind_run. unfold lift at 1. rewrite Hv.
  rewrite bind_run. unfold set_patch at 1. cbn [out_ids out_labels out_patches].
  rewrite Ha. eauto.
Qed.

Lemma slice_indices_inside n start len :
  0 ≤ len → 0 ≤ start → start + len ≤ Z.of_nat n →
  py.slice_indices n start (start + len) = (start, Z.to_nat len).
Proof.
  intros ? ? ?. unfold py.slice_indices, py.slice_bound.
  destruct (start <? 0) eqn:E1; [lia|]. destruct (start + len <? 0) eqn:E2; [lia|].
  f_equal; [lia|]. f_equal. lia.
Qed.

Lemma getslice2_inside P (h w d : nat) sh sw ph pw :
  shape P = [h; w; d] → 0 ≤ ph → 0 ≤ pw →
  0 ≤ sh → sh + ph ≤ Z.of_nat h → 0 ≤ sw → sw + pw ≤ Z.of_nat w →
  ∃ v, np.getslice2 P (Scalar sh) (Scalar (sh + ph)) (Scalar sw) (Scalar (sw + pw)) = inr v
       ∧ shape v = [Z.to_nat ph; Z.to_nat pw; d]
       ∧ ∀ r c k, item v [r; c; k] = item P [sh + r; sw + c; k].
Proof.
  intros HP ? ? ? ? ? ?. unfold np.getslice2. rewrite HP.
  rewrite !slice_indices_inside by done. eexists. split; [reflexivity|]. done.
Qed.

Lemma broadcastable_refl l : np.broadcastable l l = true.
Proof.
  unfold np.broadcastable. rewrite Nat.eqb_refl. simpl.
  induction l as [|x l IH]; [done|]. simpl. by rewrite Nat.eqb_refl.
Qed.

Lemma bcast_index_inside (sh : list nat) (idx : list Z) :
  Forall2 (λ (n : nat) i, 0 ≤ i < Z.of_nat n) sh idx → np.bcast_index sh idx = idx.
Proof.
  unfold np.bcast_index. induction 1 as [|n i sh idx Hi _ IH]; [done|].
  simpl. rewrite IH. f_equal. destruct (n =? 1)%nat eqn:E; [|done].
  apply Nat.eqb_eq in E. lia.
Qed.


(** ** The loops, position by position *)

Section Grid.
Context (f : frame) (s : Z).
Hypothesis Hs : 0 < s.
Hypothesis Hn : f_n f = s * s.

Local Abbreviation pos p a b := (p * f_n f + a * s + b)%Z.
Local Abbreviation start := (- (s / 2)).
Local Abbreviation W p := (write_patch_fun (f_padded f) (f_patch_h f) (f_patch_w f)
  (Scalar (item (f_points f) [p%Z; 0]))
  [Scalar (item (f_points f) [p%Z; 2] + f_pad_y f + -1);
   Scalar (item (f_points f) [p%Z; 1] + f_pad_x f + -1)] (p + 1)).

Lemma pos_coords p a b :
  0 ≤ a < s → 0 ≤ b < s →
  pos p a b / f_n f = p ∧ offset_of f (pos p a b) = (start + a, start + b).
Proof.
  intros Ha Hb.
  assert (Hq : 0 ≤ a * s + b < s * s) by nia.
  assert (Hdiv : pos p a b / f_n f = p).
  { rewrite Hn. symmetry. apply (Z.div_unique _ _ _ (a * s + b)); lia. }
  assert (Hmod : pos p a b mod f_n f = a * s + b).
  { rewrite Hn. symmetry. apply (Z.mod_unique _ _ p); lia. }
  split; [done|]. unfold offset_of. rewrite Hmod, Hn, offset_bounds_square by done.
  replace (s + start - start) with s by lia.
  f_equal; f_equal.
  - symmetry. apply (Z.div_unique _ _ _ b); lia.
  - symmetry. apply (Z.mod_unique _ _ a); lia.
Qed.

Lemma slice_of_pos p a b :
  0 ≤ a < s → 0 ≤ b < s →
  slice_of f (pos p a b)
  = np.getslice2 (f_padded f)
      (Scalar (item (f_points f) [p; 2] + f_pad_y f + -1 + - (start + a)
               + - py.int_half (f_patch_h f - 1)))
      (Scalar (item (f_points f) [p; 2] + f_pad_y f + -1 + - (start + a)
               + - py.int_half (f_patch_h f - 1) + f_patch_h f))
      (Scalar (item (f_points f) [p; 1] + f_pad_x f + -1 + - (start + b)
               + - py.int_half (f_patch_w f - 1)))
      (Scalar (item (f_points f) [p; 1] + f_pad_x f + -1 + - (start + b)
               + - py.int_half (f_patch_w f - 1) + f_patch_w f)).
Proof.
  intros Ha Hb. unfold slice_of, window_of.
  destruct (pos_coords p a b Ha Hb) as [-> ->]. cbn [fst snd].
  repeat f_equal; lia.
Qed.

Lemma write_step p a b o t' o' :
  0 ≤ p → 0 ≤ a < s → 0 ≤ b < s →
  filled f (pos p a b) o →
  W p (start + a) (start + b) (pos p a b) o = (inr t', o') →
  t' = pos p a b + 1 ∧ filled f (pos p a b + 1) o'.
Proof.
  intros Hp Ha Hb (Hl & Hc & Hsh & Hw) Hrun.
  assert (Hi : 0 ≤ pos p a b) by nia.
  apply write_patch_fun_inr in Hrun
    as (-> & Hil & Hic & Hl' & Hc' & v & Hv & Hset); [|done].
  apply setitem_inr in Hset as (Hsh' & Hb' & Hnew & Hold); [|done].
  split; [done|]. split_and!.
  - by rewrite Hl', length_insert.
  - by rewrite Hc', length_insert.
  - congruence.
  - intros i Hi'. destruct (decide (i = pos p a b)) as [->|Hne].
    + unfold written. destruct (pos_coords p a b Ha Hb) as [Hdiv _]. rewrite Hdiv.
      rewrite Hl', Hc', !list_lookup_insert_eq by done. split_and!; try done.
      exists v. rewrite slice_of_pos by done. split_and!; try done.
      by rewrite <- Hsh.
    + destruct (Hw i) as (? & ? & v' & ? & ? & Hitem); [lia|].
      unfold written. rewrite Hl', Hc', !list_lookup_insert_ne by lia.
      split_and!; try done. exists v'. split_and!; try done.
      intros rest. rewrite Hold by done. apply Hitem.
Qed.

Lemma row_rule p a o :
  0 ≤ p → 0 ≤ a < s → filled f (pos p a 0) o →
  match for_ (range start (s + start)) (W p (start + a)) (pos p a 0) o with
  | (inr t, o') => t = pos p (a + 1) 0 ∧ filled f t o'
  | (inl e, o') =>
      ∃ b o1, 0 ≤ b < s ∧ filled f (pos p a b) o1
              ∧ W p (start + a) (start + b) (pos p a b) o1 = (inl e, o')
  end.
Proof.
  intros Hp Ha Hf.
  pose proof (for_rule (λ k t o, t = pos p a (Z.of_nat k) ∧ filled f t o)
    (range start (s + start)) (W p (start + a)) (pos p a 0) o) as H.
  assert (H0 : pos p a 0 = pos p a (Z.of_nat 0) ∧ filled f (pos p a 0) o).
  { split; [lia|done]. }
  specialize (H H0). clear H0.
  assert (Hstep : ∀ (k : nat) w t1 o1 t2 o2,
    range start (s + start) !! k = Some w →
    t1 = pos p a (Z.of_nat k) ∧ filled f t1 o1 →
    W p (start + a) w t1 o1 = (inr t2, o2) →
    t2 = pos p a (Z.of_nat (S k)) ∧ filled f t2 o2).
  { intros k w t1 o1 t2 o2 Hk [-> Hf1] Hrun.
    apply lookup_range in Hk as [-> Hk].
    apply write_step in Hrun as [-> ?]; [|lia..|done].
    split; [lia|done]. }
  specialize (H Hstep). clear Hstep.
  destruct (for_ _ _ _ _) as [[e|t1] o'].
  - destruct H as (k & w & t1 & o1 & Hk & [-> Hf1] & Hrun).
    apply lookup_range in Hk as [-> Hk]. exists (Z.of_nat k), o1. split_and!; try done; lia.
  - destruct H as [-> Hf1]. rewrite range_length in *.
    replace (pos p a (Z.of_nat (Z.to_nat (s + start - start)))) with (pos p (a + 1) 0) in * by lia.
    done.
Qed.

Lemma point_rule p o :
  0 ≤ p → filled f (pos p 0 0) o →
  match for_ (range start (s + start))
          (λ h, for_ (range start (s + start)) (W p h)) (pos p 0 0) o with
  | (inr t, o') => t = pos (p + 1) 0 0 ∧ filled f t o'
  | (inl e, o') =>
      ∃ a b o1, 0 ≤ a < s ∧ 0 ≤ b < s ∧ filled f (pos p a b) o1
                ∧ W p (start + a) (start + b) (pos p a b) o1 = (inl e, o')
  end.
Proof.
  intros Hp Hf.
  pose proof (for_rule (λ k t o, t = pos p (Z.of_nat k) 0 ∧ filled f t o)
    (range start (s + start))
    (λ h, for_ (range start (s + start)) (W p h)) (pos p 0 0) o) as H.
  assert (H0 : pos p 0 0 = pos p (Z.of_nat 0) 0 ∧ filled f (pos p 0 0) o).
  { split; [lia|done]. }
  specialize (H H0). clear H0.
  assert (Hstep : ∀ (k : nat) h t1 o1 t2 o2,
    range start (s + start) !! k = Some h →
    t1 = pos p (Z.of_nat k) 0 ∧ filled f t1 o1 →
    for_ (range start (s + start)) (W p h) t1 o1 = (inr t2, o2) →
    t2 = pos p (Z.of_nat (S k)) 0 ∧ filled f t2 o2).
  { intros k h t1 o1 t2 o2 Hk [-> Hf1] Hrun.
    apply lookup_range in Hk as [-> Hk].
    pose proof (row_rule p (Z.of_nat k) o1 Hp ltac:(lia) Hf1) as Hrow.
    rewrite Hrun in Hrow. destruct Hrow as [-> ?]. split; [lia|done]. }
  specialize (H Hstep). clear Hstep.
  destruct (for_ _ _ _ _) as [[e|t1] o'].
  - destruct H as (k & h & t1 & o1 & Hk & [-> Hf1] & Hrun).
    apply lookup_range in Hk as [-> Hk].
    pose proof (row_rule p (Z.of_nat k) o1 Hp ltac:(lia) Hf1) as Hrow.
    rewrite Hrun in Hrow. destruct Hrow as (b & o2 & ? & ? & ?).
    exists (Z.of_nat k), b, o2. split_and!; try done; lia.
  - destruct H as [-> Hf1]. rewrite range_length in *.
    replace (pos p (Z.of_nat (Z.to_nat (s + start - start))) 0) with (pos (p + 1) 0 0)
      in * by lia.
    done.
Qed.
End Grid.

Section Fill.
Context (f : frame) (N K : nat) (s : Z).
Hypothesis Hpts : shape (f_points f) = [N; K].
Hypothesis HK : (3 ≤ K)%nat.
Hypothesis Hlen : f_len f = Z.of_nat N.
Hypothesis Hs : 0 < s.
Hypothesis Hn : f_n f = s * s.

Local Abbreviation pos p a b := (p * f_n f + a * s + b)%Z.
Local Abbreviation start := (- (s / 2)).
Local Abbreviation W p := (write_patch_fun (f_padded f) (f_patch_h f) (f_patch_w f)
  (Scalar (item (f_points f) [p%Z; 0]))
  [Scalar (item (f_points f) [p%Z; 2] + f_pad_y f + -1);
   Scalar (item (f_points f) [p%Z; 1] + f_pad_x f + -1)] (p + 1)).

Lemma getitem_row p k :
  0 ≤ k < Z.of_nat K →
  np.getitem (np.row (f_points f) p) k = inr (Scalar (item (f_points f) [p; k])).
Proof.
  intros Hk. unfold np.getitem, np.row. cbn [shape item]. rewrite Hpts. cbn [tail].
  rewrite index_ok by lia. by rewrite Z2Nat.id by lia.
Qed.

Lemma extract_point_rule p o :
  0 ≤ p → filled f (pos p 0 0) o →
  match extract_point_fun (f_points f) (f_padded f) (f_pad_y f) (f_pad_x f) (f_n f)
          (f_patch_h f) (f_patch_w f) p (p + 1, pos p 0 0) o with
  | (inr st, o') => st = (p + 1 + 1, pos (p + 1) 0 0) ∧ filled f (pos (p + 1) 0 0) o'
  | (inl e, o') =>
      ∃ a b o1, 0 ≤ a < s ∧ 0 ≤ b < s ∧ filled f (pos p a b) o1
                ∧ W p (start + a) (start + b) (pos p a b) o1 = (inl e, o')
  end.
Proof.
  intros Hp Hf. unfold extract_point_fun.
  rewrite bind_run, (getitem_row p 0) by lia. unfold lift at 1.
  rewrite bind_run, (getitem_row p 2) by lia. unfold lift at 1.
  rewrite bind_run, (getitem_row p 1) by lia. unfold lift at 1.
  assert (Hob : offset_bounds (f_n f) = (start, s + start)).
  { rewrite Hn. by apply offset_bounds_square. }
  rewrite Hob.
  cbn [np.add fst snd]. rewrite bind_run.
  pose proof (point_rule f s Hs Hn p o Hp Hf) as H.
  destruct (for_ _ _ _ _) as [[e|t1] o']; [done|].
  by destruct H as [-> ?].
Qed.

Lemma filled_init : filled f 0 (init_outs f).
Proof.
  unfold filled, init_outs, blanks. cbn [out_labels out_ids out_patches].
  rewrite !length_replicate. split_and!; try done. intros i ?. lia.
Qed.

Lemma fill_rule :
  match fill f (init_outs f) with
  | (inr st, o) =>
      st = (f_len f + 1, f_len f * f_n f) ∧ filled f (f_len f * f_n f) o
  | (inl e, o') =>
      ∃ p a b o1, 0 ≤ p < f_len f ∧ 0 ≤ a < s ∧ 0 ≤ b < s
                  ∧ filled f (pos p a b) o1
                  ∧ W p (start + a) (start + b) (pos p a b) o1 = (inl e, o')
  end.
Proof.
  unfold fill.
  pose proof (for_rule
    (λ k st o, st = (Z.of_nat k + 1, pos (Z.of_nat k) 0 0) ∧ filled f (pos (Z.of_nat k) 0 0) o)
    (range 0 (f_len f))
    (extract_point_fun (f_points f) (f_padded f) (f_pad_y f) (f_pad_x f) (f_n f)
       (f_patch_h f) (f_patch_w f)) (1, 0) (init_outs f)) as H.
  assert (H0 : (1, 0) = (Z.of_nat 0 + 1, pos (Z.of_nat 0) 0 0)
               ∧ filled f (pos (Z.of_nat 0) 0 0) (init_outs f)).
  { split; [done|]. apply filled_init. }
  specialize (H H0). clear H0.
  assert (Hstep : ∀ (k : nat) p st1 o1 st2 o2,
    range 0 (f_len f) !! k = Some p →
    st1 = (Z.of_nat k + 1, pos (Z.of_nat k) 0 0) ∧ filled f (pos (Z.of_nat k) 0 0) o1 →
    extract_point_fun (f_points f) (f_padded f) (f_pad_y f) (f_pad_x f) (f_n f)
      (f_patch_h f) (f_patch_w f) p st1 o1 = (inr st2, o2) →
    st2 = (Z.of_nat (S k) + 1, pos (Z.of_nat (S k)) 0 0)
    ∧ filled f (pos (Z.of_nat (S k)) 0 0) o2).
  { intros k p st1 o1 st2 o2 Hk [-> Hf1] Hrun.
    apply lookup_range in Hk as [-> Hk]. rewrite Z.add_0_l in Hrun.
    pose proof (extract_point_rule (Z.of_nat k) o1 ltac:(lia) Hf1) as Hp.
    rewrite Hrun in Hp. destruct Hp as [-> Hf2].
    replace (Z.of_nat (S k)) with (Z.of_nat k + 1) by lia. done. }
  specialize (H Hstep). clear Hstep.
  destruct (for_ _ _ _ _) as [[e|st] o'].
  - destruct H as (k & p & st1 & o1 & Hk & [-> Hf1] & Hrun).
    apply lookup_range in Hk as [-> Hk]. rewrite Z.add_0_l in Hrun.
    pose proof (extract_point_rule (Z.of_nat k) o1 ltac:(lia) Hf1) as Hp.
    rewrite Hrun in Hp. destruct Hp as (a & b & o2 & ? & ? & ? & ?).
    exists (Z.of_nat k), a, b, o2. split_and!; try done; lia.
  - destruct H as [-> Hf1]. rewrite range_length in *.
    replace (Z.of_nat (Z.to_nat (f_len f - 0))) with (f_len f) in * by lia.
    replace (pos (f_len f) 0 0) with (f_len f * f_n f) in * by lia. done.
Qed.
End Fill.

(** When the frame comes out of [prepare]: the shapes of the padded image
    and of the patches agree. *)
Section Inside.
Context (f : frame) (sub : list nat) (h w d : nat).
Hypothesis Hpadded : shape (f_padded f) = [h; w; d].
Hypothesis Hsub : sub = [Z.to_nat (f_patch_h f); Z.to_nat (f_patch_w f); d].
Hypothesis Hph : 0 ≤ f_patch_h f.
Hypothesis Hpw : 0 ≤ f_patch_w f.

Lemma slice_of_inside i :
  window_inside f i = true →
  ∃ v, slice_of f i = inr v
       ∧ shape v = sub
       ∧ ∀ r c k, item v [r; c; k]
                  = item (f_padded f) [(window_of f i).1 + r; (window_of f i).2 + c; k].
Proof.
  unfold window_inside, slice_of. destruct (window_of f i) as [sh sw].
  rewrite Hpadded. intros Hin. rewrite !andb_true_iff, !Z.leb_le in Hin.
  destruct Hin as [[[? ?] ?] ?]. rewrite Hsub.
  eapply getslice2_inside; try done; lia.
Qed.

Lemma written_inside o i r c k :
  written f o i → window_inside f i = true →
  0 ≤ r < f_patch_h f → 0 ≤ c < f_patch_w f → 0 ≤ k < Z.of_nat d →
  item (out_patches o) [i; r; c; k]
  = item (f_padded f) [(window_of f i).1 + r; (window_of f i).2 + c; k].
Proof.
  intros (_ & _ & v & Hv & _ & Hitem) Hin Hr Hc Hk.
  destruct (slice_of_inside i Hin) as (v' & Hv' & Hsh & Hitem').
  assert (v' = v) as -> by congruence.
  rewrite Hitem, Hsh, Hsub, bcast_index_inside; [apply Hitem'|].
  repeat constructor; lia.
Qed.
End Inside.

Lemma windows_fit_inside f i :
  windows_fit f = true → 0 ≤ i < f_len f * f_n f → window_inside f i = true.
Proof.
  unfold windows_fit. rewrite forallb_forall. intros Hall Hi. apply Hall.
  apply list_elem_of_In, list_elem_of_lookup. exists (Z.to_nat i).
  apply lookup_range. lia.
Qed.

Lemma fill_ok f (N K : nat) s (h w d : nat) :
  shape (f_points f) = [N; K] → (3 ≤ K)%nat → f_len f = Z.of_nat N →
  0 < s → f_n f = s * s →
  shape (f_zeros f)
  = [Z.to_nat (f_len f * f_n f); Z.to_nat (f_patch_h f); Z.to_nat (f_patch_w f); d] →
  shape (f_padded f) = [h; w; d] →
  0 ≤ f_patch_h f → 0 ≤ f_patch_w f →
  windows_fit f = true →
  ∃ o, fill f (init_outs f) = (inr (f_len f + 1, f_len f * f_n f), o)
       ∧ filled f (f_len f * f_n f) o.
Proof.
  intros Hpts HK Hlen Hs Hn Hzeros Hpadded Hph Hpw Hfit.
  pose proof (fill_rule f N K s Hpts HK Hlen Hs Hn) as H.
  destruct (fill f (init_outs f)) as [[e|st] o].
  - exfalso. destruct H as (p & a & b & o1 & Hp & Ha & Hb & Hf1 & Hrun).
    assert (Hi : 0 ≤ p * f_n f + a * s + b < f_len f * f_n f) by nia.
    destruct (slice_of_inside f _ h w d Hpadded eq_refl Hph Hpw _
                (windows_fit_inside f _ Hfit Hi)) as (v & Hv & Hsh & _).
    rewrite (slice_of_pos f s Hs Hn) in Hv by done.
    destruct Hf1 as (Hl & Hc & Hshape & _).
    destruct (setitem_ok (out_patches o1) (p * f_n f + a * s + b) v
                (Z.to_nat (f_len f * f_n f))
                [Z.to_nat (f_patch_h f); Z.to_nat (f_patch_w f); d]) as [a' Ha'].
    { by rewrite Hshape. }
    { lia. }
    { rewrite Hsh. apply broadcastable_refl. }
    destruct (write_patch_fun_ok (f_padded f) (f_patch_h f) (f_patch_w f)
                (Scalar (item (f_points f) [p; 0]))
                (item (f_points f) [p; 2] + f_pad_y f + -1)
                (item (f_points f) [p; 1] + f_pad_x f + -1)
                (p + 1) (- (s / 2) + a) (- (s / 2) + b) (p * f_n f + a * s + b) o1 v a')
      as [o2 Ho2]; try done; try lia.
    congruence.
  - destruct H as [-> ?]. eauto.
Qed.

(** ** Valid calls and the examples *)

Lemma int_attr_lookup attrs name z :
  attrs !! name = Some (VInt z) → int_attr attrs name = inr z.
Proof. intros H. unfold int_attr, attr. by rewrite H. Qed.

Lemma attr_lookup attrs name v : attrs !! name = Some v → attr attrs name = inr v.
Proof. intros H. unfold attr. by rewrite H. Qed.

Section Valid.
Context (c : config) (points img : ndarray) (n_points h w d : nat) (side : Z).
Hypothesis Hpoints : shape points = [n_points; 3%nat].
Hypothesis Himg : shape img = [h; w; d].
Hypothesis Hh : (0 < h)%nat.
Hypothesis Hw : (0 < w)%nat.
Hypothesis Hph : 0 < cfg_patch_h c.
Hypothesis Hpw : 0 < cfg_patch_w c.
Hypothesis Hpy : 0 ≤ cfg_pad_y c.
Hypothesis Hpx : 0 ≤ cfg_pad_x c.
Hypothesis Hside : 0 < side.
Hypothesis Hn : cfg_n c = side * side.

Lemma pad_valid :
  np.pad_symmetric img (cfg_pad_y c) (cfg_pad_x c) = inr (padded_of c img)
  ∧ shape (padded_of c img)
    = [(h + 2 * Z.to_nat (cfg_pad_y c))%nat; (w + 2 * Z.to_nat (cfg_pad_x c))%nat; d].
Proof.
  unfold padded_of, np.pad_symmetric. rewrite Himg.
  destruct (cfg_pad_y c <? 0) eqn:E1; [lia|].
  destruct (cfg_pad_x c <? 0) eqn:E2; [lia|].
  destruct (h =? 0)%nat eqn:E3; [apply Nat.eqb_eq in E3; lia|].
  destruct (w =? 0)%nat eqn:E4; [apply Nat.eqb_eq in E4; lia|].
  done.
Qed.

Lemma zeros_valid :
  np.zeros [len_of points * cfg_n c; cfg_patch_h c; cfg_patch_w c;
            Z.of_nat (shape (padded_of c img) !!! 2%nat)]
  = inr (f_zeros (frame_of c points img))
  ∧ shape (f_zeros (frame_of c points img))
    = Z.to_nat (len_of points * cfg_n c)
        :: [Z.to_nat (cfg_patch_h c); Z.to_nat (cfg_patch_w c); d].
Proof.
  destruct pad_valid as [_ Hsh]. unfold frame_of. cbn [f_zeros]. rewrite Hsh.
  cbn [lookup_total list_lookup_total]. unfold np.zeros, len_of. rewrite Hpoints. cbn [hd forallb].
  assert (0 ≤ Z.of_nat n_points * cfg_n c) by nia.
  rewrite !(proj2 (Z.leb_le 0 _)) by lia.
  cbn [andb the_array shape fmap list_fmap]. by rewrite Nat2Z.id.
Qed.

Lemma prepare_valid attrs :
  has_config attrs c →
  prepare attrs (inr points) (inr img) = inr (frame_of c points img).
Proof.
  intros (Hah & Haw & Hay & Hax & Han). unfold prepare. cbn [mbind exn_bind].
  rewrite (attr_lookup _ _ _ Hah), (attr_lookup _ _ _ Haw),
    (attr_lookup _ _ _ Hay), (attr_lookup _ _ _ Hax). cbn [mbind exn_bind].
  rewrite (int_attr_lookup _ _ _ Hay), (int_attr_lookup _ _ _ Hax). cbn [mbind exn_bind].
  destruct pad_valid as [-> _]. cbn [mbind exn_bind].
  unfold np.len. rewrite Hpoints. cbn [mbind exn_bind].
  rewrite (int_attr_lookup _ _ _ Han), (int_attr_lookup _ _ _ Hah),
    (int_attr_lookup _ _ _ Haw). cbn [mbind exn_bind].
  destruct zeros_valid as [Hz _]. unfold len_of in Hz. rewrite Hpoints in Hz. cbn [hd] in Hz.
  rewrite Hz. cbn [mbind exn_bind]. cbv [frame_of len_of f_zeros]. rewrite Hpoints. reflexivity.
Qed.
End Valid.

Lemma valid_extract_spec σ self input_img c points img :
  valid_input σ self input_img c points img →
  extract_spec σ self input_img
  = match fill (frame_of c points img) (init_outs (frame_of c points img)) with
    | (inr _, o) => inr o
    | (inl e, _) => inl e
    end.
Proof.
  intros ((cls & attrs & v & Hs & Hc & Hv & Hp) & Hi & [n_points Hpts]
          & (h & w & d & Himg & ? & ?) & ? & ? & ? & ? & (side & ? & _ & ?)).
  unfold extract_spec, points_of, attrs_of. rewrite Hs, Hi. cbn [default].
  rewrite (attr_lookup _ _ _ Hv). cbn [mbind exn_bind]. rewrite Hp.
  unfold extract_fun. erewrite prepare_valid; eauto.
Qed.

Lemma valid_fill σ self input_img c points img :
  valid_input σ self input_img c points img →
  match fill (frame_of c points img) (init_outs (frame_of c points img)) with
  | (inr st, o) => filled (frame_of c points img) (len_of points * cfg_n c) o
  | (inl e, o) => windows_fit (frame_of c points img) = false
  end.
Proof.
  intros (_ & _ & [n_points Hpts] & (h & w & d & Himg & ? & ?)
          & ? & ? & ? & ? & (side & ? & _ & ?)).
  set (f := frame_of c points img).
  assert (Hlen : f_len f = Z.of_nat n_points).
  { unfold f, frame_of, len_of. cbn [f_len]. by rewrite Hpts. }
  destruct (zeros_valid c points img n_points h w d side) as [_ Hz]; try done.
  destruct (pad_valid c img h w d) as [_ Hpad]; try done.
  destruct (fill f (init_outs f)) as [[e|st] o] eqn:Hfill.
  - destruct (windows_fit f) eqn:Hfit; [|done].
    destruct (fill_ok f n_points 3 side _ _ d Hpts ltac:(lia) Hlen ltac:(done) ltac:(done)
                Hz Hpad) as (o' & Ho' & _); try done.
    + unfold f, frame_of. cbn [f_patch_h]. lia.
    + unfold f, frame_of. cbn [f_patch_w]. lia.
    + congruence.
  - pose proof (fill_rule f n_points 3 side Hpts ltac:(lia) Hlen ltac:(done) ltac:(done))
      as Hrule.
    rewrite Hfill in Hrule. by destruct Hrule as [_ ?].
Qed.

Lemma valid_result σ self input_img c points img p l k σ' :
  valid_input σ self input_img c points img →
  extract_patches self input_img σ = (inr (p, l, k), σ') →
  ∃ o, deref σ' p = Some (ONdarray (out_patches o))
       ∧ deref σ' l = Some (OList (out_labels o))
       ∧ deref σ' k = Some (OList (out_ids o))
       ∧ filled (frame_of c points img) (len_of points * cfg_n c) o.
Proof.
  intros Hvalid Hrun.
  destruct (extract_patches_run σ self input_img) as (r & σ1 & Hrun' & Hag & _).
  rewrite Hrun in Hrun'. simplify_eq.
  rewrite (valid_extract_spec _ _ _ _ _ _ Hvalid) in Hag.
  pose proof (valid_fill _ _ _ _ _ _ Hvalid) as Hfill.
  destruct (fill _ _) as [[e|st] o]; [done|].
  destruct Hag as (? & ? & ?). eauto.
Qed.

Lemma valid_returns σ self input_img c points img :
  valid_input σ self input_img c points img →
  windows_fit (frame_of c points img) = true →
  ∃ p l k σ', extract_patches self input_img σ = (inr (p, l, k), σ').
Proof.
  intros Hvalid Hfit.
  destruct (extract_patches_run σ self input_img) as (r & σ1 & Hrun & Hag & _).
  rewrite (valid_extract_spec _ _ _ _ _ _ Hvalid) in Hag.
  pose proof (valid_fill _ _ _ _ _ _ Hvalid) as Hfill.
  destruct (fill _ _) as [[e|st] o]; [congruence|].
  destruct r as [?|[[p l] k]]; [done|]. eauto.
Qed.

Lemma int_half_div x : 0 ≤ x → py.int_half x = x / 2.
Proof. intros. unfold py.int_half. apply Z.quot_div_nonneg; lia. Qed.

Lemma window_of_valid c points img side q a b :
  0 < side → cfg_n c = side * side → 0 < cfg_patch_h c → 0 < cfg_patch_w c →
  0 ≤ a < side → 0 ≤ b < side →
  let f := frame_of c points img in
  let i := q * cfg_n c + a * side + b in
  i / cfg_n c = q
  ∧ offset_of f i = (- (side / 2) + a, - (side / 2) + b)
  ∧ window_of f i
    = (item points [q; 2] + cfg_pad_y c - 1 - (- (side / 2) + a) - (cfg_patch_h c - 1) / 2,
       item points [q; 1] + cfg_pad_x c - 1 - (- (side / 2) + b) - (cfg_patch_w c - 1) / 2).
Proof.
  intros Hs Hn Hph Hpw Ha Hb f i.
  destruct (pos_coords f side Hs Hn q a b Ha Hb) as [Hdiv Hoff].
  change (f_n f) with (cfg_n c) in Hdiv, Hoff. fold i in Hdiv, Hoff.
  split; [done|]. split; [done|].
  unfold window_of. rewrite Hoff. change (f_n f) with (cfg_n c). rewrite Hdiv.
  cbn [f frame_of f_points f_pad_y f_pad_x f_patch_h f_patch_w fst snd].
  by rewrite !int_half_div by lia.
Qed.

Lemma sqrt_side c side : 0 < side → cfg_n c = side * side → Z.sqrt (cfg_n c) = side.
Proof. intros ? ->. apply Z.sqrt_square. lia. Qed.

Lemma odd_halves side : Z.odd side = true → side = 2 * (side / 2) + 1.
Proof.
  intros Hodd. rewrite (Z.div_mod side 2) at 1 by lia.
  rewrite Zmod_odd, Hodd. done.
Qed.

Lemma points_of_instance σ self cls attrs pts :
  deref σ self = Some (OInstance cls attrs) →
  attrs !! "input_points"%string = Some pts →
  points_of σ self
  = match deref σ pts with
    | Some (ONdarray a) => inr a
    | _ => inl points_error
    end.
Proof.
  intros Hs Hp. unfold points_of, attrs_of, attr. rewrite Hs, Hp. reflexivity.
Qed.

Lemma extract_spec_points_error σ self input_img cls attrs pts :
  deref σ self = Some (OInstance cls attrs) →
  attrs !! "input_points"%string = Some pts →
  ¬ is_ndarray σ pts →
  extract_spec σ self input_img = inl points_error.
Proof.
  intros Hs Hp Hn. unfold extract_spec.
  rewrite (points_of_instance _ _ _ _ _ Hs Hp).
  destruct (deref σ pts) as [[a| |]|] eqn:E; try done.
  destruct Hn. by exists a.
Qed.

Lemma lower_ascii_idemp c : py.lower_ascii (py.lower_ascii c) = py.lower_ascii c.
Proof. destruct c as [[] [] [] [] [] [] [] []]; reflexivity. Qed.

Lemma lower_idemp s : py.lower (py.lower s) = py.lower s.
Proof. induction s as [|c s IH]; simpl; [done|]. by rewrite lower_ascii_idemp, IH. Qed.

(** [super(PatchExtractor, self).__init__] never reaches
    [PatchExtractor.__init__]: with keyword arguments it is a
    [TypeError], whatever the class of [self]. *)
Lemma super_init_raises cls self kwargs σ :
  kwargs ≠ [] →
  super_PatchExtractor_init cls self kwargs σ = (inl TypeError, σ).
Proof.
  intros Hk. unfold super_PatchExtractor_init.
  destruct (after C_PatchExtractor (mro cls) ≫= List.find defines_init) as [[]|];
    try done.
  by destruct kwargs.
Qed.

Lemma FixedWindowPatchExtractor_raises h w sh sw σ :
  ∃ e σ', FixedWindowPatchExtractor h w sh sw σ = (inl e, σ').
Proof.
  unfold FixedWindowPatchExtractor, new. rewrite bind_run, alloc_run.
  unfold FixedWindowPatchExtractor_init. rewrite !bind_run.
  rewrite (super_init_raises C_FixedWindowPatchExtractor) by done.
  by eexists _, _.
Qed.

Lemma VariableWindowPatchExtractor_raises h w sh sw lh lw σ :
  ∃ e σ', VariableWindowPatchExtractor h w sh sw lh lw σ = (inl e, σ').
Proof.
  unfold VariableWindowPatchExtractor, new. rewrite bind_run, alloc_run.
  unfold VariableWindowPatchExtractor_init. rewrite !bind_run.
  rewrite (super_init_raises C_VariableWindowPatchExtractor) by done.
  by eexists _, _.
Qed.

Lemma example_valid c rows (h w d : nat) side :
  (0 < h)%nat → (0 < w)%nat →
  0 < cfg_patch_h c → 0 < cfg_patch_w c → 0 ≤ cfg_pad_y c → 0 ≤ cfg_pad_x c →
  0 < side → Z.odd side = true → cfg_n c = side * side →
  valid_input (example_store c rows (example_image h w d)) (VRef 0%nat) (VRef 2%nat) c
    (example_points rows) (example_image h w d).
Proof.
  intros. split_and!; try done.
  - exists C_PointsPatchExtractor, (example_attrs c (VRef 1%nat)), (VRef 1%nat).
    split_and!; try reflexivity. unfold has_config. split_and!; reflexivity.
  - by exists (length rows).
  - by exists h, w, d.
  - by exists side.
Qed.

Lemma example_valid_input :
  valid_input (example_store example_config example_rows (example_image 3 3 1))
    (VRef 0%nat) (VRef 2%nat) example_config (example_points example_rows) (example_image 3 3 1).
Proof.
  apply (example_valid example_config example_rows 3 3 1 3);
    solve [lia | cbn; lia | reflexivity].
Qed.

Lemma example_run_eq :
  example_run = (inr (VRef 4%nat, VRef 5%nat, VRef 6%nat), example_run.2).
Proof.
  rewrite (surjective_pairing example_run) at 1. f_equal.
Qed.

(** ** Rounding to binary64 *)

Lemma rne_div_lower n d M : 0 < d → M * d ≤ n → M ≤ fl.rne_div n d.
Proof.
  intros Hd HM. unfold fl.rne_div.
  assert (M ≤ n / d) by (apply Z.div_le_lower_bound; lia).
  repeat case_match; lia.
Qed.

Lemma rne_div_upper n d M : 0 < d → n ≤ M * d → fl.rne_div n d ≤ M.
Proof.
  intros Hd HM. unfold fl.rne_div.
  pose proof (Z.div_mod n d ltac:(lia)) as Hdm.
  pose proof (Z.mod_pos_bound n d Hd) as Hr.
  assert (n / d ≤ M) by (apply Z.div_le_upper_bound; lia).
  destruct (2 * (n mod d) <? d) eqn:E1; [done|]. apply Z.ltb_ge in E1.
  assert (n / d < M); [|repeat case_match; lia].
  destruct (decide (n / d = M)) as [E|]; [|lia]. rewrite E in Hdm. lia.
Qed.

Lemma rne_div_near n d : 0 < d → 2 * Z.abs (fl.rne_div n d * d - n) ≤ d.
Proof.
  intros Hd. unfold fl.rne_div.
  pose proof (Z.div_mod n d ltac:(lia)) as Hdm.
  pose proof (Z.mod_pos_bound n d Hd) as Hr.
  destruct (2 * (n mod d) <? d) eqn:E1.
  { apply Z.ltb_lt in E1. lia. }
  apply Z.ltb_ge in E1. destruct (d <? 2 * (n mod d)) eqn:E2.
  { apply Z.ltb_lt in E2. lia. }
  apply Z.ltb_ge in E2. destruct (Z.even (n / d)); lia.
Qed.

Lemma ilog2_le_log2 a d : 0 < a → 0 < d → fl.ilog2 a d ≤ Z.log2 a.
Proof.
  intros Ha Hd. unfold fl.ilog2. pose proof (Z.log2_nonneg d).
  repeat case_match; lia.
Qed.

Lemma ilog2_lower a d :
  0 < a → 0 < d → fl.ilog2 a d ≤ 52 → d * 2 ^ 52 ≤ a * 2 ^ (52 - fl.ilog2 a d).
Proof.
  intros Ha Hd. unfold fl.ilog2.
  destruct (Z.log2_spec a Ha) as [Ha1 Ha2]. destruct (Z.log2_spec d Hd) as [Hd1 Hd2].
  pose proof (Z.log2_nonneg a). pose proof (Z.log2_nonneg d).
  set (la := Z.log2 a) in *. set (ld := Z.log2 d) in *.
  destruct (if 0 <=? la - ld then d * 2 ^ (la - ld) <=? a else d <=? a * 2 ^ (- (la - ld)))
    eqn:E.
  - intros Hil. destruct (0 <=? la - ld) eqn:El.
    + apply Z.leb_le in El, E.
      replace (2 ^ 52) with (2 ^ (la - ld) * 2 ^ (52 - (la - ld)))
        by (rewrite <- Z.pow_add_r by lia; f_equal; lia).
      assert (0 < 2 ^ (52 - (la - ld))) by (apply Z.pow_pos_nonneg; lia). nia.
    + apply Z.leb_gt in El. apply Z.leb_le in E.
      replace (2 ^ (52 - (la - ld))) with (2 ^ (- (la - ld)) * 2 ^ 52)
        by (rewrite <- Z.pow_add_r by lia; f_equal; lia).
      nia.
  - intros Hil.
    assert (Hp : 2 ^ (ld + 1) * 2 ^ 52 = 2 ^ la * 2 ^ (52 - (la - ld - 1))).
    { rewrite <- !Z.pow_add_r by lia. f_equal. lia. }
    assert (0 < 2 ^ (52 - (la - ld - 1))) by (apply Z.pow_pos_nonneg; lia).
    nia.
Qed.

(** The quotient of two integers below [2 ^ 53], rounded to a float, is
    finite and has the ceiling of the exact quotient. *)
Lemma ceil_round N D :
  0 < D < 2 ^ 53 → Z.abs N < 2 ^ 53 →
  ∃ m e, fl.round N D = Fin m e ∧ num.ceil (Fin m e) = inr (- ((- N) / D)).
Proof.
  intros HD HN. unfold fl.round. destruct (N =? 0) eqn:E0.
  { apply Z.eqb_eq in E0. subst N. exists 0, 0. split; [done|]. simpl. by rewrite Z.div_0_l by lia. }
  apply Z.eqb_neq in E0. cbv zeta.
  set (a := Z.abs N). assert (Ha : 0 < a < 2 ^ 53) by (unfold a; lia).
  set (il := fl.ilog2 a D).
  assert (Hil : il ≤ 52).
  { pose proof (ilog2_le_log2 a D ltac:(lia) ltac:(lia)).
    assert (Z.log2 a < 53) by (apply Z.log2_lt_pow2; lia). unfold il. lia. }
  set (e := Z.max (il - 52) (-1074)). assert (He : -1074 ≤ e ≤ 0) by (unfold e; lia).
  set (m := if 0 <=? e then fl.rne_div a (D * 2 ^ e) else fl.rne_div (a * 2 ^ (- e)) D).
  set (P := 2 ^ (- e)). assert (HP : 0 < P) by (apply Z.pow_pos_nonneg; lia).
  assert (Hm : m = fl.rne_div (a * P) D).
  { unfold m, P. destruct (0 <=? e) eqn:E; [|done]. apply Z.leb_le in E.
    replace e with 0 by lia. simpl. by rewrite !Z.mul_1_r. }
  assert (HF : D * 2 ^ 52 ≤ a * P).
  { unfold P. destruct (decide (e = il - 52)) as [->|Hne].
    - replace (- (il - 52)) with (52 - il) by lia. apply ilog2_lower; lia.
    - replace e with (-1074) by (unfold e in *; lia).
      assert (2 ^ 105 ≤ 2 ^ (- -1074)) by (apply Z.pow_le_mono_r; lia).
      assert (D * 2 ^ 52 < 2 ^ 53 * 2 ^ 52) by (apply Z.mul_lt_mono_pos_r; lia).
      change (2 ^ 53 * 2 ^ 52) with (2 ^ 105) in *. nia. }
  assert (HDP : D < 2 * P).
  { assert (a * P < 2 ^ 53 * P) by (apply Z.mul_lt_mono_pos_r; lia).
    change (2 ^ 53) with (2 * 2 ^ 52) in *. nia. }
  pose proof (rne_div_near (a * P) D ltac:(lia)) as Hnear. rewrite <- Hm in Hnear.
  assert (Hfin : (0 <=? e) && (2 ^ 1024 <=? m * 2 ^ e) = false).
  { destruct (0 <=? e) eqn:E; [|done]. apply Z.leb_le in E. assert (e = 0) as Hz by lia.
    simpl. apply Z.leb_gt. rewrite Hz. simpl. rewrite Z.mul_1_r.
    assert (m ≤ a).
    { rewrite Hm. apply rne_div_upper; [lia|]. unfold P. rewrite Hz. simpl. nia. }
    assert (2 ^ 53 < 2 ^ 1024) by (apply Z.pow_lt_mono_r; lia). lia. }
  rewrite Hfin. exists (Z.sgn N * m), e. split; [done|].
  unfold num.ceil. f_equal.
  assert (Hceil : (if 0 <=? e then Z.sgn N * m * 2 ^ e else - (- (Z.sgn N * m) / 2 ^ (- e)))
                  = - (- (Z.sgn N * m) / P)).
  { unfold P. destruct (0 <=? e) eqn:E; [|done]. apply Z.leb_le in E.
    replace e with 0 by lia. simpl. rewrite Z.div_1_r. lia. }
  rewrite Hceil. f_equal.
  destruct (Z.lt_total N 0) as [Hneg|[?|Hpos]]; [|done|].
  - (* N < 0 *)
    rewrite Z.sgn_neg by done. replace (- (-1 * m)) with m by lia.
    replace (- N) with a by (unfold a; lia).
    set (g := a / D). pose proof (Z.div_mod a D ltac:(lia)) as Hdm.
    pose proof (Z.mod_pos_bound a D ltac:(lia)) as Hr. fold g in Hdm.
    assert (Hlo : g * P ≤ m) by (rewrite Hm; apply rne_div_lower; [lia|nia]).
    assert (Hup : m ≤ (g + 1) * P) by (rewrite Hm; apply rne_div_upper; [lia|nia]).
    assert (Hlt : m < (g + 1) * P).
    { destruct (decide (m = (g + 1) * P)) as [Heq|]; [|lia]. exfalso.
      assert (P ≤ (g + 1) * P * D - a * P) by nia. rewrite Heq in Hnear. lia. }
    symmetry. apply (Z.div_unique m P g (m - P * g)); lia.
  - (* 0 < N *)
    rewrite Z.sgn_pos by done. replace (1 * m) with m by lia.
    replace N with a in * by (unfold a; lia).
    set (c := - (- a / D)). pose proof (Z.div_mod (- a) D ltac:(lia)) as Hdm.
    pose proof (Z.mod_pos_bound (- a) D ltac:(lia)) as Hr.
    replace (- a / D) with (- c) in * by (unfold c; lia).
    assert (Hup : m ≤ c * P) by (rewrite Hm; apply rne_div_upper; [lia|nia]).
    assert (Hlo : (c - 1) * P ≤ m) by (rewrite Hm; apply rne_div_lower; [lia|nia]).
    assert (Hlt : (c - 1) * P < m).
    { destruct (decide (m = (c - 1) * P)) as [Heq|]; [|lia]. exfalso.
      assert (P ≤ a * P - (c - 1) * P * D) by nia. rewrite Heq in Hnear. lia. }
    symmetry. apply (Z.div_unique (- m) P (- c) (c * P - m)); lia.
Qed.

(** ** get_last_steps on integers *)

Lemma zceil_bounds d s :
  s ≠ 0 →
  let c := - ((- d) / s) in
  (0 < s → (c - 1) * s < d ≤ c * s) ∧ (s < 0 → c * s ≤ d < (c - 1) * s).
Proof.
  intros Hs c. pose proof (Z.div_mod (- d) s Hs) as Hdm.
  replace (- d / s) with (- c) in Hdm by (unfold c; lia). split; intros Hsgn.
  - pose proof (Z.mod_pos_bound (- d) s Hsgn). lia.
  - pose proof (Z.mod_neg_bound (- d) s Hsgn). lia.
Qed.

Lemma ceiling_int_bounds (d s : Z) :
  s ≠ 0 →
  let k := Qceiling (inject_Z d / inject_Z s) in
  (0 < s → (k - 1) * s < d ≤ k * s) ∧ (s < 0 → k * s ≤ d < (k - 1) * s).
Proof.
  intros Hs k.
  pose proof (Qle_ceiling (inject_Z d / inject_Z s)) as Hle.
  pose proof (Qceiling_lt (inject_Z d / inject_Z s)) as Hlt.
  fold k in Hle, Hlt.
  assert (Hne : ¬ (inject_Z s == 0)%Q).
  { unfold Qeq. simpl. lia. }
  assert (Hd : (inject_Z d == inject_Z d / inject_Z s * inject_Z s)%Q).
  { field. done. }
  split; intros Hsgn.
  - assert (Hpos : (inject_Z 0 < inject_Z s)%Q) by (rewrite <- Zlt_Qlt; lia).
    split.
    + apply (Qmult_lt_compat_r _ _ (inject_Z s)) in Hlt; [|done].
      rewrite <- Hd, <- inject_Z_mult, <- Zlt_Qlt in Hlt. lia.
    + apply (Qmult_le_compat_r _ _ (inject_Z s)) in Hle; [|by apply Qlt_le_weak].
      rewrite <- Hd, <- inject_Z_mult, <- Zle_Qle in Hle. lia.
  - assert (Hpos : (inject_Z 0 < inject_Z (- s))%Q) by (rewrite <- Zlt_Qlt; lia).
    assert (Hd' : (inject_Z (- d) == inject_Z d / inject_Z s * inject_Z (- s))%Q).
    { rewrite !inject_Z_opp. rewrite Hd at 1. ring. }
    split.
    + apply (Qmult_le_compat_r _ _ (inject_Z (- s))) in Hle; [|by apply Qlt_le_weak].
      rewrite <- Hd', <- inject_Z_mult, <- Zle_Qle in Hle. lia.
    + apply (Qmult_lt_compat_r _ _ (inject_Z (- s))) in Hlt; [|done].
      rewrite <- Hd', <- inject_Z_mult, <- Zlt_Qlt in Hlt. lia.
Qed.

(** The ceiling of the specification, on integers. *)
Lemma Qceiling_ints d s :
  s ≠ 0 → Qceiling ((inject_Z d) / inject_Z s) = - ((- d) / s).
Proof.
  intros Hs. destruct (ceiling_int_bounds d s Hs) as [Hk1 Hk2].
  destruct (zceil_bounds d s Hs) as [Hc1 Hc2].
  set (k := Qceiling (inject_Z d / inject_Z s)) in *. set (c := - (- d / s)) in *.
  destruct (Z.lt_total s 0) as [Hneg|[?|Hpos]]; [|done|].
  - specialize (Hk2 Hneg). specialize (Hc2 Hneg).
    assert (k - 1 < c) by (apply (Z.mul_lt_mono_neg_r s); lia).
    assert (c - 1 < k) by (apply (Z.mul_lt_mono_neg_r s); lia). lia.
  - specialize (Hk1 Hpos). specialize (Hc1 Hpos).
    assert (k - 1 < c) by (apply (Z.mul_lt_mono_pos_r s); lia).
    assert (c - 1 < k) by (apply (Z.mul_lt_mono_pos_r s); lia). lia.
Qed.

Lemma truncate_ints x y : truncate (inject_Z x * inject_Z y) = x * y.
Proof.
  unfold truncate. destruct (Qle_bool 0 (inject_Z x * inject_Z y)).
  - unfold Qfloor, Qmult, inject_Z. cbn [Qnum Qden Pos.mul]. apply Z.div_1_r.
  - unfold Qceiling, Qfloor, Qopp, Qmult, inject_Z. cbn [Qnum Qden Pos.mul].
    rewrite Z.div_1_r. lia.
Qed.

Lemma last_step_spec_ints a b s :
  s ≠ 0 →
  last_step_spec (inject_Z a) (inject_Z b) (inject_Z s) = (- ((- (a - b)) / s) + 1) * s.
Proof.
  intros Hs. unfold last_step_spec. rewrite truncate_ints. f_equal. f_equal.
  rewrite <- Qceiling_ints by done. apply Qceiling_comp.
  unfold Qminus. by rewrite <- inject_Z_opp, <- inject_Z_plus.
Qed.

(** What the code computes on integers below [2 ^ 53]. *)
Lemma get_last_steps_ints a b s :
  s ≠ 0 → Z.abs (a - b) < 2 ^ 53 → Z.abs s < 2 ^ 53 →
  get_last_steps (PyInt a) (PyInt b) (PyInt s) = inr ((- ((- (a - b)) / s) + 1) * s).
Proof.
  intros Hs Hd Hs'. unfold get_last_steps. cbn [num.sub num.truediv].
  destruct (s =? 0) eqn:E; [apply Z.eqb_eq in E; done|].
  destruct (ceil_round ((a - b) * Z.sgn s) (Z.abs s)) as (m & e & Hr & Hc); [lia|..].
  { destruct (Z.sgn_spec s) as [[? ->]|[[? ->]|[? ->]]]; lia. }
  rewrite Hr, Hc. cbn [num.mul num.int]. do 3 f_equal.
  destruct (Z.lt_total s 0) as [Hneg|[?|Hpos]]; [|done|].
  - rewrite Z.sgn_neg, Z.abs_neq by lia.
    replace (- ((a - b) * -1)) with (a - b) by lia.
    rewrite <- (Z.div_opp_opp (a - b) (- s)) by lia. by rewrite Z.opp_involutive.
  - rewrite Z.sgn_pos, Z.abs_eq by lia. by rewrite Z.mul_1_r.
Qed.

(** * The claims of the specification *)

(** C1, counterexample.  A valid input in the sense of the claim (an image
    array, an array of points, one example per point) on which the call
    raises instead of returning: a 3 x 3 patch around the point (1, 1) of
    an unpadded 3 x 3 image starts at row and column -1, the slice
    [image[-1:2, -1:2]] is empty, and storing it into the 3 x 3 patch is a
    [ValueError]. *)
Lemma C1_counterexample :
  valid_input (example_store corner_config corner_rows (example_image 3 3 1))
    (VRef 0%nat) (VRef 2%nat) corner_config (example_points corner_rows) (example_image 3 3 1)
  ∧ (extract_patches (VRef 0%nat) (VRef 2%nat)
       (example_store corner_config corner_rows (example_image 3 3 1))).1
    = inl ValueError.
Proof.
  split.
  - apply (example_valid corner_config corner_rows 3 3 1 1); solve [lia | cbn; lia | reflexivity].
  - vm_compute. reflexivity.
Qed.

(** C1, amended.  For every valid input whose sampling windows all lie
    inside the padded image, [extract_patches] returns a triple
    (patches, labels, ids); and whenever it returns a triple, the number
    of patches is [len(points) * num_examples_per_patch] and
    [len(labels) == len(ids) == len(patches)]. *)
Theorem C1_patch_count σ self input_img c points img :
  valid_input σ self input_img c points img →
  (windows_fit (frame_of c points img) = true →
   ∃ p l k σ', extract_patches self input_img σ = (inr (p, l, k), σ'))
  ∧ (∀ p l k σ',
       extract_patches self input_img σ = (inr (p, l, k), σ') →
       ∃ patches labels ids,
         deref σ' p = Some (ONdarray patches)
         ∧ deref σ' l = Some (OList labels)
         ∧ deref σ' k = Some (OList ids)
         ∧ np.len patches = inr (len_of points * cfg_n c)
         ∧ Z.of_nat (length labels) = len_of points * cfg_n c
         ∧ length ids = length labels).
Proof.
  intros Hvalid. split; [by apply valid_returns|].
  intros p l k σ' Hrun.
  destruct (valid_result _ _ _ _ _ _ _ _ _ _ Hvalid Hrun)
    as (o & Hp & Hl & Hk & (Hll & Hlk & Hsh & _)).
  exists (out_patches o), (out_labels o), (out_ids o). split_and!; try done.
  - destruct Hvalid as (_ & _ & [n_points Hpts] & (h & w & d & Himg & ? & ?)
                        & ? & ? & ? & ? & (side & ? & _ & ?)).
    destruct (zeros_valid c points img n_points h w d side) as [_ Hz]; try done.
    unfold np.len. rewrite Hsh, Hz. f_equal.
    unfold len_of. rewrite Hpts. cbn [hd]. nia.
  - rewrite Hll. cbn [frame_of f_len f_n].
    destruct Hvalid as (_ & _ & _ & _ & _ & _ & _ & _ & (side & ? & _ & ?)).
    unfold len_of. nia.
  - cbn [frame_of f_len f_n] in *. congruence.
Qed.

(** C1, witness: two points with nine examples each on a 3 x 3 image
    padded by 3. *)
Lemma C1_patch_count_witness :
  valid_input (example_store example_config example_rows (example_image 3 3 1))
    (VRef 0%nat) (VRef 2%nat) example_config (example_points example_rows) (example_image 3 3 1)
  ∧ windows_fit (frame_of example_config (example_points example_rows) (example_image 3 3 1)) = true
  ∧ ∃ p l k σ',
      extract_patches (VRef 0%nat) (VRef 2%nat)
        (example_store example_config example_rows (example_image 3 3 1))
      = (inr (p, l, k), σ').
Proof.
  assert (Hv : valid_input (example_store example_config example_rows (example_image 3 3 1))
    (VRef 0%nat) (VRef 2%nat) example_config (example_points example_rows) (example_image 3 3 1)).
  { apply (example_valid example_config example_rows 3 3 1 3);
      solve [lia | cbn; lia | reflexivity]. }
  split; [exact Hv|]. split; [vm_compute; reflexivity|].
  apply (C1_patch_count _ _ _ _ _ _ Hv). vm_compute. reflexivity.
Defined.

(** C2, counterexample.  The code divides in floating point.  With
    [image_dim = 2 ^ 53 + 1], no patch and stride 1 the quotient rounds
    to [2 ^ 53] and the result is [2 ^ 53 + 1], not the
    [2 ^ 53 + 2] of the formula; on the floats 5.4 and 0.3 the code
    returns 6, the formula on the same two values 5.  And numeric
    input can raise: an integer too large for a float is an
    [OverflowError], a not-a-number a [ValueError]. *)
Lemma C2_counterexample :
  get_last_steps (PyInt (2 ^ 53 + 1)) (PyInt 0) (PyInt 1) = inr (2 ^ 53 + 1)
  ∧ last_step_spec (inject_Z (2 ^ 53 + 1)) 0 1 = 2 ^ 53 + 2
  ∧ get_last_steps (PyFloat (Fin 6079859496950170 (-50))) (PyInt 0)
      (PyFloat (Fin 5404319552844595 (-54))) = inr 6
  ∧ last_step_spec (6079859496950170 # 1125899906842624) 0
      (5404319552844595 # 18014398509481984) = 5
  ∧ get_last_steps (PyInt (10 ^ 400)) (PyInt 0) (PyInt 1) = inl OverflowError
  ∧ get_last_steps (PyFloat NaN) (PyInt 0) (PyInt 1) = inl ValueError.
Proof. split_and!; vm_compute; reflexivity. Qed.

(** C2, amended.  For integers with [0 < stride < 2 ^ 53] and
    [|image_dim - patch_dim| < 2 ^ 53], [get_last_steps] raises nothing
    and returns [(ceil((image_dim - patch_dim) / stride) + 1) * stride],
    which is negative when the patch is larger than the image by more
    than a stride. *)
Theorem C2_get_last_steps (image_dim patch_dim stride : Z) :
  0 < stride < 2 ^ 53 →
  Z.abs (image_dim - patch_dim) < 2 ^ 53 →
  get_last_steps (PyInt image_dim) (PyInt patch_dim) (PyInt stride)
  = inr (last_step_spec (inject_Z image_dim) (inject_Z patch_dim) (inject_Z stride)).
Proof.
  intros Hs Hd. rewrite last_step_spec_ints by lia.
  apply get_last_steps_ints; lia.
Qed.

(** C2, witness: [get_last_steps(10, 4, 2)] is 8, and a patch larger than
    the image gives a negative result, [get_last_steps(4, 10, 2) = -4]. *)
Lemma C2_get_last_steps_witness :
  0 < 2 < 2 ^ 53 ∧ Z.abs (10 - 4) < 2 ^ 53
  ∧ get_last_steps (PyInt 10) (PyInt 4) (PyInt 2) = inr 8
  ∧ get_last_steps (PyInt 4) (PyInt 10) (PyInt 2) = inr (-4).
Proof.
  split; [done|]. split; [done|]. split.
  - rewrite (C2_get_last_steps 10 4 2) by done. reflexivity.
  - rewrite (C2_get_last_steps 4 10 2) by done. reflexivity.
Defined.

(** C3, counterexample.  A valid call whose result holds a patch that is
    no window at the corner of the claim.  For the point [(7, 2, 3)] of a
    3 x 3 image padded by 1, with 2 x 2 patches and nine examples, the
    patch at position 1 belongs to the offsets [(h, w) = (-1, 0)] and
    its corner is [(4, 2)]: rows 4 and 5 of a padded image that has the
    rows 0 to 4.  The slice taken there has one row, the last of the
    padded image, and the patch holds that row twice. *)
Lemma C3_counterexample :
  valid_input (example_store edge_config edge_rows (example_image 3 3 1))
    (VRef 0%nat) (VRef 2%nat) edge_config (example_points edge_rows) (example_image 3 3 1)
  ∧ shape (padded_of edge_config (example_image 3 3 1)) = [5%nat; 5%nat; 1%nat]
  ∧ grid_offset (cfg_n edge_config) 1 = (-1, 0)
  ∧ grid_window (frame_of edge_config (example_points edge_rows) (example_image 3 3 1)) 1
    = (4, 2)
  ∧ (∃ v, grid_slice (frame_of edge_config (example_points edge_rows) (example_image 3 3 1)) 1
          = inr v
          ∧ shape v = [1%nat; 2%nat; 1%nat])
  ∧ ∃ σ' patches,
      extract_patches (VRef 0%nat) (VRef 2%nat)
        (example_store edge_config edge_rows (example_image 3 3 1))
      = (inr (VRef 4%nat, VRef 5%nat, VRef 6%nat), σ')
      ∧ deref σ' (VRef 4%nat) = Some (ONdarray patches)
      ∧ shape patches = [9%nat; 2%nat; 2%nat; 1%nat]
      ∧ (∀ r col, 0 ≤ r < 2 → 0 ≤ col < 2 →
           item patches [1; r; col; 0]
           = item (padded_of edge_config (example_image 3 3 1)) [4; 2 + col; 0])
      ∧ item patches [1; 0; 0; 0] = 210 ∧ item patches [1; 0; 1; 0] = 220
      ∧ item patches [1; 1; 0; 0] = 210 ∧ item patches [1; 1; 1; 0] = 220.
Proof.
  split.
  { apply (example_valid edge_config edge_rows 3 3 1 3); solve [lia | cbn; lia | reflexivity]. }
  split; [reflexivity|]. split; [reflexivity|]. split; [vm_compute; reflexivity|].
  split.
  { assert (H : match grid_slice
                        (frame_of edge_config (example_points edge_rows) (example_image 3 3 1)) 1
                with
                | inr v => shape v = [1%nat; 2%nat; 1%nat]
                | inl _ => False
                end) by (vm_compute; reflexivity).
    revert H.
    destruct (grid_slice _ 1) as [e|v]; intros H; [destruct H|].
    exists v. split; [reflexivity|exact H]. }
  set (run := extract_patches (VRef 0%nat) (VRef 2%nat)
                (example_store edge_config edge_rows (example_image 3 3 1))).
  assert (Hnd : match deref run.2 (VRef 4%nat) with
                  | Some (ONdarray patches) =>
                      shape patches = [9%nat; 2%nat; 2%nat; 1%nat]
                      ∧ (item patches [1; 0; 0; 0] = 210 ∧ item patches [1; 0; 1; 0] = 220
                         ∧ item patches [1; 1; 0; 0] = 210 ∧ item patches [1; 1; 1; 0] = 220)
                      ∧ item (padded_of edge_config (example_image 3 3 1)) [4; 2; 0] = 210
                      ∧ item (padded_of edge_config (example_image 3 3 1)) [4; 3; 0] = 220
                  | _ => False
                  end) by (vm_compute; repeat split; reflexivity).
  revert Hnd.
  destruct (deref run.2 (VRef 4%nat)) as [[patches| |]|] eqn:Hp; intros Hnd;
    [|destruct Hnd..].
  destruct Hnd as (Hs & (H00 & H01 & H10 & H11) & Hp0 & Hp1).
  exists run.2, patches.
  split.
  { rewrite (surjective_pairing run) at 1. f_equal. }
  split; [exact Hp|].
  split; [assumption|].
  split; [|repeat split; assumption].
  intros r col Hr Hcol.
  assert (r = 0 ∨ r = 1) as [-> | ->] by lia;
      (assert (col = 0 ∨ col = 1) as [-> | ->] by lia);
      change (2 + 0) with 2; change (2 + 1) with 3; congruence.
Qed.

(** C3.  In the result of a valid call, the patch stored for point
    [q = (label, x, y)] and offsets [(h, w)] of the grid is the
    [patch_h x patch_w] window of the padded image with top-left corner
    [(y + pad_y - 1 - h - floor((patch_h - 1) / 2),
      x + pad_x - 1 - w - floor((patch_w - 1) / 2))], whenever that
    window lies inside the padded image; for one example per point, the
    pixel at [(floor((patch_h - 1) / 2), floor((patch_w - 1) / 2))] of
    the patch of a point is the pixel of the padded image at the point's
    shifted coordinates [(y + pad_y - 1, x + pad_x - 1)]. *)
Theorem C3_window σ self input_img c points img p l k σ' (hp wp dp : nat) :
  valid_input σ self input_img c points img →
  extract_patches self input_img σ = (inr (p, l, k), σ') →
  shape (padded_of c img) = [hp; wp; dp] →
  ∃ patches,
    deref σ' p = Some (ONdarray patches)
    ∧ (∀ q h w,
         let side := Z.sqrt (cfg_n c) in
         let i := q * cfg_n c + (h + side / 2) * side + (w + side / 2) in
         let start_h := item points [q; 2] + cfg_pad_y c - 1 - h - (cfg_patch_h c - 1) / 2 in
         let start_w := item points [q; 1] + cfg_pad_x c - 1 - w - (cfg_patch_w c - 1) / 2 in
         0 ≤ q < len_of points →
         - (side / 2) ≤ h ≤ side / 2 → - (side / 2) ≤ w ≤ side / 2 →
         0 ≤ start_h → start_h + cfg_patch_h c ≤ Z.of_nat hp →
         0 ≤ start_w → start_w + cfg_patch_w c ≤ Z.of_nat wp →
         ∀ r col ch,
           0 ≤ r < cfg_patch_h c → 0 ≤ col < cfg_patch_w c → 0 ≤ ch < Z.of_nat dp →
           item patches [i; r; col; ch]
           = item (padded_of c img) [start_h + r; start_w + col; ch])
    ∧ (cfg_n c = 1 →
       ∀ q,
         let start_h := item points [q; 2] + cfg_pad_y c - 1 - (cfg_patch_h c - 1) / 2 in
         let start_w := item points [q; 1] + cfg_pad_x c - 1 - (cfg_patch_w c - 1) / 2 in
         0 ≤ q < len_of points →
         0 ≤ start_h → start_h + cfg_patch_h c ≤ Z.of_nat hp →
         0 ≤ start_w → start_w + cfg_patch_w c ≤ Z.of_nat wp →
         ∀ ch, 0 ≤ ch < Z.of_nat dp →
           item patches [q; (cfg_patch_h c - 1) / 2; (cfg_patch_w c - 1) / 2; ch]
           = item (padded_of c img)
               [item points [q; 2] + cfg_pad_y c - 1; item points [q; 1] + cfg_pad_x c - 1; ch]).
Proof.
  intros Hvalid Hrun Hpad.
  destruct (valid_result _ _ _ _ _ _ _ _ _ _ Hvalid Hrun) as (o & Hp & _ & _ & Hfilled).
  destruct Hvalid as (_ & _ & [n_points Hpts] & (h0 & w0 & d0 & Himg & ? & ?)
                      & Hph & Hpw & ? & ? & (side & Hside & Hodd & Hn)).
  destruct (zeros_valid c points img n_points h0 w0 d0 side) as [_ Hz]; try done.
  destruct (pad_valid c img h0 w0 d0) as [_ Hpad']; try done.
  assert (d0 = dp) as -> by congruence.
  exists (out_patches o). split; [done|].
  assert (Hmain : ∀ q h w,
    let i := q * cfg_n c + (h + side / 2) * side + (w + side / 2) in
    let start_h := item points [q; 2] + cfg_pad_y c - 1 - h - (cfg_patch_h c - 1) / 2 in
    let start_w := item points [q; 1] + cfg_pad_x c - 1 - w - (cfg_patch_w c - 1) / 2 in
    0 ≤ q < len_of points →
    - (side / 2) ≤ h ≤ side / 2 → - (side / 2) ≤ w ≤ side / 2 →
    0 ≤ start_h → start_h + cfg_patch_h c ≤ Z.of_nat hp →
    0 ≤ start_w → start_w + cfg_patch_w c ≤ Z.of_nat wp →
    ∀ r col ch,
      0 ≤ r < cfg_patch_h c → 0 ≤ col < cfg_patch_w c → 0 ≤ ch < Z.of_nat dp →
      item (out_patches o) [i; r; col; ch]
      = item (padded_of c img) [start_h + r; start_w + col; ch]).
  { intros q h w i start_h start_w Hq Hh Hw ? ? ? ? r col ch Hr Hcol Hch.
    pose proof (odd_halves side Hodd) as Hhalf.
    destruct (window_of_valid c points img side q (h + side / 2) (w + side / 2))
      as (Hdiv & _ & Hwin); try done; try lia.
    fold i in Hdiv, Hwin.
    assert (Hi : 0 ≤ i < len_of points * cfg_n c) by (unfold i; nia).
    assert (Hin : window_inside (frame_of c points img) i = true).
    { unfold window_inside. rewrite Hwin. cbn [frame_of f_padded f_patch_h f_patch_w].
      rewrite Hpad. rewrite !andb_true_iff, !Z.leb_le. unfold start_h, start_w in *. lia. }
    destruct Hfilled as (_ & _ & _ & Hw').
    rewrite (written_inside (frame_of c points img) _ hp wp dp Hpad eq_refl
               ltac:(cbn; lia) ltac:(cbn; lia) o i r col ch (Hw' i Hi) Hin Hr Hcol Hch).
    rewrite Hwin. cbn [fst snd]. unfold start_h, start_w. repeat f_equal; lia. }
  split.
  - rewrite (sqrt_side c side) by done. exact Hmain.
  - intros Hone q start_h start_w Hq ? ? ? ? ch Hch.
    assert (side = 1) as -> by nia.
    specialize (Hmain q 0 0). cbn zeta in Hmain.
    replace (q * cfg_n c + (0 + 1 / 2) * 1 + (0 + 1 / 2)) with q in Hmain.
    2:{ rewrite Hone. change (1 / 2) with 0. lia. }
    rewrite Hmain; try done; try (change (1 / 2) with 0; lia); try (unfold start_h, start_w in *; lia).
    + repeat f_equal; lia.
    + split; [apply Z.div_pos; lia|]. apply Z.div_lt_upper_bound; lia.
    + split; [apply Z.div_pos; lia|]. apply Z.div_lt_upper_bound; lia.
Qed.

(** C3, witness: the centre of patch 4 (first point, offsets (0, 0)) is
    the pixel (1, 1) of the image, whose value is 110. *)
Lemma C3_window_witness :
  valid_input (example_store example_config example_rows (example_image 3 3 1))
    (VRef 0%nat) (VRef 2%nat) example_config (example_points example_rows) (example_image 3 3 1)
  ∧ example_run = (inr (VRef 4%nat, VRef 5%nat, VRef 6%nat), example_run.2)
  ∧ shape (padded_of example_config (example_image 3 3 1)) = [9%nat; 9%nat; 1%nat]
  ∧ ∃ patches,
      deref example_run.2 (VRef 4%nat) = Some (ONdarray patches)
      ∧ item patches [4; 1; 1; 0] = 110.
Proof.
  split; [exact example_valid_input|]. split; [exact example_run_eq|].
  split; [reflexivity|].
  destruct (C3_window _ _ _ _ _ _ _ _ _ _ 9%nat 9%nat 1%nat
              example_valid_input example_run_eq eq_refl)
    as (patches & Hp & Hwin & _).
  exists patches. split; [exact Hp|].
  specialize (Hwin 0 0 0). cbv zeta in Hwin.
  specialize (Hwin ltac:(decide_cmp) ltac:(decide_cmp) ltac:(decide_cmp)
                   ltac:(decide_cmp) ltac:(decide_cmp) ltac:(decide_cmp) ltac:(decide_cmp)
                   1 1 0 ltac:(decide_cmp) ltac:(decide_cmp) ltac:(decide_cmp)).
  vm_compute in Hwin. exact Hwin.
Defined.

(** C4.  For [num_examples_per_patch = side * side] with [side] odd, the
    offsets along each axis are the integers from [-floor(side / 2)] to
    [-floor(side / 2) + side - 1], that is [-floor(side / 2)] to
    [floor(side / 2)], in increasing order; for [side = 1] the special
    case [(0, 1)] of the source is the same range. *)
Theorem C4_offsets side :
  0 < side → Z.odd side = true →
  let '(start_location, end_location) := offset_bounds (side * side) in
  start_location = - (side / 2)
  ∧ end_location = - (side / 2) + side
  ∧ range start_location end_location
    = (λ j : nat, - (side / 2) + Z.of_nat j) <$> seq 0 (Z.to_nat side)
  ∧ (∀ k, k ∈ range start_location end_location ↔ - (side / 2) ≤ k ≤ side / 2)
  ∧ (side = 1 → (start_location, end_location) = (0, 1)).
Proof.
  intros Hside Hodd. rewrite offset_bounds_square by done.
  pose proof (odd_halves side Hodd) as Hhalf.
  split_and!; try done; try lia.
  - unfold range. do 3 f_equal. lia.
  - intros k. rewrite list_elem_of_lookup. split.
    + intros [j Hj]. apply lookup_range in Hj as [-> Hj]. lia.
    + intros Hk. exists (Z.to_nat (k + side / 2)). apply lookup_range. lia.
  - intros ->. reflexivity.
Qed.

(** C4, witness: nine examples per point give the offsets -1, 0, 1. *)
Lemma C4_offsets_witness :
  0 < 3 ∧ Z.odd 3 = true ∧ range (offset_bounds 9).1 (offset_bounds 9).2 = [-1; 0; 1].
Proof.
  split; [lia|]. split; [reflexivity|].
  pose proof (C4_offsets 3 ltac:(lia) eq_refl) as H.
  change (3 * 3) with 9 in H. destruct (offset_bounds 9) as [a b].
  destruct H as (_ & _ & Hr & _). cbn [fst snd]. rewrite Hr. reflexivity.
Defined.

(** C5.  In the result of a valid call with [n] examples per point,
    position [i] (from 0) holds the identifier [floor(i / n) + 1], the
    label of point [floor(i / n)], and the patch cut for that point at
    the offsets number [i mod n] of the grid, counted row by row: all
    the patches of a point come before those of the next point, and the
    identifier goes up once per point. *)
Theorem C5_order σ self input_img c points img p l k σ' :
  valid_input σ self input_img c points img →
  extract_patches self input_img σ = (inr (p, l, k), σ') →
  ∃ patches labels ids,
    deref σ' p = Some (ONdarray patches)
    ∧ deref σ' l = Some (OList labels)
    ∧ deref σ' k = Some (OList ids)
    ∧ ∀ i, 0 ≤ i < len_of points * cfg_n c →
        let n := cfg_n c in
        let side := Z.sqrt n in
        ids !! Z.to_nat i = Some (Val (Scalar (i / n + 1)))
        ∧ labels !! Z.to_nat i = Some (Val (Scalar (item points [i / n; 0])))
        ∧ offset_of (frame_of c points img) i
          = (- (side / 2) + (i mod n) / side, - (side / 2) + (i mod n) mod side)
        ∧ ∃ v, slice_of (frame_of c points img) i = inr v
               ∧ ∀ rest, item patches (i :: rest) = item v (np.bcast_index (shape v) rest).
Proof.
  intros Hvalid Hrun.
  destruct (valid_result _ _ _ _ _ _ _ _ _ _ Hvalid Hrun)
    as (o & Hp & Hl & Hk & (_ & _ & _ & Hw)).
  destruct Hvalid as (_ & _ & _ & _ & _ & _ & _ & _ & (side & Hside & _ & Hn)).
  exists (out_patches o), (out_labels o), (out_ids o). split_and!; try done.
  intros i Hi n side'. destruct (Hw i Hi) as (Hlab & Hid & v & Hv & _ & Hitem).
  split_and!; try done.
  - unfold offset_of. cbn [frame_of f_n]. subst n side'.
    rewrite (sqrt_side c side) by done.
    rewrite Hn at 1. rewrite offset_bounds_square by done.
    by replace (side + - (side / 2) - - (side / 2)) with side by lia.
  - by exists v.
Qed.

(** C5, witness: with nine examples per point, position 9 is the first
    of the second point: identifier 2, label 8. *)
Lemma C5_order_witness :
  valid_input (example_store example_config example_rows (example_image 3 3 1))
    (VRef 0%nat) (VRef 2%nat) example_config (example_points example_rows) (example_image 3 3 1)
  ∧ example_run = (inr (VRef 4%nat, VRef 5%nat, VRef 6%nat), example_run.2)
  ∧ ∃ labels ids,
      deref example_run.2 (VRef 5%nat) = Some (OList labels)
      ∧ deref example_run.2 (VRef 6%nat) = Some (OList ids)
      ∧ ids !! 9%nat = Some (Val (Scalar 2))
      ∧ labels !! 9%nat = Some (Val (Scalar 8)).
Proof.
  split; [exact example_valid_input|]. split; [exact example_run_eq|].
  destruct (C5_order _ _ _ _ _ _ _ _ _ _ example_valid_input example_run_eq)
    as (patches & labels & ids & _ & Hl & Hk & Hall).
  exists labels, ids. split; [exact Hl|]. split; [exact Hk|].
  assert (H9 : 0 ≤ 9 < len_of (example_points example_rows) * cfg_n example_config).
  { vm_compute. split; [discriminate|reflexivity]. }
  destruct (Hall 9 H9) as (Hid & Hlab & _).
  split; [exact Hid|exact Hlab].
Defined.

(** C6.  On an extractor with stored points, [extract_patches] raises the
    plain [Exception] of its input checks exactly when the points are
    not an array, or the image is neither an array nor a path string;
    then the store is left as it was.  Whatever it raises, no object
    that existed before the call is changed. *)
Theorem C6_invalid_input σ self input_img cls attrs pts :
  deref σ self = Some (OInstance cls attrs) →
  attrs !! "input_points"%string = Some pts →
  let '(r, σ') := extract_patches self input_img σ in
  ((∃ msg, r = inl (Exception msg))
   ↔ ¬ is_ndarray σ pts ∨ ¬ (is_ndarray σ input_img ∨ is_str input_img))
  ∧ (∀ msg, r = inl (Exception msg) → σ' = σ)
  ∧ heap σ ⊆ heap σ'.
Proof.
  intros Hs Hp.
  destruct (extract_patches_run σ self input_img)
    as (r & σ' & -> & Hag & Hsub & _ & _ & Hexc & _).
  split_and!; [|intros msg ->; by apply (Hexc _ eq_refl)|done].
  unfold extract_spec in Hag. rewrite (points_of_instance _ _ _ _ _ Hs Hp) in Hag.
  unfold attrs_of in Hag. rewrite Hs in Hag. cbn [default] in Hag.
  destruct (deref σ pts) as [[a| |]|] eqn:Ep.
  2-4: (split; [intros _; left; intros [? ?]; congruence|];
        intros _; destruct r as [e|[[? ?] ?]]; [|done]; simpl in Hag; subst e;
        by eexists).
  assert (Harr : is_ndarray σ pts) by by exists a.
  unfold image_of in Hag.
  destruct input_img as [|z|path|path|limg].
  1,2,4: (split; [intros _; right; intros [[? ?]|[? ?]]; done|];
          intros _; destruct r as [e|[[? ?] ?]]; [|done]; simpl in Hag; subst e;
          by eexists).
  - (* a path *)
    split; [|intros [?|Hn]; [done|destruct Hn; right; by eexists]].
    intros [msg ->].
    destruct (disk σ path).
    + unfold agrees in Hag. destruct (extract_fun _ _ _) eqn:Ef; [|done].
      subst. by apply extract_fun_quiet in Ef.
    + simpl in Hag. done.
  - (* a reference *)
    destruct (deref σ (VRef limg)) as [[b| |]|] eqn:Ei.
    2-4: (split; [intros _; right; intros [[? ?]|[? ?]]; congruence|];
          intros _; destruct r as [e|[[? ?] ?]]; [|done]; simpl in Hag; subst e;
          by eexists).
    split; [|intros [?|Hn]; [done|destruct Hn; left; by eexists]].
    intros [msg ->]. unfold agrees in Hag. destruct (extract_fun _ _ _) eqn:Ef; [|done].
    subst. by apply extract_fun_quiet in Ef.
Qed.

(** C6, witness: [None] given as the image. *)
Lemma C6_invalid_input_witness :
  let σ := example_store example_config example_rows (example_image 3 3 1) in
  deref σ (VRef 0%nat)
  = Some (OInstance C_PointsPatchExtractor (example_attrs example_config (VRef 1%nat)))
  ∧ example_attrs example_config (VRef 1%nat) !! "input_points"%string = Some (VRef 1%nat)
  ∧ extract_patches (VRef 0%nat) VNone σ = (inl image_error, σ).
Proof.
  intros σ. split; [reflexivity|]. split; [reflexivity|].
  pose proof (C6_invalid_input σ (VRef 0%nat) VNone _ _ _ eq_refl eq_refl) as H.
  destruct (extract_patches (VRef 0%nat) VNone σ) as [r σ'] eqn:E.
  destruct H as (_ & Hsame & _).
  assert (Hr : r = inl image_error).
  { change r with (r, σ').1. rewrite <- E. vm_compute. reflexivity. }
  by rewrite (Hsame _ Hr), Hr.
Defined.

(** C7, counterexample.  Asked for ["fixedwindow"] or ["variablewindow"],
    the factory returns no instance: the constructors of both classes
    raise. *)
Lemma C7_counterexample :
  (get_patch_extractor "fixedwindow" None None None None None empty_store).1 = inl TypeError
  ∧ (get_patch_extractor "variablewindow" None None None None None empty_store).1
    = inl TypeError.
Proof. split; vm_compute; reflexivity. Qed.

(** C7, amended.  The factory matches the method name without regard to
    case.  ["point"] is handed to the constructor of the point-centred
    extractor with patch size 224 x 224 and padding 0 where these are
    omitted; ["fixedwindow"] and ["variablewindow"] return no instance,
    their constructors raise; any other name raises [MethodNotSupported]
    and leaves the store as it was. *)
Theorem C7_factory method_name img_patch_h img_patch_w input_points pad_y pad_x σ :
  let call name := get_patch_extractor name img_patch_h img_patch_w input_points pad_y pad_x σ in
  call method_name = call (py.lower method_name)
  ∧ (py.lower method_name = "point"%string →
     call method_name
     = PointsPatchExtractor (default (VInt 224) img_patch_h) (default (VInt 224) img_patch_w)
         (default (VInt 0) pad_y) (default (VInt 0) pad_x) (default VNone input_points)
         None σ)
  ∧ (py.lower method_name = "fixedwindow"%string
     ∨ py.lower method_name = "variablewindow"%string →
     ∃ e σ', call method_name = (inl e, σ'))
  ∧ (py.lower method_name ≠ "point"%string →
     py.lower method_name ≠ "fixedwindow"%string →
     py.lower method_name ≠ "variablewindow"%string →
     call method_name = (inl (MethodNotSupported None), σ)).
Proof.
  intros call. subst call. cbv beta. unfold get_patch_extractor. rewrite lower_idemp.
  split; [done|]. split_and!.
  - intros ->. reflexivity.
  - intros [-> | ->].
    + apply FixedWindowPatchExtractor_raises.
    + apply VariableWindowPatchExtractor_raises.
  - intros H1 H2 H3. by rewrite !decide_False.
Qed.

(** C7, witness: ["VariableWindow"] and ["Tile"]. *)
Lemma C7_factory_witness :
  py.lower "VariableWindow" = "variablewindow"%string
  ∧ py.lower "Tile" ≠ "point"%string
  ∧ (∃ e σ', get_patch_extractor "VariableWindow" None None None None None empty_store
             = (inl e, σ'))
  ∧ get_patch_extractor "Tile" None None None None None empty_store
    = (inl (MethodNotSupported None), empty_store).
Proof.
  split; [reflexivity|]. split; [discriminate|].
  pose proof (C7_factory "VariableWindow" None None None None None empty_store) as H1.
  pose proof (C7_factory "Tile" None None None None None empty_store) as H2.
  cbv zeta in H1, H2.
  destruct H1 as (_ & _ & H1 & _). destruct H2 as (_ & _ & _ & H2).
  split.
  - apply H1. right. reflexivity.
  - apply H2; discriminate.
Defined.

(** C8.  Whatever it is given, [merge_patches] of the point-centred
    extractor raises [MethodNotSupported] and returns no image. *)
Theorem C8_merge_patches_unsupported self patches σ :
  merge_patches self patches σ
  = (inl (MethodNotSupported (Some "Merge patches not supported for PointsPatchExtractor"%string)), σ)
  ∧ ∀ image σ', merge_patches self patches σ ≠ (inr image, σ').
Proof. split; [reflexivity|]. intros image σ'. discriminate. Qed.

(** C9.  Two calls in a row with the same receiver and image: neither
    changes any object that existed before it (the extractor and its
    attributes, the image, the points) nor the disk; each returns three
    objects that did not exist before; and both end the same way, with
    the same exception or with results holding the same patches, labels
    and identifiers. *)
Theorem C9_deterministic_and_pure σ self input_img :
  let '(r1, σ1) := extract_patches self input_img σ in
  let '(r2, σ2) := extract_patches self input_img σ1 in
  (heap σ ⊆ heap σ1 ∧ disk σ1 = disk σ)
  ∧ (heap σ1 ⊆ heap σ2 ∧ disk σ2 = disk σ1)
  ∧ fresh_results σ r1 ∧ fresh_results σ1 r2
  ∧ match r1, r2 with
    | inl e1, inl e2 => e1 = e2
    | inr (p1, l1, k1), inr (p2, l2, k2) =>
        ∃ patches labels ids,
          (deref σ2 p1 = Some (ONdarray patches) ∧ deref σ2 p2 = Some (ONdarray patches))
          ∧ (deref σ2 l1 = Some (OList labels) ∧ deref σ2 l2 = Some (OList labels))
          ∧ (deref σ2 k1 = Some (OList ids) ∧ deref σ2 k2 = Some (OList ids))
    | _, _ => False
    end.
Proof.
  destruct (extract_patches_run σ self input_img)
    as (r1 & σ1 & -> & Hag1 & Hsub1 & Hdisk1 & _ & _ & Hfr1 & Hres).
  destruct (extract_patches_run σ1 self input_img)
    as (r2 & σ2 & -> & Hag2 & Hsub2 & Hdisk2 & _ & _ & Hfr2 & _).
  split_and!; try done.
  assert (Hspec : extract_spec σ1 self input_img = extract_spec σ self input_img).
  { destruct Hres as [->|Hres]; [done|]. by apply extract_spec_preserved. }
  rewrite Hspec in Hag2.
  destruct (extract_spec σ self input_img) as [e|o].
  - destruct r1 as [e1|[[? ?] ?]], r2 as [e2|[[? ?] ?]]; try done.
    simpl in *. congruence.
  - destruct r1 as [e1|[[p1 l1] k1]], r2 as [e2|[[p2 l2] k2]]; try done.
    destruct Hag1 as (? & ? & ?), Hag2 as (? & ? & ?).
    exists (out_patches o), (out_labels o), (out_ids o).
    split_and!; try done; by eapply deref_weaken.
Qed.

(** C10.  When the stored points are not an array, [extract_patches]
    raises the points error whatever the image argument is, and the
    store, with its log of files read, is left as it was: the image is
    never loaded. *)
Theorem C10_points_checked_first σ self input_img cls attrs pts :
  deref σ self = Some (OInstance cls attrs) →
  attrs !! "input_points"%string = Some pts →
  ¬ is_ndarray σ pts →
  extract_patches self input_img σ = (inl points_error, σ)
  ∧ reads (extract_patches self input_img σ).2 = reads σ.
Proof.
  intros Hs Hp Hn.
  destruct (extract_patches_run σ self input_img)
    as (r & σ' & Hrun & Hag & _ & _ & _ & Hexc & _).
  rewrite (extract_spec_points_error _ _ _ _ _ _ Hs Hp Hn) in Hag.
  destruct r as [e|[[? ?] ?]]; [|done]. simpl in Hag. subst e.
  rewrite (Hexc _ eq_refl I) in Hrun. by rewrite Hrun.
Qed.

(** C10, witness: points left as a path, image given as a path that could
    be loaded. *)
Lemma C10_points_checked_first_witness :
  let σ := example_store example_config example_rows (example_image 3 3 1) in
  let σ0 := {| heap := <[0%nat := OInstance C_PointsPatchExtractor
                                     (example_attrs example_config (VPath "points.csv"))]>
                         (heap σ);
               disk := disk σ; reads := reads σ |} in
  deref σ0 (VRef 0%nat)
  = Some (OInstance C_PointsPatchExtractor (example_attrs example_config (VPath "points.csv")))
  ∧ example_attrs example_config (VPath "points.csv") !! "input_points"%string
    = Some (VPath "points.csv")
  ∧ ¬ is_ndarray σ0 (VPath "points.csv")
  ∧ extract_patches (VRef 0%nat) (VStr "slide.png") σ0 = (inl points_error, σ0).
Proof.
  intros σ σ0.
  assert (Hn : ¬ is_ndarray σ0 (VPath "points.csv")) by (intros [a Ha]; discriminate).
  split; [reflexivity|]. split; [reflexivity|]. split; [exact Hn|].
  exact (proj1 (C10_points_checked_first σ0 (VRef 0%nat) (VStr "slide.png") _ _ _
                  eq_refl eq_refl Hn)).
Defined.

(** * Further properties of the code

    ** get_last_steps *)

(** X1.  A stride of zero, as an [int] or as a float, is a
    [ZeroDivisionError]; and on integers below [2 ^ 53] in absolute
    value no other stride makes [get_last_steps] raise. *)
Theorem X1_get_last_steps_zero_stride :
  (∀ image_dim label_patch_dim,
     get_last_steps (PyInt image_dim) (PyInt label_patch_dim) (PyInt 0)
     = inl ZeroDivisionError)
  ∧ (∀ image_dim label_patch_dim e,
       Z.abs (image_dim - label_patch_dim) < 2 ^ 53 →
       get_last_steps (PyInt image_dim) (PyInt label_patch_dim) (PyFloat (Fin 0 e))
       = inl ZeroDivisionError)
  ∧ (∀ image_dim label_patch_dim stride,
       stride ≠ 0 →
       Z.abs (image_dim - label_patch_dim) < 2 ^ 53 → Z.abs stride < 2 ^ 53 →
       ∃ last_step,
         get_last_steps (PyInt image_dim) (PyInt label_patch_dim) (PyInt stride)
         = inr last_step).
Proof.
  split_and!.
  - intros a b. reflexivity.
  - intros a b e Hd. unfold get_last_steps. cbn [num.sub num.truediv num.to_float].
    destruct (ceil_round (a - b) 1) as (m & e' & Hr & _); [lia..|].
    rewrite Hr. reflexivity.
  - intros a b s Hs Hd Hs'. rewrite get_last_steps_ints by done. eauto.
Qed.

(** X2.  On integers below [2 ^ 53] in absolute value, with a stride
    that is not zero, the result is a multiple of the stride.  For a
    positive stride it is the one multiple in
    [[d + stride, d + 2 * stride)] with
    [d = image_dim - label_patch_dim]: the last step overshoots the
    remaining length by at least one stride and by less than two.  For a
    negative stride the interval is mirrored.  When the stride divides
    [d], the result is [d + stride]. *)
Theorem X2_get_last_steps_on_integers (image_dim label_patch_dim stride : Z) :
  stride ≠ 0 →
  Z.abs (image_dim - label_patch_dim) < 2 ^ 53 → Z.abs stride < 2 ^ 53 →
  ∃ last_step,
    get_last_steps (PyInt image_dim) (PyInt label_patch_dim) (PyInt stride) = inr last_step
    ∧ (stride | last_step)
    ∧ (0 < stride →
       image_dim - label_patch_dim + stride ≤ last_step
       < image_dim - label_patch_dim + 2 * stride)
    ∧ (stride < 0 →
       image_dim - label_patch_dim + 2 * stride < last_step
       ≤ image_dim - label_patch_dim + stride)
    ∧ ((stride | image_dim - label_patch_dim) →
       last_step = image_dim - label_patch_dim + stride).
Proof.
  intros Hs Hd Hs'. rewrite get_last_steps_ints by done.
  destruct (zceil_bounds (image_dim - label_patch_dim) stride Hs) as [Hpos Hneg].
  set (k := - (- (image_dim - label_patch_dim) / stride)) in *.
  exists ((k + 1) * stride). split_and!; try done.
  - by exists (k + 1).
  - intros H. specialize (Hpos H). lia.
  - intros H. specialize (Hneg H). lia.
  - intros [j Hj]. f_equal. destruct (Z.lt_total stride 0) as [Hlt|[?|Hgt]]; [|done|].
    + specialize (Hneg Hlt).
      assert (j ≤ k) by (apply (Z.mul_le_mono_neg_r _ _ stride); lia).
      assert (k - 1 < j) by (apply (Z.mul_lt_mono_neg_r stride); lia).
      replace k with j by lia. lia.
    + specialize (Hpos Hgt).
      assert (j ≤ k) by (apply (Z.mul_le_mono_pos_r _ _ stride); lia).
      assert (k - 1 < j) by (apply (Z.mul_lt_mono_pos_r stride); lia).
      replace k with j by lia. lia.
Qed.

(** X2, witness: [get_last_steps(10, 3, 4)] is a multiple of 4 in
    [[11, 15)], so it is 12. *)
Lemma X2_get_last_steps_on_integers_witness :
  4 ≠ 0 ∧ Z.abs (10 - 3) < 2 ^ 53 ∧ Z.abs 4 < 2 ^ 53
  ∧ get_last_steps (PyInt 10) (PyInt 3) (PyInt 4) = inr 12.
Proof.
  split; [discriminate|]. split; [done|]. split; [done|].
  destruct (X2_get_last_steps_on_integers 10 3 4 ltac:(discriminate) eq_refl eq_refl)
    as (r & -> & [j ->] & Hpos & _).
  specialize (Hpos eq_refl). f_equal. lia.
Defined.

(** X3.  For a positive integer stride, and integers below [2 ^ 53] in
    absolute value, the result does not decrease when the image grows
    or the patch shrinks. *)
Theorem X3_get_last_steps_monotone (image_dim image_dim' label_patch_dim label_patch_dim' stride : Z) :
  0 < stride < 2 ^ 53 →
  Z.abs (image_dim - label_patch_dim) < 2 ^ 53 →
  Z.abs (image_dim' - label_patch_dim') < 2 ^ 53 →
  image_dim - label_patch_dim ≤ image_dim' - label_patch_dim' →
  ∃ last_step last_step',
    get_last_steps (PyInt image_dim) (PyInt label_patch_dim) (PyInt stride) = inr last_step
    ∧ get_last_steps (PyInt image_dim') (PyInt label_patch_dim') (PyInt stride)
      = inr last_step'
    ∧ last_step ≤ last_step'.
Proof.
  intros Hs Hd Hd' Hle. rewrite !get_last_steps_ints by lia.
  destruct (zceil_bounds (image_dim - label_patch_dim) stride ltac:(lia)) as [Hpos _].
  destruct (zceil_bounds (image_dim' - label_patch_dim') stride ltac:(lia)) as [Hpos' _].
  specialize (Hpos ltac:(lia)). specialize (Hpos' ltac:(lia)).
  set (k := - (- (image_dim - label_patch_dim) / stride)) in *.
  set (k' := - (- (image_dim' - label_patch_dim') / stride)) in *.
  exists ((k + 1) * stride), ((k' + 1) * stride). split_and!; try done.
  apply Z.mul_le_mono_nonneg_r; [lia|].
  destruct (Z.le_gt_cases k k') as [|Hgt]; [lia|].
  assert ((k' + 1) * stride ≤ k * stride) by (apply Z.mul_le_mono_nonneg_r; lia).
  lia.
Qed.

(** X3, witness: an image of 10 against one of 12, patches of 4, stride 3. *)
Lemma X3_get_last_steps_monotone_witness :
  0 < 3 < 2 ^ 53 ∧ Z.abs (10 - 4) < 2 ^ 53 ∧ Z.abs (12 - 4) < 2 ^ 53 ∧ 10 - 4 ≤ 12 - 4
  ∧ ∃ last_step last_step',
      get_last_steps (PyInt 10) (PyInt 4) (PyInt 3) = inr last_step
      ∧ get_last_steps (PyInt 12) (PyInt 4) (PyInt 3) = inr last_step'
      ∧ last_step ≤ last_step'.
Proof.
  split; [done|]. split; [done|]. split; [done|]. split; [discriminate|].
  apply (X3_get_last_steps_monotone 10 12 4 4 3); [done|done|done|discriminate].
Defined.

(** ** The constructors and the factory *)

Lemma setattr_run σ l cls attrs name v :
  heap σ !! l = Some (OInstance cls attrs) →
  setattr (VRef l) name v σ
  = (inr (), {| heap := <[l := OInstance cls (<[name := v]> attrs)]> (heap σ);
                disk := disk σ; reads := reads σ |}).
Proof. intros H. unfold setattr, deref. rewrite H. reflexivity. Qed.

Lemma FixedWindowPatchExtractor_TypeError h w sh sw σ :
  FixedWindowPatchExtractor h w sh sw σ
  = (inl TypeError,
     {| heap := <[fresh (dom (heap σ)) := OInstance C_FixedWindowPatchExtractor ∅]> (heap σ);
        disk := disk σ; reads := reads σ |}).
Proof.
  unfold FixedWindowPatchExtractor, new. rewrite bind_run, alloc_run.
  unfold FixedWindowPatchExtractor_init. rewrite !bind_run.
  by rewrite (super_init_raises C_FixedWindowPatchExtractor) by done.
Qed.

Lemma VariableWindowPatchExtractor_TypeError h w sh sw lh lw σ :
  VariableWindowPatchExtractor h w sh sw lh lw σ
  = (inl TypeError,
     {| heap := <[fresh (dom (heap σ)) := OInstance C_VariableWindowPatchExtractor ∅]> (heap σ);
        disk := disk σ; reads := reads σ |}).
Proof.
  unfold VariableWindowPatchExtractor, new. rewrite bind_run, alloc_run.
  unfold VariableWindowPatchExtractor_init. rewrite !bind_run.
  by rewrite (super_init_raises C_VariableWindowPatchExtractor) by done.
Qed.

Lemma PointsPatchExtractor_TypeError h w pad_y pad_x pts n σ :
  PointsPatchExtractor h w pad_y pad_x pts n σ
  = (inl TypeError,
     {| heap := <[fresh (dom (heap σ)) := OInstance C_PointsPatchExtractor ∅]> (heap σ);
        disk := disk σ; reads := reads σ |}).
Proof.
  unfold PointsPatchExtractor, new. rewrite bind_run, alloc_run.
  unfold PointsPatchExtractor_init. rewrite !bind_run.
  by rewrite (super_init_raises C_PointsPatchExtractor) by done.
Qed.

(** X4.  The base class can be constructed: [PatchExtractor(h, w, py, px)]
    returns a new instance, changes no object that existed, and the
    four attributes read back as the arguments given; no other
    attribute is set. *)
Theorem X4_base_class_constructs img_patch_h img_patch_w pad_y pad_x σ :
  ∃ l σ',
    PatchExtractor img_patch_h img_patch_w pad_y pad_x σ = (inr (VRef l), σ')
    ∧ heap σ !! l = None
    ∧ (∀ l', l' ≠ l → heap σ' !! l' = heap σ !! l')
    ∧ disk σ' = disk σ ∧ reads σ' = reads σ
    ∧ getattr (VRef l) "img_patch_h" σ' = (inr img_patch_h, σ')
    ∧ getattr (VRef l) "img_patch_w" σ' = (inr img_patch_w, σ')
    ∧ getattr (VRef l) "pad_y" σ' = (inr pad_y, σ')
    ∧ getattr (VRef l) "pad_x" σ' = (inr pad_x, σ')
    ∧ ∀ name,
        name ≠ "img_patch_h"%string → name ≠ "img_patch_w"%string →
        name ≠ "pad_y"%string → name ≠ "pad_x"%string →
        getattr (VRef l) name σ' = (inl AttributeError, σ').
Proof.
  set (l := fresh (dom (heap σ))).
  set (attrs := <["pad_x"%string := pad_x]>
                  (<["pad_y"%string := pad_y]>
                     (<["img_patch_w"%string := img_patch_w]>
                        (<["img_patch_h"%string := img_patch_h]> (∅ : gmap string pyval))))).
  assert (Hrun : PatchExtractor img_patch_h img_patch_w pad_y pad_x σ
                 = (inr (VRef l),
                    {| heap := <[l := OInstance C_PatchExtractor attrs]> (heap σ);
                       disk := disk σ; reads := reads σ |})).
  { unfold PatchExtractor, new. rewrite bind_run, alloc_run. fold l.
    unfold PatchExtractor_init.
    do 4 (rewrite ?bind_run; erewrite setattr_run by apply lookup_insert_eq;
          cbn [heap disk reads]; rewrite insert_insert_eq).
    reflexivity. }
  exists l. eexists. split; [exact Hrun|]. cbn [heap disk reads].
  split; [apply fresh_lookup|].
  split; [intros l' Hl'; by rewrite lookup_insert_ne|].
  split; [done|]. split; [done|].
  split_and!.
  1-4: erewrite getattr_run by apply lookup_insert_eq; reflexivity.
  intros name H1 H2 H3 H4. erewrite getattr_run by apply lookup_insert_eq.
  unfold attr, attrs. by rewrite !lookup_insert_ne, lookup_empty.
Qed.

(** X5.  The constructors of the three subclasses all raise
    [TypeError]: [super(PatchExtractor, self).__init__] with keyword
    arguments reaches [object.__init__].  No attribute is set; all that
    is left is a new instance without attributes, which nothing refers
    to. *)
Theorem X5_subclass_constructors_raise σ :
  let σ' cls := {| heap := <[fresh (dom (heap σ)) := OInstance cls ∅]> (heap σ);
                   disk := disk σ; reads := reads σ |} in
  (∀ img_patch_h img_patch_w pad_y pad_x input_points num_examples_per_patch,
     PointsPatchExtractor img_patch_h img_patch_w pad_y pad_x input_points
       num_examples_per_patch σ
     = (inl TypeError, σ' C_PointsPatchExtractor))
  ∧ (∀ img_patch_h img_patch_w stride_h stride_w,
       FixedWindowPatchExtractor img_patch_h img_patch_w stride_h stride_w σ
       = (inl TypeError, σ' C_FixedWindowPatchExtractor))
  ∧ (∀ img_patch_h img_patch_w stride_h stride_w label_patch_h label_patch_w,
       VariableWindowPatchExtractor img_patch_h img_patch_w stride_h stride_w
         label_patch_h label_patch_w σ
       = (inl TypeError, σ' C_VariableWindowPatchExtractor)).
Proof.
  intros σ'. split_and!; intros.
  - apply PointsPatchExtractor_TypeError.
  - apply FixedWindowPatchExtractor_TypeError.
  - apply VariableWindowPatchExtractor_TypeError.
Qed.

(** X6.  [get_patch_extractor] never returns an extractor: for the three
    supported names (in any case) it raises the [TypeError] of the
    constructor, for every other name [MethodNotSupported]; no object
    that existed is changed. *)
Theorem X6_factory_never_returns method_name img_patch_h img_patch_w input_points pad_y pad_x σ :
  ∃ e σ',
    get_patch_extractor method_name img_patch_h img_patch_w input_points pad_y pad_x σ
    = (inl e, σ')
    ∧ heap σ ⊆ heap σ' ∧ disk σ' = disk σ ∧ reads σ' = reads σ
    ∧ ((e = TypeError
        ∧ (py.lower method_name = "point"%string
           ∨ py.lower method_name = "fixedwindow"%string
           ∨ py.lower method_name = "variablewindow"%string))
       ∨ (e = MethodNotSupported None
          ∧ py.lower method_name ≠ "point"%string
          ∧ py.lower method_name ≠ "fixedwindow"%string
          ∧ py.lower method_name ≠ "variablewindow"%string
          ∧ σ' = σ)).
Proof.
  unfold get_patch_extractor.
  destruct (decide (py.lower method_name = "point"%string)) as [E1|E1].
  { rewrite PointsPatchExtractor_TypeError. eexists _, _. split; [reflexivity|].
    cbn [heap disk reads]. split_and!; try done; [apply alloc_subseteq|]. left. auto. }
  destruct (decide (py.lower method_name = "fixedwindow"%string)) as [E2|E2].
  { rewrite FixedWindowPatchExtractor_TypeError. eexists _, _. split; [reflexivity|].
    cbn [heap disk reads]. split_and!; try done; [apply alloc_subseteq|]. left. auto. }
  destruct (decide (py.lower method_name = "variablewindow"%string)) as [E3|E3].
  { rewrite VariableWindowPatchExtractor_TypeError. eexists _, _. split; [reflexivity|].
    cbn [heap disk reads]. split_and!; try done; [apply alloc_subseteq|]. left. auto. }
  eexists _, _. split; [reflexivity|]. split_and!; try done. right. done.
Qed.

(** ** extract_patches on any configured receiver *)

Lemma offset_bounds_sqrt n :
  1 ≤ n → offset_bounds n = (- (Z.sqrt n / 2), Z.sqrt n + - (Z.sqrt n / 2)).
Proof.
  intros Hn. unfold offset_bounds, np.isqrt. destruct (1 <? n) eqn:E; [done|].
  apply Z.ltb_ge in E. by replace n with 1 by lia.
Qed.

Lemma offset_bounds_le n : n ≤ 1 → offset_bounds n = (0, 1).
Proof. intros Hn. unfold offset_bounds. destruct (1 <? n) eqn:E; [lia|done]. Qed.

Lemma range_cons a b : a < b → range a b = a :: range (a + 1) b.
Proof.
  intros Hab. unfold range.
  replace (Z.to_nat (b - a)) with (S (Z.to_nat (b - (a + 1)))) by lia.
  cbn [seq fmap list_fmap]. rewrite <- fmap_S_seq, <- list_fmap_compose.
  f_equal; [lia|]. apply list_fmap_ext. intros _ j _. simpl. lia.
Qed.

Lemma range_nil a b : b ≤ a → range a b = [].
Proof. intros Hab. unfold range. by replace (Z.to_nat (b - a)) with 0%nat by lia. Qed.

Lemma getitem_cell (a : ndarray) (N K : nat) p k :
  shape a = [N; K] → 0 ≤ k < Z.of_nat K →
  np.getitem (np.row a p) k = inr (Scalar (item a [p; k])).
Proof.
  intros Ha Hk. unfold np.getitem, np.row. cbn [shape item]. rewrite Ha. cbn [tail].
  rewrite index_ok by lia. by rewrite Z2Nat.id by lia.
Qed.

Section GridG.
Context (f : frame) (s : Z) (sub : list nat) (hp wp dp : nat).
Hypothesis Hs : 0 < s.
Hypothesis Hob : offset_bounds (f_n f) = (- (s / 2), s + - (s / 2)).
Hypothesis Hle : s * s ≤ f_n f.
Hypothesis Hzeros : shape (f_zeros f) = Z.to_nat (f_len f * f_n f) :: sub.
Hypothesis Hpadded : shape (f_padded f) = [hp; wp; dp].

Local Abbreviation pos p a b := (p * (s * s) + a * s + b)%Z.
Local Abbreviation start := (- (s / 2)).
Local Abbreviation W p := (write_patch_fun (f_padded f) (f_patch_h f) (f_patch_w f)
  (Scalar (item (f_points f) [p%Z; 0]))
  [Scalar (item (f_points f) [p%Z; 2] + f_pad_y f + -1);
   Scalar (item (f_points f) [p%Z; 1] + f_pad_x f + -1)] (p + 1)).

Lemma grid_side_eq : grid_side (f_n f) = s.
Proof. unfold grid_side. rewrite Hob. lia. Qed.

Lemma per_point_eq : per_point (f_n f) = s * s.
Proof. unfold per_point. by rewrite grid_side_eq. Qed.

Lemma grid_coords p a b :
  0 ≤ a < s → 0 ≤ b < s →
  pos p a b / per_point (f_n f) = p
  ∧ grid_offset (f_n f) (pos p a b) = (start + a, start + b).
Proof.
  intros Ha Hb.
  assert (Hq : 0 ≤ a * s + b < s * s) by nia.
  assert (Hdiv : pos p a b / (s * s) = p).
  { symmetry. apply (Z.div_unique _ _ _ (a * s + b)); lia. }
  assert (Hmod : pos p a b mod (s * s) = a * s + b).
  { symmetry. apply (Z.mod_unique _ _ p); lia. }
  rewrite per_point_eq. split; [done|].
  unfold grid_offset. rewrite Hob, per_point_eq, grid_side_eq, Hmod.
  f_equal; f_equal.
  - symmetry. apply (Z.div_unique _ _ _ b); lia.
  - symmetry. apply (Z.mod_unique _ _ a); lia.
Qed.

Lemma grid_slice_pos p a b :
  0 ≤ a < s → 0 ≤ b < s →
  grid_slice f (pos p a b)
  = np.getslice2 (f_padded f)
      (Scalar (item (f_points f) [p; 2] + f_pad_y f + -1 + - (start + a)
               + - py.int_half (f_patch_h f - 1)))
      (Scalar (item (f_points f) [p; 2] + f_pad_y f + -1 + - (start + a)
               + - py.int_half (f_patch_h f - 1) + f_patch_h f))
      (Scalar (item (f_points f) [p; 1] + f_pad_x f + -1 + - (start + b)
               + - py.int_half (f_patch_w f - 1)))
      (Scalar (item (f_points f) [p; 1] + f_pad_x f + -1 + - (start + b)
               + - py.int_half (f_patch_w f - 1) + f_patch_w f)).
Proof.
  intros Ha Hb. unfold grid_slice, grid_window.
  destruct (grid_coords p a b Ha Hb) as [-> ->]. cbn [fst snd].
  repeat f_equal; lia.
Qed.

Lemma getslice2_scalars sh eh sw ew :
  ∃ v, np.getslice2 (f_padded f) (Scalar sh) (Scalar eh) (Scalar sw) (Scalar ew) = inr v.
Proof.
  unfold np.getslice2. rewrite Hpadded.
  destruct (py.slice_indices hp sh eh), (py.slice_indices wp sw ew). eauto.
Qed.

Lemma filled_to_fits t o j : filled_to f t o → 0 ≤ j < t → slice_fits f j = true.
Proof.
  intros (_ & _ & _ & Hst & _) Hj. destruct (Hst j Hj) as (_ & _ & v & Hv & Hb & _).
  unfold slice_fits. by rewrite Hv.
Qed.

Lemma write_step_g p a b o :
  0 ≤ p < f_len f → 0 ≤ a < s → 0 ≤ b < s →
  filled_to f (pos p a b) o →
  match W p (start + a) (start + b) (pos p a b) o with
  | (inr t', o') => t' = pos p a b + 1 ∧ filled_to f (pos p a b + 1) o'
  | (inl e, o') => e = ValueError ∧ stops_at f (pos p a b)
  end.
Proof.
  intros Hp Ha Hb Hprog.
  pose proof Hprog as (Hl & Hc & Hsh & Hst & Hun).
  assert (Hi : 0 ≤ pos p a b < f_len f * (s * s)) by nia.
  assert (Hi' : pos p a b < f_len f * f_n f) by nia.
  destruct (grid_coords p a b Ha Hb) as [Hdiv _].
  unfold write_patch_fun. cbn [lookup_total list_lookup_total np.add].
  rewrite bind_run. unfold set_label at 1. rewrite list_setitem_ok by lia.
  rewrite bind_run. unfold set_id at 1. cbn [out_ids out_labels out_patches].
  rewrite list_setitem_ok by lia.
  rewrite bind_run. unfold lift at 1.
  rewrite <- grid_slice_pos by done.
  destruct (grid_slice f (pos p a b)) as [e|v] eqn:Hv.
  { rewrite grid_slice_pos in Hv by done.
    destruct (getslice2_scalars
      (item (f_points f) [p; 2] + f_pad_y f + -1 + - (start + a) + - py.int_half (f_patch_h f - 1))
      (item (f_points f) [p; 2] + f_pad_y f + -1 + - (start + a) + - py.int_half (f_patch_h f - 1)
       + f_patch_h f)
      (item (f_points f) [p; 1] + f_pad_x f + -1 + - (start + b) + - py.int_half (f_patch_w f - 1))
      (item (f_points f) [p; 1] + f_pad_x f + -1 + - (start + b) + - py.int_half (f_patch_w f - 1)
       + f_patch_w f)) as [v Hv'].
    congruence. }
  rewrite bind_run. unfold set_patch at 1. cbn [out_ids out_labels out_patches].
  unfold np.setitem. rewrite Hsh, Hzeros, index_ok by lia.
  destruct (np.broadcastable (shape v) sub) eqn:Hbc.
  - unfold ret. split; [done|]. unfold filled_to. cbn [out_ids out_labels out_patches]. split_and!.
    + by rewrite length_insert.
    + by rewrite length_insert.
    + cbn [shape]. by rewrite Hzeros.
    + intros i Hi''. destruct (decide (i = pos p a b)) as [->|Hne].
      * unfold stored. cbn [out_ids out_labels out_patches item]. rewrite Hdiv.
        rewrite !list_lookup_insert_eq by lia. split_and!; try done.
        exists v. rewrite Hzeros. cbn [tail]. split_and!; try done.
        intros rest. rewrite Z2Nat.id by lia. by rewrite Z.eqb_refl.
      * destruct (Hst i) as (Hl1 & Hc1 & v' & Hv1 & Hb1 & Hitem); [lia|].
        unfold stored. cbn [out_ids out_labels out_patches item].
        rewrite !list_lookup_insert_ne by lia.
        split_and!; try done. exists v'. split_and!; try done.
        intros rest. rewrite Z2Nat.id by lia.
        destruct (i =? pos p a b) eqn:E; [apply Z.eqb_eq in E; done|]. apply Hitem.
    + intros i Hi''. destruct (Hun i) as (Hl1 & Hc1 & Hitem); [lia|].
      unfold untouched. cbn [out_ids out_labels out_patches item].
      rewrite !list_lookup_insert_ne by lia. split_and!; try done.
      intros rest. rewrite Z2Nat.id by lia.
      destruct (i =? pos p a b) eqn:E; [apply Z.eqb_eq in E; lia|]. apply Hitem.
  - split; [done|]. unfold stops_at. rewrite per_point_eq. split_and!; try lia.
    + unfold slice_fits. rewrite Hv, Hzeros. done.
    + intros j Hj. by eapply filled_to_fits.
Qed.

Lemma row_rule_g p a o :
  0 ≤ p < f_len f → 0 ≤ a < s → filled_to f (pos p a 0) o →
  match for_ (range start (s + start)) (W p (start + a)) (pos p a 0) o with
  | (inr t, o') => t = pos p (a + 1) 0 ∧ filled_to f t o'
  | (inl e, o') => e = ValueError ∧ ∃ i, stops_at f i
  end.
Proof.
  intros Hp Ha Hf.
  pose proof (for_rule (λ k t o, t = pos p a (Z.of_nat k) ∧ filled_to f t o)
    (range start (s + start)) (W p (start + a)) (pos p a 0) o) as H.
  assert (H0 : pos p a 0 = pos p a (Z.of_nat 0) ∧ filled_to f (pos p a 0) o).
  { split; [lia|done]. }
  specialize (H H0). clear H0.
  assert (Hstep : ∀ (k : nat) w t1 o1 t2 o2,
    range start (s + start) !! k = Some w →
    t1 = pos p a (Z.of_nat k) ∧ filled_to f t1 o1 →
    W p (start + a) w t1 o1 = (inr t2, o2) →
    t2 = pos p a (Z.of_nat (S k)) ∧ filled_to f t2 o2).
  { intros k w t1 o1 t2 o2 Hk [-> Hf1] Hrun.
    apply lookup_range in Hk as [-> Hk].
    pose proof (write_step_g p a (Z.of_nat k) o1 Hp Ha ltac:(lia) Hf1) as Hw.
    rewrite Hrun in Hw. destruct Hw as [-> ?]. split; [lia|done]. }
  specialize (H Hstep). clear Hstep.
  destruct (for_ _ _ _ _) as [[e|t1] o'].
  - destruct H as (k & w & t1 & o1 & Hk & [-> Hf1] & Hrun).
    apply lookup_range in Hk as [-> Hk].
    pose proof (write_step_g p a (Z.of_nat k) o1 Hp Ha ltac:(lia) Hf1) as Hw.
    rewrite Hrun in Hw. destruct Hw as [-> ?]. eauto.
  - destruct H as [-> Hf1]. rewrite range_length in *.
    replace (pos p a (Z.of_nat (Z.to_nat (s + start - start)))) with (pos p (a + 1) 0) in * by lia.
    done.
Qed.

Lemma point_rule_g p o :
  0 ≤ p < f_len f → filled_to f (pos p 0 0) o →
  match for_ (range start (s + start))
          (λ h, for_ (range start (s + start)) (W p h)) (pos p 0 0) o with
  | (inr t, o') => t = pos (p + 1) 0 0 ∧ filled_to f t o'
  | (inl e, o') => e = ValueError ∧ ∃ i, stops_at f i
  end.
Proof.
  intros Hp Hf.
  pose proof (for_rule (λ k t o, t = pos p (Z.of_nat k) 0 ∧ filled_to f t o)
    (range start (s + start))
    (λ h, for_ (range start (s + start)) (W p h)) (pos p 0 0) o) as H.
  assert (H0 : pos p 0 0 = pos p (Z.of_nat 0) 0 ∧ filled_to f (pos p 0 0) o).
  { split; [lia|done]. }
  specialize (H H0). clear H0.
  assert (Hstep : ∀ (k : nat) h t1 o1 t2 o2,
    range start (s + start) !! k = Some h →
    t1 = pos p (Z.of_nat k) 0 ∧ filled_to f t1 o1 →
    for_ (range start (s + start)) (W p h) t1 o1 = (inr t2, o2) →
    t2 = pos p (Z.of_nat (S k)) 0 ∧ filled_to f t2 o2).
  { intros k h t1 o1 t2 o2 Hk [-> Hf1] Hrun.
    apply lookup_range in Hk as [-> Hk].
    pose proof (row_rule_g p (Z.of_nat k) o1 Hp ltac:(lia) Hf1) as Hrow.
    rewrite Hrun in Hrow. destruct Hrow as [-> ?]. split; [lia|done]. }
  specialize (H Hstep). clear Hstep.
  destruct (for_ _ _ _ _) as [[e|t1] o'].
  - destruct H as (k & h & t1 & o1 & Hk & [-> Hf1] & Hrun).
    apply lookup_range in Hk as [-> Hk].
    pose proof (row_rule_g p (Z.of_nat k) o1 Hp ltac:(lia) Hf1) as Hrow.
    rewrite Hrun in Hrow. done.
  - destruct H as [-> Hf1]. rewrite range_length in *.
    replace (pos p (Z.of_nat (Z.to_nat (s + start - start))) 0) with (pos (p + 1) 0 0)
      in * by lia.
    done.
Qed.

Context (N K : nat).
Hypothesis Hpts : shape (f_points f) = [N; K].
Hypothesis HK : (3 ≤ K)%nat.
Hypothesis Hlen : f_len f = Z.of_nat N.

Lemma extract_point_rule_g p o :
  0 ≤ p < f_len f → filled_to f (pos p 0 0) o →
  match extract_point_fun (f_points f) (f_padded f) (f_pad_y f) (f_pad_x f) (f_n f)
          (f_patch_h f) (f_patch_w f) p (p + 1, pos p 0 0) o with
  | (inr st, o') => st = (p + 1 + 1, pos (p + 1) 0 0) ∧ filled_to f (pos (p + 1) 0 0) o'
  | (inl e, o') => e = ValueError ∧ ∃ i, stops_at f i
  end.
Proof.
  intros Hp Hf. unfold extract_point_fun.
  rewrite bind_run, (getitem_cell _ N K p 0 Hpts) by lia. unfold lift at 1.
  rewrite bind_run, (getitem_cell _ N K p 2 Hpts) by lia. unfold lift at 1.
  rewrite bind_run, (getitem_cell _ N K p 1 Hpts) by lia. unfold lift at 1.
  rewrite Hob.
  cbn [np.add fst snd]. rewrite bind_run.
  pose proof (point_rule_g p o Hp Hf) as H.
  destruct (for_ _ _ _ _) as [[e|t1] o']; [done|].
  by destruct H as [-> ?].
Qed.

Lemma filled_to_init : filled_to f 0 (init_outs f).
Proof.
  unfold filled_to, init_outs, blanks. cbn [out_labels out_ids out_patches].
  rewrite !length_replicate. split_and!; try done. intros i ?. lia.
Qed.

Lemma fill_rule_g :
  match fill f (init_outs f) with
  | (inr st, o) =>
      st = (f_len f + 1, f_len f * (s * s)) ∧ filled_to f (f_len f * (s * s)) o
  | (inl e, o') => e = ValueError ∧ ∃ i, stops_at f i
  end.
Proof.
  unfold fill.
  pose proof (for_rule
    (λ k st o, st = (Z.of_nat k + 1, pos (Z.of_nat k) 0 0) ∧ filled_to f (pos (Z.of_nat k) 0 0) o)
    (range 0 (f_len f))
    (extract_point_fun (f_points f) (f_padded f) (f_pad_y f) (f_pad_x f) (f_n f)
       (f_patch_h f) (f_patch_w f)) (1, 0) (init_outs f)) as H.
  assert (H0 : (1, 0) = (Z.of_nat 0 + 1, pos (Z.of_nat 0) 0 0)
               ∧ filled_to f (pos (Z.of_nat 0) 0 0) (init_outs f)).
  { split; [done|]. apply filled_to_init. }
  specialize (H H0). clear H0.
  assert (Hstep : ∀ (k : nat) p st1 o1 st2 o2,
    range 0 (f_len f) !! k = Some p →
    st1 = (Z.of_nat k + 1, pos (Z.of_nat k) 0 0) ∧ filled_to f (pos (Z.of_nat k) 0 0) o1 →
    extract_point_fun (f_points f) (f_padded f) (f_pad_y f) (f_pad_x f) (f_n f)
      (f_patch_h f) (f_patch_w f) p st1 o1 = (inr st2, o2) →
    st2 = (Z.of_nat (S k) + 1, pos (Z.of_nat (S k)) 0 0)
    ∧ filled_to f (pos (Z.of_nat (S k)) 0 0) o2).
  { intros k p st1 o1 st2 o2 Hk [-> Hf1] Hrun.
    apply lookup_range in Hk as [-> Hk]. rewrite Z.add_0_l in Hrun.
    pose proof (extract_point_rule_g (Z.of_nat k) o1 ltac:(lia) Hf1) as Hp.
    rewrite Hrun in Hp. destruct Hp as [-> Hf2].
    replace (Z.of_nat (S k)) with (Z.of_nat k + 1) by lia. done. }
  specialize (H Hstep). clear Hstep.
  destruct (for_ _ _ _ _) as [[e|st] o'].
  - destruct H as (k & p & st1 & o1 & Hk & [-> Hf1] & Hrun).
    apply lookup_range in Hk as [-> Hk]. rewrite Z.add_0_l in Hrun.
    pose proof (extract_point_rule_g (Z.of_nat k) o1 ltac:(lia) Hf1) as Hp.
    rewrite Hrun in Hp. done.
  - destruct H as [-> Hf1]. rewrite range_length in *.
    replace (Z.of_nat (Z.to_nat (f_len f - 0))) with (f_len f) in * by lia.
    replace (pos (f_len f) 0 0) with (f_len f * (s * s)) in * by lia. done.
Qed.
End GridG.

(** ** Calls on a configured receiver *)

Lemma prepare_has_config attrs c points img :
  has_config attrs c →
  prepare attrs (inr points) (inr img) = prepare_config c points img.
Proof.
  intros (Hah & Haw & Hay & Hax & Han). unfold prepare, prepare_config. cbn [mbind exn_bind].
  rewrite (attr_lookup _ _ _ Hah), (attr_lookup _ _ _ Haw),
    (attr_lookup _ _ _ Hay), (attr_lookup _ _ _ Hax). cbn [mbind exn_bind].
  rewrite (int_attr_lookup _ _ _ Hay), (int_attr_lookup _ _ _ Hax). cbn [mbind exn_bind].
  destruct (np.pad_symmetric _ _ _) as [?|padded]; [done|]. cbn [mbind exn_bind].
  destruct (np.len points) as [?|len_points]; [done|]. cbn [mbind exn_bind].
  rewrite (int_attr_lookup _ _ _ Han), (int_attr_lookup _ _ _ Hah),
    (int_attr_lookup _ _ _ Haw). cbn [mbind exn_bind]. done.
Qed.

Lemma configured_spec σ self input_img c points img :
  configured σ self input_img c points img →
  extract_spec σ self input_img = extract_config c points img.
Proof.
  intros [(cls & attrs & v & Hs & Hc & Hv & Hp) Hi].
  unfold extract_spec, points_of, attrs_of. rewrite Hs, Hi. cbn [default].
  rewrite (attr_lookup _ _ _ Hv). cbn [mbind exn_bind]. rewrite Hp.
  unfold extract_fun, extract_config. rewrite (prepare_has_config _ _ _ _ Hc).
  destruct (prepare_config c points img); done.
Qed.

Lemma configured_run σ self input_img c points img :
  configured σ self input_img c points img →
  ∃ r σ', extract_patches self input_img σ = (r, σ')
    ∧ agrees r σ' (extract_config c points img)
    ∧ heap σ ⊆ heap σ' ∧ disk σ' = disk σ.
Proof.
  intros Hc. destruct (extract_patches_run σ self input_img)
    as (r & σ' & Hrun & Hag & Hsub & Hdisk & _).
  rewrite (configured_spec _ _ _ _ _ _ Hc) in Hag. eauto 10.
Qed.

Lemma configured_raises σ self input_img c points img e :
  configured σ self input_img c points img →
  extract_config c points img = inl e →
  ∃ σ', extract_patches self input_img σ = (inl e, σ') ∧ heap σ ⊆ heap σ'.
Proof.
  intros Hc He. destruct (configured_run _ _ _ _ _ _ Hc) as (r & σ' & Hrun & Hag & Hsub & _).
  rewrite He in Hag. destruct r as [e'|[[? ?] ?]]; [|done]. simpl in Hag. subst e'. eauto.
Qed.

Lemma configured_returns σ self input_img c points img o :
  configured σ self input_img c points img →
  extract_config c points img = inr o →
  ∃ p l k σ', extract_patches self input_img σ = (inr (p, l, k), σ')
    ∧ deref σ' p = Some (ONdarray (out_patches o))
    ∧ deref σ' l = Some (OList (out_labels o))
    ∧ deref σ' k = Some (OList (out_ids o)).
Proof.
  intros Hc He. destruct (configured_run _ _ _ _ _ _ Hc) as (r & σ' & Hrun & Hag & Hsub & _).
  rewrite He in Hag. destruct r as [e'|[[p l] k]]; [done|]. eauto 10.
Qed.

Lemma configured_result σ self input_img c points img p l k σ' :
  configured σ self input_img c points img →
  extract_patches self input_img σ = (inr (p, l, k), σ') →
  ∃ o, extract_config c points img = inr o
    ∧ deref σ' p = Some (ONdarray (out_patches o))
    ∧ deref σ' l = Some (OList (out_labels o))
    ∧ deref σ' k = Some (OList (out_ids o)).
Proof.
  intros Hc Hrun'. destruct (configured_run _ _ _ _ _ _ Hc) as (r & σ1 & Hrun & Hag & Hsub & _).
  rewrite Hrun' in Hrun. simplify_eq.
  destruct (extract_config c points img) as [?|o]; [done|]. eauto.
Qed.

Lemma pad_shaped c img (h w d : nat) :
  shape img = [h; w; d] → (0 < h)%nat → (0 < w)%nat →
  0 ≤ cfg_pad_y c → 0 ≤ cfg_pad_x c →
  np.pad_symmetric img (cfg_pad_y c) (cfg_pad_x c) = inr (padded_of c img)
  ∧ shape (padded_of c img)
    = [(h + 2 * Z.to_nat (cfg_pad_y c))%nat; (w + 2 * Z.to_nat (cfg_pad_x c))%nat; d].
Proof.
  intros Himg Hh Hw Hpy Hpx.
  unfold padded_of, np.pad_symmetric. rewrite Himg.
  destruct (cfg_pad_y c <? 0) eqn:E1; [lia|].
  destruct (cfg_pad_x c <? 0) eqn:E2; [lia|].
  destruct (h =? 0)%nat eqn:E3; [apply Nat.eqb_eq in E3; lia|].
  destruct (w =? 0)%nat eqn:E4; [apply Nat.eqb_eq in E4; lia|].
  done.
Qed.

Lemma zeros_shaped c points img (N : nat) rest (hp wp d : nat) :
  shape points = N :: rest →
  shape (padded_of c img) = [hp; wp; d] →
  0 ≤ cfg_patch_h c → 0 ≤ cfg_patch_w c → 0 ≤ Z.of_nat N * cfg_n c →
  np.zeros [len_of points * cfg_n c; cfg_patch_h c; cfg_patch_w c;
            Z.of_nat (shape (padded_of c img) !!! 2%nat)]
  = inr (f_zeros (frame_of c points img))
  ∧ shape (f_zeros (frame_of c points img))
    = Z.to_nat (len_of points * cfg_n c)
        :: [Z.to_nat (cfg_patch_h c); Z.to_nat (cfg_patch_w c); d]
  ∧ ∀ idx, item (f_zeros (frame_of c points img)) idx = 0.
Proof.
  intros Hpoints Hsh Hph Hpw Hn. unfold frame_of. cbn [f_zeros]. rewrite Hsh.
  cbn [lookup_total list_lookup_total]. unfold np.zeros, len_of. rewrite Hpoints. cbn [hd forallb].
  rewrite !(proj2 (Z.leb_le 0 _)) by lia.
  cbn [andb the_array shape fmap list_fmap item]. by rewrite Nat2Z.id.
Qed.

Lemma prepare_shaped c points img (N : nat) rest (h w d : nat) :
  shape points = N :: rest →
  shape img = [h; w; d] → (0 < h)%nat → (0 < w)%nat →
  0 ≤ cfg_pad_y c → 0 ≤ cfg_pad_x c →
  0 ≤ cfg_patch_h c → 0 ≤ cfg_patch_w c → 0 ≤ Z.of_nat N * cfg_n c →
  prepare_config c points img = inr (frame_of c points img).
Proof.
  intros Hpoints Himg Hh Hw Hpy Hpx Hph Hpw Hn.
  destruct (pad_shaped c img h w d) as [Hpad Hsh]; try done.
  unfold prepare_config. rewrite Hpad. cbn [mbind exn_bind].
  unfold np.len. rewrite Hpoints. cbn [mbind exn_bind].
  destruct (zeros_shaped c points img N rest _ _ d Hpoints Hsh) as (Hz & _); try done.
  unfold len_of in Hz. rewrite Hpoints in Hz. cbn [hd] in Hz.
  rewrite Hz. cbn [mbind exn_bind]. cbv [frame_of len_of f_zeros]. rewrite Hpoints. reflexivity.
Qed.

Lemma grid_side_sqrt n : 1 ≤ n → grid_side n = Z.sqrt n.
Proof. intros Hn. unfold grid_side. rewrite offset_bounds_sqrt by done. lia. Qed.

Lemma per_point_sqrt n : 1 ≤ n → per_point n = Z.sqrt n * Z.sqrt n.
Proof. intros Hn. unfold per_point. by rewrite grid_side_sqrt. Qed.

Lemma sqrt_bounds n : 1 ≤ n → 0 < Z.sqrt n ∧ Z.sqrt n * Z.sqrt n ≤ n.
Proof.
  intros Hn. pose proof (Z.sqrt_spec n ltac:(lia)) as H. cbv zeta in H.
  pose proof (Z.sqrt_nonneg n). split; [|lia].
  destruct (decide (Z.sqrt n = 0)) as [E|]; [|lia]. rewrite E in H. lia.
Qed.

(** The loops of a well-shaped call. *)
Lemma well_shaped_fill σ self input_img c points img :
  well_shaped σ self input_img c points img →
  let f := frame_of c points img in
  let m := Z.sqrt (cfg_n c) * Z.sqrt (cfg_n c) in
  extract_config c points img = fill_result f
  ∧ match fill f (init_outs f) with
    | (inr st, o) => filled_to f (len_of points * m) o
    | (inl e, _) => e = ValueError ∧ ∃ i, stops_at f i
    end.
Proof.
  intros (Hc & (N & K & Hpts & HK) & (h & w & d & Himg & ? & ?) & ? & ? & ? & ? & Hn) f m.
  destruct (sqrt_bounds _ Hn) as [Hs Hle].
  assert (Hlen : f_len f = Z.of_nat N).
  { unfold f, frame_of, len_of. cbn [f_len]. by rewrite Hpts. }
  destruct (pad_shaped c img h w d) as [_ Hpad]; try done.
  destruct (zeros_shaped c points img N [K] _ _ d Hpts Hpad) as (_ & Hz & _); try done; try nia.
  split.
  { unfold extract_config.
    rewrite (prepare_shaped c points img N [K] h w d); try done. nia. }
  pose proof (fill_rule_g f (Z.sqrt (cfg_n c)) _ _ _ _ Hs
                (offset_bounds_sqrt _ Hn) Hle Hz Hpad N K Hpts HK Hlen) as Hrule.
  destruct (fill f (init_outs f)) as [[e|st] o]; [done|].
  destruct Hrule as [_ Hrule]. unfold m, len_of. rewrite Hpts. cbn [hd].
  by rewrite <- Hlen.
Qed.

Lemma elem_of_range a b x : x ∈ range a b ↔ a ≤ x < b.
Proof.
  rewrite list_elem_of_lookup. split.
  - intros [k Hk]. apply lookup_range in Hk. lia.
  - intros Hx. exists (Z.to_nat (x - a)). apply lookup_range. lia.
Qed.

Lemma slices_fit_true f :
  slices_fit f = true ↔ ∀ i, 0 ≤ i < f_len f * per_point (f_n f) → slice_fits f i = true.
Proof.
  unfold slices_fit. rewrite forallb_forall. split.
  - intros H i Hi. apply H, list_elem_of_In, elem_of_range. done.
  - intros H i Hi. apply H. by apply list_elem_of_In, elem_of_range in Hi.
Qed.

Lemma stops_at_not_fit f i : stops_at f i → slices_fit f = false.
Proof.
  intros (Hi & Hno & _). destruct (slices_fit f) eqn:E; [|done].
  rewrite slices_fit_true in E. rewrite E in Hno by done. done.
Qed.

Lemma well_shaped_cases σ self input_img c points img :
  well_shaped σ self input_img c points img →
  let f := frame_of c points img in
  (∃ o, extract_config c points img = inr o
        ∧ filled_to f (len_of points * (Z.sqrt (cfg_n c) * Z.sqrt (cfg_n c))) o
        ∧ slices_fit f = true)
  ∨ (extract_config c points img = inl ValueError ∧ slices_fit f = false).
Proof.
  intros Hw f. destruct (well_shaped_fill _ _ _ _ _ _ Hw) as [-> Hfill].
  fold f in Hfill |- *. unfold fill_result.
  destruct Hw as (_ & _ & _ & _ & _ & _ & _ & Hn).
  destruct (fill f (init_outs f)) as [[e|st] o].
  - right. destruct Hfill as [-> [i Hi]]. split; [done|]. by eapply stops_at_not_fit.
  - left. exists o. split_and!; try done. apply slices_fit_true. intros i Hi.
    destruct Hfill as (_ & _ & _ & Hst & _).
    change (f_n f) with (cfg_n c) in Hi. rewrite per_point_sqrt in Hi by done.
    destruct (Hst i) as (_ & _ & v & Hv & Hb & _).
    { unfold f, frame_of in Hi. cbn [f_len] in Hi. lia. }
    unfold slice_fits. by rewrite Hv.
Qed.

Lemma well_shaped_result σ self input_img c points img p l k σ' :
  well_shaped σ self input_img c points img →
  extract_patches self input_img σ = (inr (p, l, k), σ') →
  ∃ o, deref σ' p = Some (ONdarray (out_patches o))
       ∧ deref σ' l = Some (OList (out_labels o))
       ∧ deref σ' k = Some (OList (out_ids o))
       ∧ filled_to (frame_of c points img)
           (len_of points * (Z.sqrt (cfg_n c) * Z.sqrt (cfg_n c))) o.
Proof.
  intros Hw Hrun.
  destruct (configured_result _ _ _ _ _ _ _ _ _ _ (proj1 Hw) Hrun) as (o & Ho & ? & ? & ?).
  destruct (well_shaped_cases _ _ _ _ _ _ Hw) as [(o' & Ho' & Hprog & _)|[He _]].
  - exists o. split_and!; try done. congruence.
  - congruence.
Qed.

(** ** The examples *)

Lemma store_of_configured c points img :
  configured (store_of c points img) (VRef 0%nat) (VRef 2%nat) c points img.
Proof.
  split; [|reflexivity].
  exists C_PointsPatchExtractor, (example_attrs c (VRef 1%nat)), (VRef 1%nat).
  split_and!; try reflexivity. unfold has_config. split_and!; reflexivity.
Qed.

Lemma store_of_well_shaped c rows (h w d : nat) :
  (0 < h)%nat → (0 < w)%nat →
  0 ≤ cfg_patch_h c → 0 ≤ cfg_patch_w c → 0 ≤ cfg_pad_y c → 0 ≤ cfg_pad_x c →
  1 ≤ cfg_n c →
  well_shaped (store_of c (example_points rows) (example_image h w d))
    (VRef 0%nat) (VRef 2%nat) c (example_points rows) (example_image h w d).
Proof.
  intros. split_and!; try done.
  - apply store_of_configured.
  - exists (length rows), 3%nat. split; [done|lia].
  - by exists h, w, d.
Qed.

Lemma run_of_eq c rows :
  (run_of c rows).1 = inr (VRef 4%nat, VRef 5%nat, VRef 6%nat) →
  run_of c rows = (inr (VRef 4%nat, VRef 5%nat, VRef 6%nat), (run_of c rows).2).
Proof. intros H. rewrite (surjective_pairing (run_of c rows)) at 1. by rewrite H. Qed.

(** X7.  The shape of the result: for a call that returns, the patches
    array has shape [(len(points) * n, patch_h, patch_w, channels)] with
    the channels of the image, and the two lists have
    [len(points) * n] entries, for any [n >= 1]. *)
Theorem X7_result_shape σ self input_img c points img p l k σ' (h w d : nat) :
  well_shaped σ self input_img c points img →
  extract_patches self input_img σ = (inr (p, l, k), σ') →
  shape img = [h; w; d] →
  ∃ patches labels ids,
    deref σ' p = Some (ONdarray patches)
    ∧ deref σ' l = Some (OList labels)
    ∧ deref σ' k = Some (OList ids)
    ∧ shape patches
      = [Z.to_nat (len_of points * cfg_n c); Z.to_nat (cfg_patch_h c);
         Z.to_nat (cfg_patch_w c); d]
    ∧ length labels = Z.to_nat (len_of points * cfg_n c)
    ∧ length ids = Z.to_nat (len_of points * cfg_n c).
Proof.
  intros Hw Hrun Himg.
  destruct (well_shaped_result _ _ _ _ _ _ _ _ _ _ Hw Hrun)
    as (o & Hp & Hl & Hk & (Hll & Hlk & Hsh & _)).
  exists (out_patches o), (out_labels o), (out_ids o). split_and!; try done.
  destruct Hw as (_ & (N & K & Hpts & _) & (h' & w' & d' & Himg' & ? & ?) & ? & ? & ? & ? & ?).
  assert (d' = d) as -> by congruence.
  destruct (pad_shaped c img h' w' d) as [_ Hpad]; try done.
  destruct (zeros_shaped c points img N [K] _ _ d Hpts Hpad) as (_ & Hz & _); try done; [nia|].
  by rewrite Hsh, Hz.
Qed.

(** X7, witness: two points with five examples each give ten patches of
    3 x 3 x 1. *)
Lemma X7_result_shape_witness :
  well_shaped (store_of ragged_config (example_points example_rows) (example_image 3 3 1))
    (VRef 0%nat) (VRef 2%nat) ragged_config (example_points example_rows) (example_image 3 3 1)
  ∧ run_of ragged_config example_rows
    = (inr (VRef 4%nat, VRef 5%nat, VRef 6%nat), (run_of ragged_config example_rows).2)
  ∧ shape (example_image 3 3 1) = [3%nat; 3%nat; 1%nat]
  ∧ ∃ patches,
      deref (run_of ragged_config example_rows).2 (VRef 4%nat) = Some (ONdarray patches)
      ∧ shape patches = [10%nat; 3%nat; 3%nat; 1%nat].
Proof.
  assert (Hw : well_shaped
    (store_of ragged_config (example_points example_rows) (example_image 3 3 1))
    (VRef 0%nat) (VRef 2%nat) ragged_config (example_points example_rows) (example_image 3 3 1)).
  { apply store_of_well_shaped; solve [lia | cbn; lia]. }
  assert (Hrun : run_of ragged_config example_rows
    = (inr (VRef 4%nat, VRef 5%nat, VRef 6%nat), (run_of ragged_config example_rows).2)).
  { apply run_of_eq. vm_compute. reflexivity. }
  split; [exact Hw|]. split; [exact Hrun|]. split; [reflexivity|].
  destruct (X7_result_shape _ _ _ _ _ _ _ _ _ _ 3%nat 3%nat 1%nat Hw Hrun eq_refl)
    as (patches & labels & ids & Hp & _ & _ & Hsh & _).
  exists patches. split; [exact Hp|]. exact Hsh.
Defined.

(** X8.  The layout of the result for any [n >= 1].  With [r] the
    integer part of the square root of [n], each point fills [r * r]
    positions, one after the other: position [i] below
    [len(points) * r * r] holds the label of point [i / (r * r)] and the
    identifier [i / (r * r) + 1].  The positions from there up to
    [len(points) * n] are never written: they keep the placeholder
    [[]] in both lists and zeros in the patches.  (None are left when
    [n] is a perfect square.) *)
Theorem X8_layout σ self input_img c points img p l k σ' :
  well_shaped σ self input_img c points img →
  extract_patches self input_img σ = (inr (p, l, k), σ') →
  let n := cfg_n c in
  let m := Z.sqrt n * Z.sqrt n in
  ∃ patches labels ids,
    deref σ' p = Some (ONdarray patches)
    ∧ deref σ' l = Some (OList labels)
    ∧ deref σ' k = Some (OList ids)
    ∧ 0 < m ≤ n
    ∧ (∀ i, 0 ≤ i < len_of points * m →
         labels !! Z.to_nat i = Some (Val (Scalar (item points [i / m; 0])))
         ∧ ids !! Z.to_nat i = Some (Val (Scalar (i / m + 1))))
    ∧ (∀ i, len_of points * m ≤ i < len_of points * n →
         labels !! Z.to_nat i = Some Blank
         ∧ ids !! Z.to_nat i = Some Blank
         ∧ ∀ rest, item patches (i :: rest) = 0).
Proof.
  intros Hw Hrun n m.
  destruct (well_shaped_result _ _ _ _ _ _ _ _ _ _ Hw Hrun)
    as (o & Hp & Hl & Hk & (_ & _ & _ & Hst & Hun)).
  exists (out_patches o), (out_labels o), (out_ids o). split_and!; try done.
  - destruct Hw as (_ & _ & _ & _ & _ & _ & _ & Hn).
    destruct (sqrt_bounds _ Hn). unfold m, n. apply Z.mul_pos_pos; lia.
  - destruct Hw as (_ & _ & _ & _ & _ & _ & _ & Hn).
    destruct (sqrt_bounds _ Hn). unfold m, n. lia.
  - intros i Hi. destruct (Hst i Hi) as (Hlab & Hid & _).
    destruct Hw as (_ & _ & _ & _ & _ & _ & _ & Hn).
    cbn [frame_of f_n f_points] in Hlab, Hid. rewrite per_point_sqrt in Hlab, Hid by done.
    done.
  - intros i Hi. destruct (Hun i (proj1 Hi)) as (Hlab & Hid & Hitem).
    destruct Hw as (_ & (N & K & Hpts & _) & (h & w & d & Himg & ? & ?) & ? & ? & ? & ? & Hn).
    destruct (pad_shaped c img h w d) as [_ Hpad]; try done.
    destruct (zeros_shaped c points img N [K] _ _ d Hpts Hpad) as (_ & _ & Hz); try done; [nia|].
    assert (Hlen : 0 ≤ len_of points) by (unfold len_of; lia).
    destruct (sqrt_bounds _ Hn).
    assert (Hblank : blanks (len_of points * cfg_n c) !! Z.to_nat i = Some Blank).
    { unfold blanks. apply lookup_replicate. split; [done|]. fold n. nia. }
    split_and!.
    + rewrite Hlab. exact Hblank.
    + rewrite Hid. exact Hblank.
    + intros rest. rewrite Hitem. apply Hz.
Qed.

(** X8, witness: with five examples per point each point fills four
    positions; position 4 is the first of the second point (label 8,
    identifier 2) and position 8 is never written. *)
Lemma X8_layout_witness :
  well_shaped (store_of ragged_config (example_points example_rows) (example_image 3 3 1))
    (VRef 0%nat) (VRef 2%nat) ragged_config (example_points example_rows) (example_image 3 3 1)
  ∧ run_of ragged_config example_rows
    = (inr (VRef 4%nat, VRef 5%nat, VRef 6%nat), (run_of ragged_config example_rows).2)
  ∧ ∃ labels ids,
      deref (run_of ragged_config example_rows).2 (VRef 5%nat) = Some (OList labels)
      ∧ deref (run_of ragged_config example_rows).2 (VRef 6%nat) = Some (OList ids)
      ∧ labels !! 4%nat = Some (Val (Scalar 8))
      ∧ ids !! 4%nat = Some (Val (Scalar 2))
      ∧ labels !! 8%nat = Some Blank
      ∧ ids !! 8%nat = Some Blank.
Proof.
  assert (Hw : well_shaped
    (store_of ragged_config (example_points example_rows) (example_image 3 3 1))
    (VRef 0%nat) (VRef 2%nat) ragged_config (example_points example_rows) (example_image 3 3 1)).
  { apply store_of_well_shaped; solve [lia | cbn; lia]. }
  assert (Hrun : run_of ragged_config example_rows
    = (inr (VRef 4%nat, VRef 5%nat, VRef 6%nat), (run_of ragged_config example_rows).2)).
  { apply run_of_eq. vm_compute. reflexivity. }
  split; [exact Hw|]. split; [exact Hrun|].
  destruct (X8_layout _ _ _ _ _ _ _ _ _ _ Hw Hrun)
    as (patches & labels & ids & _ & Hl & Hk & _ & Hwritten & Hblank).
  exists labels, ids. split; [exact Hl|]. split; [exact Hk|].
  destruct (Hwritten 4 ltac:(decide_cmp)) as [Hl4 Hk4].
  destruct (Hblank 8 ltac:(decide_cmp)) as (Hl8 & Hk8 & _).
  split; [exact Hl4|]. split; [exact Hk4|]. split; [exact Hl8|exact Hk8].
Defined.

(** X9.  A well-shaped call on numbers that fit the machine integers
    ([fits_np_int]: coordinates, padding, patch sizes and the root of the
    number of examples add up to less than [2 ^ 31], and there are
    fewer than [2 ^ 52] examples per point) returns exactly when the
    slice of every position it writes can be stored into a patch: each
    axis of the clipped window has the length of the patch, or length
    one.  When it does not return it raises [ValueError], and nothing
    else.  Larger numbers are left out: there the conversion of the
    coordinates to [np.int] can raise [OverflowError]. *)
Theorem X9_returns_iff_slices_fit σ self input_img c points img :
  well_shaped σ self input_img c points img →
  fits_np_int c points = true →
  ((∃ p l k σ', extract_patches self input_img σ = (inr (p, l, k), σ'))
   ↔ slices_fit (frame_of c points img) = true)
  ∧ ((∃ σ', extract_patches self input_img σ = (inl ValueError, σ'))
     ↔ slices_fit (frame_of c points img) = false).
Proof.
  intros Hw _. pose proof (proj1 Hw) as Hc.
  destruct (well_shaped_cases _ _ _ _ _ _ Hw) as [(o & Ho & _ & Hfit)|[He Hfit]].
  - destruct (configured_returns _ _ _ _ _ _ _ Hc Ho) as (p & l & k & σ' & Hrun & _).
    rewrite Hfit. split; split; try done.
    + intros _. eauto.
    + intros [σ1 H1]. congruence.
  - destruct (configured_raises _ _ _ _ _ _ _ Hc He) as (σ' & Hrun & _).
    rewrite Hfit. split; split; try done.
    + intros (p & l & k & σ1 & H1). congruence.
    + intros _. eauto.
Qed.

(** X9, witness: the 2 x 2 window at the last row of a 3 x 3 image does
    not lie inside the image, yet its slice, one row, fits and the call
    returns. *)
Lemma X9_returns_iff_slices_fit_witness :
  well_shaped (store_of clipped_config (example_points clipped_rows) (example_image 3 3 1))
    (VRef 0%nat) (VRef 2%nat) clipped_config (example_points clipped_rows) (example_image 3 3 1)
  ∧ fits_np_int clipped_config (example_points clipped_rows) = true
  ∧ windows_fit (frame_of clipped_config (example_points clipped_rows) (example_image 3 3 1))
    = false
  ∧ slices_fit (frame_of clipped_config (example_points clipped_rows) (example_image 3 3 1))
    = true
  ∧ ∃ p l k σ', run_of clipped_config clipped_rows = (inr (p, l, k), σ').
Proof.
  assert (Hw : well_shaped
    (store_of clipped_config (example_points clipped_rows) (example_image 3 3 1))
    (VRef 0%nat) (VRef 2%nat) clipped_config (example_points clipped_rows) (example_image 3 3 1)).
  { apply store_of_well_shaped; solve [lia | cbn; lia]. }
  split; [exact Hw|]. split; [vm_compute; reflexivity|].
  split; [vm_compute; reflexivity|]. split; [vm_compute; reflexivity|].
  apply (X9_returns_iff_slices_fit _ _ _ _ _ _ Hw); vm_compute; reflexivity.
Defined.

Lemma slice_start_indices n start len b :
  0 ≤ len → slice_start n start len = Some b →
  py.slice_indices n start (start + len) = (b, Z.to_nat len).
Proof.
  intros Hlen. unfold slice_start, py.slice_indices, py.slice_bound.
  destruct ((0 <=? start) && (start + len <=? Z.of_nat n)) eqn:E1.
  - apply andb_true_iff in E1 as [E1 E2]. apply Z.leb_le in E1, E2. intros [= <-].
    destruct (start <? 0) eqn:E3; [lia|]. destruct (start + len <? 0) eqn:E4; [lia|].
    f_equal; [lia|]. f_equal. lia.
  - destruct ((- Z.of_nat n <=? start) && (start + len <? 0)) eqn:E2; [|done].
    apply andb_true_iff in E2 as [E2 E3]. apply Z.leb_le in E2. apply Z.ltb_lt in E3.
    intros [= <-].
    destruct (start <? 0) eqn:E4; [|lia]. destruct (start + len <? 0) eqn:E5; [|lia].
    f_equal; [lia|]. f_equal. lia.
Qed.

Lemma broadcastable3 (a b c x y z : nat) :
  np.broadcastable [a; b; c] [x; y; z] = true →
  (a = x ∨ a = 1%nat) ∧ (b = y ∨ b = 1%nat) ∧ (c = z ∨ c = 1%nat).
Proof.
  unfold np.broadcastable. cbn [length zip zip_with forallb fst snd].
  rewrite !andb_true_iff, !orb_true_iff, !Nat.eqb_eq. intuition.
Qed.

(** The position of point [q] and offsets [(h, w)], and the window
    written there. *)
Lemma grid_window_at c points img q h w :
  1 ≤ cfg_n c →
  let r := Z.sqrt (cfg_n c) in
  let i := q * (r * r) + (h + r / 2) * r + (w + r / 2) in
  - (r / 2) ≤ h < r - r / 2 → - (r / 2) ≤ w < r - r / 2 →
  i / (r * r) = q
  ∧ grid_window (frame_of c points img) i
    = (item points [q; 2] + cfg_pad_y c - 1 - h - py.int_half (cfg_patch_h c - 1),
       item points [q; 1] + cfg_pad_x c - 1 - w - py.int_half (cfg_patch_w c - 1)).
Proof.
  intros Hn. cbv zeta. intros Hh Hw. destruct (sqrt_bounds _ Hn) as [Hs Hle].
  set (f := frame_of c points img).
  destruct (grid_coords f _ Hs (offset_bounds_sqrt _ Hn) q
              (h + Z.sqrt (cfg_n c) / 2) (w + Z.sqrt (cfg_n c) / 2))
    as [Hdiv Hoff]; [lia..|].
  change (f_n f) with (cfg_n c) in Hdiv, Hoff.
  rewrite per_point_sqrt in Hdiv by done. split; [done|].
  unfold grid_window. change (f_n f) with (cfg_n c). rewrite Hoff.
  rewrite per_point_sqrt by done. rewrite Hdiv.
  cbn [f frame_of f_points f_pad_y f_pad_x f_patch_h f_patch_w fst snd].
  f_equal; lia.
Qed.

(** X10.  What a returned patch holds, whatever the window: the window
    [image[start_h:end_h, start_w:end_w]] is clipped as a Python slice,
    and an axis left with a single row or column is repeated over the
    patch. *)
Theorem X10_patch_content σ self input_img c points img p l k σ' (hp wp dp : nat) :
  well_shaped σ self input_img c points img →
  extract_patches self input_img σ = (inr (p, l, k), σ') →
  shape (padded_of c img) = [hp; wp; dp] →
  ∃ patches,
    deref σ' p = Some (ONdarray patches)
    ∧ ∀ q h w,
        let r := Z.sqrt (cfg_n c) in
        let i := q * (r * r) + (h + r / 2) * r + (w + r / 2) in
        let start_h := item points [q; 2] + cfg_pad_y c - 1 - h
                       - py.int_half (cfg_patch_h c - 1) in
        let start_w := item points [q; 1] + cfg_pad_x c - 1 - w
                       - py.int_half (cfg_patch_w c - 1) in
        let rows := py.slice_indices hp start_h (start_h + cfg_patch_h c) in
        let cols := py.slice_indices wp start_w (start_w + cfg_patch_w c) in
        0 ≤ q < len_of points →
        - (r / 2) ≤ h < r - r / 2 → - (r / 2) ≤ w < r - r / 2 →
        (rows.2 = Z.to_nat (cfg_patch_h c) ∨ rows.2 = 1%nat)
        ∧ (cols.2 = Z.to_nat (cfg_patch_w c) ∨ cols.2 = 1%nat)
        ∧ ∀ row col ch,
            0 ≤ row < cfg_patch_h c → 0 ≤ col < cfg_patch_w c → 0 ≤ ch < Z.of_nat dp →
            item patches [i; row; col; ch]
            = item (padded_of c img)
                [rows.1 + (if (rows.2 =? 1)%nat then 0 else row);
                 cols.1 + (if (cols.2 =? 1)%nat then 0 else col); ch].
Proof.
  intros Hw Hrun Hpad.
  destruct (well_shaped_result _ _ _ _ _ _ _ _ _ _ Hw Hrun)
    as (o & Hp & _ & _ & (_ & _ & _ & Hst & _)).
  exists (out_patches o). split; [done|].
  intros q h w r i start_h start_w rows cols Hq Hh Hw'.
  destruct Hw as (_ & (N & K & Hpts & _) & (h0 & w0 & d0 & Himg & ? & ?)
                  & Hph & Hpw & ? & ? & Hn).
  destruct (sqrt_bounds _ Hn) as [Hs Hle]. fold r in Hs, Hle.
  destruct (pad_shaped c img h0 w0 d0) as [_ Hpad']; try done.
  assert (d0 = dp) as -> by congruence.
  destruct (zeros_shaped c points img N [K] _ _ dp Hpts Hpad) as (_ & Hz & _); try done; [nia|].
  destruct (grid_window_at c points img q h w Hn Hh Hw') as [Hdiv Hwin].
  fold r i start_h start_w in Hdiv, Hwin.
  assert (Hi : 0 ≤ i < len_of points * (r * r)) by (unfold i; nia).
  destruct (Hst i Hi) as (_ & _ & v & Hv & Hb & Hitem).
  unfold grid_slice in Hv. rewrite Hwin in Hv.
  cbn [frame_of f_padded f_patch_h f_patch_w] in Hv.
  unfold np.getslice2 in Hv. rewrite Hpad in Hv.
  fold rows cols in Hv. destruct rows as [bh nh], cols as [bw nw]. simplify_eq.
  cbn [shape] in Hb, Hitem. rewrite Hz in Hb. cbn [tail] in Hb.
  apply broadcastable3 in Hb as (Hbh & Hbw & Hbd). cbn [fst snd].
  split; [done|]. split; [done|].
  intros row col ch Hrow Hcol Hch. rewrite Hitem. cbn [item np.bcast_index zip_with].
  destruct (dp =? 1)%nat eqn:E; [|done].
  apply Nat.eqb_eq in E. by replace ch with 0 by lia.
Qed.

(** X10, witness: in that example both rows of the patch are the last
    row of the image: pixel (1, 1) of the patch is pixel (2, 1) of the
    image. *)
Lemma X10_patch_content_witness :
  well_shaped (store_of clipped_config (example_points clipped_rows) (example_image 3 3 1))
    (VRef 0%nat) (VRef 2%nat) clipped_config (example_points clipped_rows) (example_image 3 3 1)
  ∧ run_of clipped_config clipped_rows
    = (inr (VRef 4%nat, VRef 5%nat, VRef 6%nat), (run_of clipped_config clipped_rows).2)
  ∧ shape (padded_of clipped_config (example_image 3 3 1)) = [3%nat; 3%nat; 1%nat]
  ∧ ∃ patches,
      deref (run_of clipped_config clipped_rows).2 (VRef 4%nat) = Some (ONdarray patches)
      ∧ item patches [0; 1; 1; 0] = 210.
Proof.
  assert (Hw : well_shaped
    (store_of clipped_config (example_points clipped_rows) (example_image 3 3 1))
    (VRef 0%nat) (VRef 2%nat) clipped_config (example_points clipped_rows) (example_image 3 3 1)).
  { apply store_of_well_shaped; solve [lia | cbn; lia]. }
  assert (Hrun : run_of clipped_config clipped_rows
    = (inr (VRef 4%nat, VRef 5%nat, VRef 6%nat), (run_of clipped_config clipped_rows).2)).
  { apply run_of_eq. vm_compute. reflexivity. }
  split; [exact Hw|]. split; [exact Hrun|]. split; [reflexivity|].
  destruct (X10_patch_content _ _ _ _ _ _ _ _ _ _ 3%nat 3%nat 1%nat Hw Hrun eq_refl)
    as (patches & Hp & Hall).
  exists patches. split; [exact Hp|].
  specialize (Hall 0 0 0). cbv zeta in Hall.
  specialize (Hall ltac:(decide_cmp) ltac:(decide_cmp) ltac:(decide_cmp)).
  destruct Hall as (_ & _ & Hitem).
  specialize (Hitem 1 1 0 ltac:(decide_cmp) ltac:(decide_cmp) ltac:(decide_cmp)).
  vm_compute in Hitem. exact Hitem.
Defined.

(** A window that keeps all its rows and columns. *)
Lemma stored_full_window f o i (hp wp dp : nat) first_row first_col :
  shape (f_padded f) = [hp; wp; dp] → 0 ≤ f_patch_h f → 0 ≤ f_patch_w f →
  stored f o i →
  slice_start hp (grid_window f i).1 (f_patch_h f) = Some first_row →
  slice_start wp (grid_window f i).2 (f_patch_w f) = Some first_col →
  ∀ row col ch,
    0 ≤ row < f_patch_h f → 0 ≤ col < f_patch_w f → 0 ≤ ch < Z.of_nat dp →
    item (out_patches o) [i; row; col; ch]
    = item (f_padded f) [first_row + row; first_col + col; ch].
Proof.
  intros Hpad Hph Hpw (_ & _ & v & Hv & _ & Hitem) Hrow0 Hcol0 row col ch Hrow Hcol Hch.
  unfold grid_slice in Hv. destruct (grid_window f i) as [start_h start_w].
  cbn [fst snd] in Hrow0, Hcol0.
  unfold np.getslice2 in Hv. rewrite Hpad in Hv.
  rewrite (slice_start_indices _ _ _ _ Hph Hrow0), (slice_start_indices _ _ _ _ Hpw Hcol0) in Hv.
  simplify_eq. rewrite Hitem. cbn [item shape].
  rewrite bcast_index_inside; [done|]. repeat constructor; lia.
Qed.

(** X11.  No bounds are checked, and a negative bound counts from the
    end: a window that lies inside the padded image is taken where it
    is, and a window that lies wholly before the first row (or column),
    with both bounds negative, is taken from the other edge of the
    padded image; in both cases the call stores the full window without
    any error. *)
Theorem X11_negative_window_wraps σ self input_img c points img p l k σ' (hp wp dp : nat) :
  well_shaped σ self input_img c points img →
  extract_patches self input_img σ = (inr (p, l, k), σ') →
  shape (padded_of c img) = [hp; wp; dp] →
  ∃ patches,
    deref σ' p = Some (ONdarray patches)
    ∧ ∀ q h w first_row first_col,
        let r := Z.sqrt (cfg_n c) in
        let i := q * (r * r) + (h + r / 2) * r + (w + r / 2) in
        let start_h := item points [q; 2] + cfg_pad_y c - 1 - h
                       - py.int_half (cfg_patch_h c - 1) in
        let start_w := item points [q; 1] + cfg_pad_x c - 1 - w
                       - py.int_half (cfg_patch_w c - 1) in
        0 ≤ q < len_of points →
        - (r / 2) ≤ h < r - r / 2 → - (r / 2) ≤ w < r - r / 2 →
        slice_start hp start_h (cfg_patch_h c) = Some first_row →
        slice_start wp start_w (cfg_patch_w c) = Some first_col →
        ∀ row col ch,
          0 ≤ row < cfg_patch_h c → 0 ≤ col < cfg_patch_w c → 0 ≤ ch < Z.of_nat dp →
          item patches [i; row; col; ch]
          = item (padded_of c img) [first_row + row; first_col + col; ch].
Proof.
  intros Hw Hrun Hpad.
  destruct (well_shaped_result _ _ _ _ _ _ _ _ _ _ Hw Hrun)
    as (o & Hp & _ & _ & (_ & _ & _ & Hst & _)).
  exists (out_patches o). split; [done|].
  intros q h w first_row first_col r i start_h start_w Hq Hh Hw' Hrow0 Hcol0.
  destruct Hw as (_ & _ & _ & Hph & Hpw & _ & _ & Hn).
  destruct (sqrt_bounds _ Hn) as [Hs Hle]. fold r in Hs, Hle.
  destruct (grid_window_at c points img q h w Hn Hh Hw') as [Hdiv Hwin].
  fold r i start_h start_w in Hdiv, Hwin.
  assert (Hi : 0 ≤ i < len_of points * (r * r)) by (unfold i; nia).
  apply (stored_full_window (frame_of c points img) o i hp wp dp); try done.
  - by apply Hst.
  - by rewrite Hwin.
  - by rewrite Hwin.
Qed.

(** X11, witness: the point (2, -5) on a 3 x 3 image padded by 3 has its
    3 x 3 window at rows -4 to -2, which are rows 5 to 7 of the padded
    image: the patch starts with pixel (5, 3) of the padded image, that
    is pixel (2, 0) of the image. *)
Lemma X11_negative_window_wraps_witness :
  well_shaped (store_of wrapped_config (example_points wrapped_rows) (example_image 3 3 1))
    (VRef 0%nat) (VRef 2%nat) wrapped_config (example_points wrapped_rows) (example_image 3 3 1)
  ∧ run_of wrapped_config wrapped_rows
    = (inr (VRef 4%nat, VRef 5%nat, VRef 6%nat), (run_of wrapped_config wrapped_rows).2)
  ∧ shape (padded_of wrapped_config (example_image 3 3 1)) = [9%nat; 9%nat; 1%nat]
  ∧ slice_start 9 (-4) 3 = Some 5
  ∧ ∃ patches,
      deref (run_of wrapped_config wrapped_rows).2 (VRef 4%nat) = Some (ONdarray patches)
      ∧ item patches [0; 0; 0; 0] = 200.
Proof.
  assert (Hw : well_shaped
    (store_of wrapped_config (example_points wrapped_rows) (example_image 3 3 1))
    (VRef 0%nat) (VRef 2%nat) wrapped_config (example_points wrapped_rows) (example_image 3 3 1)).
  { apply store_of_well_shaped; solve [lia | cbn; lia]. }
  assert (Hrun : run_of wrapped_config wrapped_rows
    = (inr (VRef 4%nat, VRef 5%nat, VRef 6%nat), (run_of wrapped_config wrapped_rows).2)).
  { apply run_of_eq. vm_compute. reflexivity. }
  split; [exact Hw|]. split; [exact Hrun|]. split; [reflexivity|]. split; [reflexivity|].
  destruct (X11_negative_window_wraps _ _ _ _ _ _ _ _ _ _ 9%nat 9%nat 1%nat Hw Hrun eq_refl)
    as (patches & Hp & Hall).
  exists patches. split; [exact Hp|].
  specialize (Hall 0 0 0 5 3). cbv zeta in Hall.
  specialize (Hall ltac:(decide_cmp) ltac:(decide_cmp) ltac:(decide_cmp)
                   ltac:(vm_compute; reflexivity) ltac:(vm_compute; reflexivity)
                   0 0 0 ltac:(decide_cmp) ltac:(decide_cmp) ltac:(decide_cmp)).
  vm_compute in Hall. exact Hall.
Defined.

Lemma fill_first f :
  0 < f_len f →
  fill f (init_outs f)
  = (extract_point_fun (f_points f) (f_padded f) (f_pad_y f) (f_pad_x f) (f_n f)
       (f_patch_h f) (f_patch_w f) 0 (1, 0)
     ≫= for_ (range 1 (f_len f))
          (extract_point_fun (f_points f) (f_padded f) (f_pad_y f) (f_pad_x f) (f_n f)
             (f_patch_h f) (f_patch_w f))) (init_outs f).
Proof. intros Hlen. unfold fill. rewrite range_cons by done. reflexivity. Qed.

(** X12.  No points: with an empty array of points the call returns an
    empty patches array of shape [(0, patch_h, patch_w, channels)] and
    two empty lists, whatever the number of examples per point. *)
Theorem X12_no_points σ self input_img c points img rest (h w d : nat) :
  configured σ self input_img c points img →
  shape points = 0%nat :: rest →
  shape img = [h; w; d] → (0 < h)%nat → (0 < w)%nat →
  0 ≤ cfg_pad_y c → 0 ≤ cfg_pad_x c → 0 ≤ cfg_patch_h c → 0 ≤ cfg_patch_w c →
  ∃ pl ll kl σ' patches,
    extract_patches self input_img σ = (inr (VRef pl, VRef ll, VRef kl), σ')
    ∧ heap σ' !! pl = Some (ONdarray patches)
    ∧ shape patches = [0%nat; Z.to_nat (cfg_patch_h c); Z.to_nat (cfg_patch_w c); d]
    ∧ heap σ' !! ll = Some (OList [])
    ∧ heap σ' !! kl = Some (OList []).
Proof.
  intros Hc Hpts Himg Hh Hw Hpy Hpx Hph Hpw.
  destruct (pad_shaped c img h w d) as [_ Hpad]; try done.
  destruct (zeros_shaped c points img 0 rest _ _ d Hpts Hpad) as (_ & Hz & _); try done.
  assert (Hlen : len_of points = 0) by (unfold len_of; by rewrite Hpts).
  assert (Ho : extract_config c points img = inr (init_outs (frame_of c points img))).
  { unfold extract_config. rewrite (prepare_shaped c points img 0 rest h w d) by done.
    cbn [mbind exn_bind]. unfold fill_result, fill. cbn [frame_of f_len].
    rewrite Hlen. reflexivity. }
  destruct (configured_returns _ _ _ _ _ _ _ Hc Ho) as (p & l & k & σ' & Hrun & Hp & Hl & Hk).
  destruct (extract_patches_run σ self input_img) as (r & σ1 & Hrun' & _ & _ & _ & _ & _ & Hfr & _).
  rewrite Hrun in Hrun'. simplify_eq.
  destruct p as [| | | |pl]; try done. destruct l as [| | | |ll]; try done.
  destruct k as [| | | |kl]; try done.
  exists pl, ll, kl, σ1, (f_zeros (frame_of c points img)).
  cbn [init_outs out_patches out_labels out_ids frame_of f_len f_n deref] in Hp, Hl, Hk |- *.
  rewrite Hlen in Hl, Hk, Hz. split_and!; try done.
Qed.

(** X12, witness: no rows of points. *)
Lemma X12_no_points_witness :
  configured (store_of example_config (example_points []) (example_image 3 3 1))
    (VRef 0%nat) (VRef 2%nat) example_config (example_points []) (example_image 3 3 1)
  ∧ shape (example_points []) = [0%nat; 3%nat]
  ∧ ∃ pl ll kl σ' patches,
      run_of example_config [] = (inr (VRef pl, VRef ll, VRef kl), σ')
      ∧ heap σ' !! pl = Some (ONdarray patches)
      ∧ shape patches = [0%nat; 3%nat; 3%nat; 1%nat]
      ∧ heap σ' !! ll = Some (OList [])
      ∧ heap σ' !! kl = Some (OList []).
Proof.
  split; [apply store_of_configured|]. split; [reflexivity|].
  apply (X12_no_points _ _ _ example_config (example_points []) (example_image 3 3 1)
           [3%nat] 3%nat 3%nat 1%nat);
    solve [apply store_of_configured | reflexivity | lia | cbn; lia].
Defined.

(** X13.  Zero examples per point, on numbers that fit the machine
    integers ([fits_np_int], so that the conversion of the coordinates
    of the first point, which comes before, raises nothing): with at
    least one point the two lists are empty when the loops start, the
    loops still run once per point, and the first
    [labels[iter_tot] = cell_type] is an [IndexError]. *)
Theorem X13_zero_examples σ self input_img c points img (N K h w d : nat) :
  configured σ self input_img c points img →
  shape points = [N; K] → (0 < N)%nat → (3 ≤ K)%nat →
  shape img = [h; w; d] → (0 < h)%nat → (0 < w)%nat →
  0 ≤ cfg_pad_y c → 0 ≤ cfg_pad_x c → 0 ≤ cfg_patch_h c → 0 ≤ cfg_patch_w c →
  cfg_n c = 0 →
  fits_np_int c points = true →
  ∃ σ', extract_patches self input_img σ = (inl IndexError, σ').
Proof.
  intros Hc Hpts HN HK Himg Hh Hw Hpy Hpx Hph Hpw Hn _.
  assert (He : extract_config c points img = inl IndexError).
  { unfold extract_config. rewrite (prepare_shaped c points img N [K] h w d) by (done || lia).
    cbn [mbind exn_bind]. unfold fill_result.
    rewrite fill_first by (cbn [frame_of f_len]; unfold len_of; rewrite Hpts; cbn [hd]; lia).
    rewrite bind_run. unfold extract_point_fun. cbn [frame_of f_points f_n].
    rewrite bind_run, (getitem_cell _ N K 0 0 Hpts) by lia. unfold lift at 1.
    rewrite bind_run, (getitem_cell _ N K 0 2 Hpts) by lia. unfold lift at 1.
    rewrite bind_run, (getitem_cell _ N K 0 1 Hpts) by lia. unfold lift at 1.
    rewrite Hn. cbn [offset_bounds Z.ltb Z.compare].
    change (range 0 1) with [0]. cbn [for_]. rewrite !bind_run.
    unfold write_patch_fun. rewrite bind_run. unfold set_label at 1.
    cbn [init_outs out_labels frame_of f_len f_n]. rewrite Hn, Z.mul_0_r.
    reflexivity. }
  destruct (configured_raises _ _ _ _ _ _ _ Hc He) as (σ' & Hrun & _). eauto.
Qed.

(** X13, witness: two points, no example per point. *)
Lemma X13_zero_examples_witness :
  configured (store_of zero_config (example_points example_rows) (example_image 3 3 1))
    (VRef 0%nat) (VRef 2%nat) zero_config (example_points example_rows) (example_image 3 3 1)
  ∧ shape (example_points example_rows) = [2%nat; 3%nat]
  ∧ cfg_n zero_config = 0
  ∧ fits_np_int zero_config (example_points example_rows) = true
  ∧ ∃ σ', run_of zero_config example_rows = (inl IndexError, σ').
Proof.
  split; [apply store_of_configured|]. split; [reflexivity|]. split; [reflexivity|].
  split; [vm_compute; reflexivity|].
  apply (X13_zero_examples _ _ _ zero_config (example_points example_rows) (example_image 3 3 1)
           2%nat 3%nat 3%nat 3%nat 1%nat);
    solve [apply store_of_configured | reflexivity | lia | cbn; lia | vm_compute; reflexivity].
Defined.

Lemma getitem_out (a : ndarray) (N K : nat) p k :
  shape a = [N; K] → Z.of_nat K ≤ k →
  np.getitem (np.row a p) k = inl IndexError.
Proof.
  intros Ha Hk. unfold np.getitem, np.row. cbn [shape item]. rewrite Ha. cbn [tail].
  unfold py.index. destruct (k <? 0) eqn:E; [lia|].
  destruct (k <? Z.of_nat K) eqn:E'; [lia|]. by rewrite andb_false_r.
Qed.

(** X14.  Rows of points that are too short: when the points are a
    one-dimensional array, or have fewer than three columns, reading
    [row[0]], [row[2]] of the first point is an [IndexError]. *)
Theorem X14_short_rows σ self input_img c points img (N : nat) rest (h w d : nat) :
  configured σ self input_img c points img →
  shape points = N :: rest → (0 < N)%nat →
  rest = [] ∨ (∃ K : nat, rest = [K] ∧ (K < 3)%nat) →
  shape img = [h; w; d] → (0 < h)%nat → (0 < w)%nat →
  0 ≤ cfg_pad_y c → 0 ≤ cfg_pad_x c → 0 ≤ cfg_patch_h c → 0 ≤ cfg_patch_w c →
  0 ≤ cfg_n c →
  ∃ σ', extract_patches self input_img σ = (inl IndexError, σ').
Proof.
  intros Hc Hpts HN Hrest Himg Hh Hw Hpy Hpx Hph Hpw Hn.
  assert (He : extract_config c points img = inl IndexError).
  { unfold extract_config. rewrite (prepare_shaped c points img N rest h w d) by (done || lia).
    cbn [mbind exn_bind]. unfold fill_result.
    rewrite fill_first by (cbn [frame_of f_len]; unfold len_of; rewrite Hpts; cbn [hd]; lia).
    rewrite bind_run. unfold extract_point_fun. cbn [frame_of f_points f_n].
    destruct Hrest as [->|(K & -> & HK)].
    - rewrite bind_run. unfold lift at 1, np.getitem at 1, np.row at 1. cbn [shape].
      by rewrite Hpts.
    - destruct (decide (K = 0%nat)) as [->|HK0].
      + rewrite bind_run, (getitem_out _ N 0 0 0 Hpts) by lia. done.
      + rewrite bind_run, (getitem_cell _ N K 0 0 Hpts) by lia. unfold lift at 1.
        rewrite bind_run, (getitem_out _ N K 0 2 Hpts) by lia. done. }
  destruct (configured_raises _ _ _ _ _ _ _ Hc He) as (σ' & Hrun & _). eauto.
Qed.

(** X14, witness: a point given as a pair. *)
Lemma X14_short_rows_witness :
  configured (store_of example_config pair_points (example_image 3 3 1))
    (VRef 0%nat) (VRef 2%nat) example_config pair_points (example_image 3 3 1)
  ∧ shape pair_points = [1%nat; 2%nat]
  ∧ ∃ σ', extract_patches (VRef 0%nat) (VRef 2%nat)
            (store_of example_config pair_points (example_image 3 3 1))
          = (inl IndexError, σ').
Proof.
  split; [apply store_of_configured|]. split; [reflexivity|].
  apply (X14_short_rows _ _ _ example_config pair_points (example_image 3 3 1)
           1%nat [2%nat] 3%nat 3%nat 1%nat);
    try solve [apply store_of_configured | reflexivity | lia | cbn; lia].
  right. exists 2%nat. split; [reflexivity|lia].
Defined.

(** X15.  What stops the call before its loops, all with [ValueError]:
    an image that does not have three axes (a grey-level image without a
    channel axis), a negative padding, and, once the image is padded, a
    negative patch size or a negative number of patches. *)
Theorem X15_rejected_before_the_loops σ self input_img c points img :
  configured σ self input_img c points img →
  (length (shape img) ≠ 3%nat ∨ cfg_pad_y c < 0 ∨ cfg_pad_x c < 0 →
   ∃ σ', extract_patches self input_img σ = (inl ValueError, σ'))
  ∧ (∀ (N : nat) rest (h w d : nat),
       shape points = N :: rest →
       shape img = [h; w; d] → (0 < h)%nat → (0 < w)%nat →
       0 ≤ cfg_pad_y c → 0 ≤ cfg_pad_x c →
       cfg_patch_h c < 0 ∨ cfg_patch_w c < 0 ∨ Z.of_nat N * cfg_n c < 0 →
       ∃ σ', extract_patches self input_img σ = (inl ValueError, σ')).
Proof.
  intros Hc. split.
  - intros Hbad.
    assert (He : extract_config c points img = inl ValueError).
    { unfold extract_config, prepare_config.
      assert (Hpad : np.pad_symmetric img (cfg_pad_y c) (cfg_pad_x c) = inl ValueError).
      { unfold np.pad_symmetric.
        destruct (shape img) as [|h [|w [|d [|? ?]]]] eqn:E; try done.
        destruct Hbad as [Hbad|Hbad]; [done|].
        destruct (cfg_pad_y c <? 0) eqn:E1; [done|].
        destruct (cfg_pad_x c <? 0) eqn:E2; [done|]. lia. }
      by rewrite Hpad. }
    destruct (configured_raises _ _ _ _ _ _ _ Hc He) as (σ' & Hrun & _). eauto.
  - intros N rest h w d Hpts Himg Hh Hw Hpy Hpx Hbad.
    assert (He : extract_config c points img = inl ValueError).
    { unfold extract_config, prepare_config.
      destruct (pad_shaped c img h w d) as [-> Hsh]; try done. cbn [mbind exn_bind].
      unfold np.len. rewrite Hpts. cbn [mbind exn_bind].
      unfold np.zeros. cbn [forallb].
      destruct (0 <=? Z.of_nat N * cfg_n c) eqn:E1; [|done].
      destruct (0 <=? cfg_patch_h c) eqn:E2; [|done].
      destruct (0 <=? cfg_patch_w c) eqn:E3; [|done]. lia. }
    destruct (configured_raises _ _ _ _ _ _ _ Hc He) as (σ' & Hrun & _). eauto.
Qed.

(** X15, witness: a grey-level image. *)
Lemma X15_rejected_before_the_loops_witness :
  configured (store_of example_config (example_points example_rows) grey_image)
    (VRef 0%nat) (VRef 2%nat) example_config (example_points example_rows) grey_image
  ∧ length (shape grey_image) ≠ 3%nat
  ∧ ∃ σ', extract_patches (VRef 0%nat) (VRef 2%nat)
            (store_of example_config (example_points example_rows) grey_image)
          = (inl ValueError, σ').
Proof.
  split; [apply store_of_configured|]. split; [cbn; lia|].
  apply (X15_rejected_before_the_loops _ _ _ example_config (example_points example_rows)
           grey_image (store_of_configured _ _ _)).
  left. cbn. lia.
Defined.

Lemma int_attr_missing attrs name :
  attrs !! name = None → int_attr attrs name = inl AttributeError.
Proof. intros H. unfold int_attr, attr. by rewrite H. Qed.

(** X16.  Attributes that are missing on the receiver.  Without
    [input_points] the call raises [AttributeError] at once and leaves
    the store as it was.  With the points and the image in hand, a
    missing [img_patch_h], [img_patch_w], [pad_y] or [pad_x] is an
    [AttributeError] before the image is padded; and a missing
    [num_examples_per_patch] is one once the image has been padded. *)
Theorem X16_missing_attribute σ self input_img cls attrs :
  deref σ self = Some (OInstance cls attrs) →
  (attrs !! "input_points"%string = None →
   extract_patches self input_img σ = (inl AttributeError, σ))
  ∧ (∀ v points img,
       attrs !! "input_points"%string = Some v →
       deref σ v = Some (ONdarray points) →
       image_of σ input_img = inr img →
       (attrs !! "img_patch_h"%string = None ∨ attrs !! "img_patch_w"%string = None
        ∨ attrs !! "pad_y"%string = None ∨ attrs !! "pad_x"%string = None →
        ∃ σ', extract_patches self input_img σ = (inl AttributeError, σ'))
       ∧ (∀ patch_h patch_w pad_y pad_x padded len_points,
            attrs !! "img_patch_h"%string = Some patch_h →
            attrs !! "img_patch_w"%string = Some patch_w →
            attrs !! "pad_y"%string = Some (VInt pad_y) →
            attrs !! "pad_x"%string = Some (VInt pad_x) →
            np.pad_symmetric img pad_y pad_x = inr padded →
            np.len points = inr len_points →
            attrs !! "num_examples_per_patch"%string = None →
            ∃ σ', extract_patches self input_img σ = (inl AttributeError, σ'))).
Proof.
  intros Hs.
  destruct (extract_patches_run σ self input_img)
    as (r & σ' & Hrun & Hag & _ & _ & _ & _ & _ & Hres).
  unfold extract_spec, points_of, attrs_of in Hag. rewrite Hs in Hag. cbn [default] in Hag.
  split.
  - intros Hno. unfold attr in Hag. rewrite Hno in Hag. cbn in Hag.
    destruct r as [e|[[? ?] ?]]; [|done]. simpl in Hag. subst e.
    destruct Hres as [->|[(cls' & attrs' & v & a & Hs' & Hv & _) _]]; [done|].
    congruence.
  - intros v points img Hv Hp Hi. rewrite (attr_lookup _ _ _ Hv) in Hag.
    cbn [mbind exn_bind] in Hag. rewrite Hp, Hi in Hag. unfold extract_fun, id in Hag.
    split.
    + intros Hmiss.
      assert (He : prepare attrs (inr points) (inr img) = inl AttributeError).
      { unfold prepare, attr. cbn [mbind exn_bind].
        destruct (attrs !! "img_patch_h"%string); cbn; [|done].
        destruct (attrs !! "img_patch_w"%string); cbn; [|done].
        destruct (attrs !! "pad_y"%string); cbn; [|done].
        destruct (attrs !! "pad_x"%string); cbn; [|done].
        by destruct Hmiss as [?|[?|[?|?]]]. }
      rewrite He in Hag. destruct r as [e|[[? ?] ?]]; [|done]. simpl in Hag. subst e. eauto.
    + intros patch_h patch_w pad_y pad_x padded len_points Hh Hw Hy Hx Hpad Hlen Hno.
      assert (He : prepare attrs (inr points) (inr img) = inl AttributeError).
      { unfold prepare. cbn [mbind exn_bind].
        rewrite (attr_lookup _ _ _ Hh), (attr_lookup _ _ _ Hw),
          (attr_lookup _ _ _ Hy), (attr_lookup _ _ _ Hx). cbn [mbind exn_bind].
        rewrite (int_attr_lookup _ _ _ Hy), (int_attr_lookup _ _ _ Hx). cbn [mbind exn_bind].
        rewrite Hpad. cbn [mbind exn_bind]. rewrite Hlen. cbn [mbind exn_bind].
        rewrite (int_attr_missing _ _ Hno). done. }
      rewrite He in Hag. destruct r as [e|[[? ?] ?]]; [|done]. simpl in Hag. subst e. eauto.
Qed.

(** X16, witness: an instance without any attribute. *)
Lemma X16_missing_attribute_witness :
  let σ := {| heap := {[ 0%nat := OInstance C_PointsPatchExtractor ∅ ]};
              disk := λ _, None; reads := [] |} in
  deref σ (VRef 0%nat) = Some (OInstance C_PointsPatchExtractor ∅)
  ∧ extract_patches (VRef 0%nat) VNone σ = (inl AttributeError, σ).
Proof.
  intros σ. split; [reflexivity|].
  apply (X16_missing_attribute σ (VRef 0%nat) VNone C_PointsPatchExtractor ∅ eq_refl).
  reflexivity.
Defined.

(** The files read by a call. *)
Lemma extract_patches_reads σ self input_img :
  reads (extract_patches self input_img σ).2
  = match points_of σ self, input_img with
    | inr _, VStr path => reads σ ++ [path]
    | _, _ => reads σ
    end.
Proof.
  unfold extract_patches, points_of, attrs_of.
  destruct (deref σ self) as [[| |cls attrs]|] eqn:Hs;
    try (rewrite bind_run; unfold getattr at 1; rewrite Hs; reflexivity).
  destruct self as [| | | |lself]; try done. simpl in Hs.
  rewrite bind_run, (getattr_run _ _ _ _ _ Hs).
  destruct (attr attrs "input_points") as [?|v] eqn:Hv; [reflexivity|].
  cbn [mbind exn_bind].
  rewrite bind_run. unfold isinstance_ndarray at 1.
  destruct (deref σ v) as [[points| |]|] eqn:Hp; try reflexivity.
  destruct v as [| | | |lpts]; try done. simpl in Hp.
  rewrite bind_run. unfold mret at 1, M_ret at 1, ret at 1. rewrite bind_run.
  destruct input_img as [| | path | |limg]; try reflexivity.
  - unfold imread. destruct (disk σ path) as [a|]; [|reflexivity].
    rewrite alloc_run. cbn [heap disk reads].
    edestruct (extract_body_run
      {| heap := <[fresh (dom (heap σ)) := ONdarray a]> (heap σ);
         disk := disk σ; reads := reads σ ++ [path] |}
      lself cls attrs lpts points (fresh (dom (heap σ))) a)
      as (r & σ' & Hrun & _ & _ & _ & Hreads & _).
    { cbn [heap]. eapply lookup_weaken; [exact Hs|apply alloc_subseteq]. }
    { cbn [heap]. eapply lookup_weaken; [exact Hp|apply alloc_subseteq]. }
    { cbn [heap]. apply lookup_insert_eq. }
    cbn [heap disk reads] in Hrun. rewrite Hrun. exact Hreads.
  - rewrite bind_run. unfold isinstance_ndarray.
    change (deref σ (VRef limg)) with (heap σ !! limg).
    destruct (heap σ !! limg) as [[a| |]|] eqn:Hl; try reflexivity.
    destruct (extract_body_run σ lself cls attrs lpts points limg a)
      as (r & σ' & Hrun & _ & _ & _ & Hreads & _); try done.
    unfold mret, M_ret, ret. rewrite Hrun. exact Hreads.
Qed.

(** X17.  The image loader is called at most once, and only for a
    receiver whose points are an array and an image given as a string:
    then the path is read exactly once, whether or not the call goes on
    to return.  In every other case nothing is read. *)
Theorem X17_loader_calls σ self input_img :
  let σ' := (extract_patches self input_img σ).2 in
  (∀ path points,
     input_img = VStr path → points_of σ self = inr points →
     reads σ' = reads σ ++ [path])
  ∧ ((∀ path, input_img ≠ VStr path) → reads σ' = reads σ)
  ∧ ((∀ points, points_of σ self ≠ inr points) → reads σ' = reads σ).
Proof.
  intros σ'. unfold σ'. rewrite extract_patches_reads. split_and!.
  - intros path points -> ->. done.
  - intros Hno. destruct (points_of σ self); [done|].
    destruct input_img; try done. by destruct (Hno s).
  - intros Hno. destruct (points_of σ self) as [?|points]; [done|]. by destruct (Hno points).
Qed.

(** X18.  A path and the array it holds give the same results: when the
    file at [path] holds the array that the reference [img] points to,
    the call with the path and the call with the reference raise the
    same exception or return the same patches, labels and identifiers. *)
Theorem X18_path_or_array σ self path img a :
  disk σ path = Some a →
  deref σ img = Some (ONdarray a) →
  let '(r1, σ1) := extract_patches self (VStr path) σ in
  let '(r2, σ2) := extract_patches self img σ in
  match r1, r2 with
  | inl e1, inl e2 => e1 = e2
  | inr (p1, l1, k1), inr (p2, l2, k2) =>
      ∃ patches labels ids,
        (deref σ1 p1 = Some (ONdarray patches) ∧ deref σ2 p2 = Some (ONdarray patches))
        ∧ (deref σ1 l1 = Some (OList labels) ∧ deref σ2 l2 = Some (OList labels))
        ∧ (deref σ1 k1 = Some (OList ids) ∧ deref σ2 k2 = Some (OList ids))
  | _, _ => False
  end.
Proof.
  intros Hdisk Himg.
  destruct (extract_patches_run σ self (VStr path)) as (r1 & σ1 & -> & Hag1 & _).
  destruct (extract_patches_run σ self img) as (r2 & σ2 & -> & Hag2 & _).
  assert (Hspec : extract_spec σ self img = extract_spec σ self (VStr path)).
  { unfold extract_spec. f_equal. unfold image_of. rewrite Hdisk, Himg.
    by destruct img. }
  rewrite Hspec in Hag2.
  destruct (extract_spec σ self (VStr path)) as [e|o].
  - destruct r1 as [e1|[[? ?] ?]], r2 as [e2|[[? ?] ?]]; try done.
    simpl in *. congruence.
  - destruct r1 as [e1|[[p1 l1] k1]], r2 as [e2|[[p2 l2] k2]]; try done.
    destruct Hag1 as (? & ? & ?), Hag2 as (? & ? & ?).
    exists (out_patches o), (out_labels o), (out_ids o). done.
Qed.

(** X18, witness: the example image as ["slide.png"] and as the array
    at location 2. *)
Lemma X18_path_or_array_witness :
  let σ := store_of example_config (example_points example_rows) (example_image 3 3 1) in
  disk σ "slide.png" = Some (example_image 3 3 1)
  ∧ deref σ (VRef 2%nat) = Some (ONdarray (example_image 3 3 1))
  ∧ let '(r1, σ1) := extract_patches (VRef 0%nat) (VStr "slide.png") σ in
    let '(r2, σ2) := extract_patches (VRef 0%nat) (VRef 2%nat) σ in
    match r1, r2 with
    | inl e1, inl e2 => e1 = e2
    | inr (p1, l1, k1), inr (p2, l2, k2) =>
        ∃ patches labels ids,
          (deref σ1 p1 = Some (ONdarray patches) ∧ deref σ2 p2 = Some (ONdarray patches))
          ∧ (deref σ1 l1 = Some (OList labels) ∧ deref σ2 l2 = Some (OList labels))
          ∧ (deref σ1 k1 = Some (OList ids) ∧ deref σ2 k2 = Some (OList ids))
    | _, _ => False
    end.
Proof.
  intros σ. split; [reflexivity|]. split; [reflexivity|].
  exact (X18_path_or_array σ (VRef 0%nat) "slide.png" (VRef 2%nat) (example_image 3 3 1)
           eq_refl eq_refl).
Defined.

Lemma padded_item c img (h w d : nat) i j k :
  shape img = [h; w; d] → (0 < h)%nat → (0 < w)%nat →
  0 ≤ cfg_pad_y c → 0 ≤ cfg_pad_x c →
  item (padded_of c img) [i; j; k]
  = item img [np.mirror h (i - cfg_pad_y c); np.mirror w (j - cfg_pad_x c); k].
Proof.
  intros Himg Hh Hw Hpy Hpx. unfold padded_of, np.pad_symmetric. rewrite Himg.
  destruct (cfg_pad_y c <? 0) eqn:E1; [lia|].
  destruct (cfg_pad_x c <? 0) eqn:E2; [lia|].
  destruct (h =? 0)%nat eqn:E3; [apply Nat.eqb_eq in E3; lia|].
  destruct (w =? 0)%nat eqn:E4; [apply Nat.eqb_eq in E4; lia|].
  reflexivity.
Qed.

Lemma mirror_inside n t : 0 ≤ t < Z.of_nat n → np.mirror n t = t.
Proof.
  intros Ht. unfold np.mirror. rewrite Z.mod_small by lia.
  destruct (t <? Z.of_nat n) eqn:E; [done|lia].
Qed.

Lemma mirror_before n t : - Z.of_nat n ≤ t < 0 → np.mirror n t = - t - 1.
Proof.
  intros Ht. unfold np.mirror.
  replace (t mod (2 * Z.of_nat n)) with (t + 2 * Z.of_nat n).
  2:{ apply (Z.mod_unique _ _ (-1)); lia. }
  destruct (t + 2 * Z.of_nat n <? Z.of_nat n) eqn:E; lia.
Qed.

Lemma mirror_after n t : Z.of_nat n ≤ t < 2 * Z.of_nat n → np.mirror n t = 2 * Z.of_nat n - 1 - t.
Proof.
  intros Ht. unfold np.mirror. rewrite Z.mod_small by lia.
  destruct (t <? Z.of_nat n) eqn:E; lia.
Qed.

(** X19.  The patches in terms of the image given.  When a window lies
    inside the padded image, the pixel [(row, col)] of the patch is the
    pixel of the image at row [y - 1 - h - int((patch_h - 1) / 2) + row]
    and column [x - 1 - w - int((patch_w - 1) / 2) + col], reflected
    into the image when it falls outside: the amount of padding decides
    whether the window fits, not which pixel is read.  A coordinate
    inside the image is read as it is; one before the first row is
    reflected at the edge ([-1] reads row 0, [-2] row 1), and so is one
    after the last row. *)
Theorem X19_patch_pixels_of_the_image σ self input_img c points img p l k σ' (H W D : nat) :
  well_shaped σ self input_img c points img →
  extract_patches self input_img σ = (inr (p, l, k), σ') →
  shape img = [H; W; D] →
  ∃ patches,
    deref σ' p = Some (ONdarray patches)
    ∧ (∀ q h w,
         let r := Z.sqrt (cfg_n c) in
         let i := q * (r * r) + (h + r / 2) * r + (w + r / 2) in
         let top := item points [q; 2] - 1 - h - py.int_half (cfg_patch_h c - 1) in
         let left := item points [q; 1] - 1 - w - py.int_half (cfg_patch_w c - 1) in
         0 ≤ q < len_of points →
         - (r / 2) ≤ h < r - r / 2 → - (r / 2) ≤ w < r - r / 2 →
         - cfg_pad_y c ≤ top → top + cfg_patch_h c ≤ Z.of_nat H + cfg_pad_y c →
         - cfg_pad_x c ≤ left → left + cfg_patch_w c ≤ Z.of_nat W + cfg_pad_x c →
         ∀ row col ch,
           0 ≤ row < cfg_patch_h c → 0 ≤ col < cfg_patch_w c → 0 ≤ ch < Z.of_nat D →
           item patches [i; row; col; ch]
           = item img [np.mirror H (top + row); np.mirror W (left + col); ch])
    ∧ (∀ (n : nat) t,
         (0 ≤ t < Z.of_nat n → np.mirror n t = t)
         ∧ (- Z.of_nat n ≤ t < 0 → np.mirror n t = - t - 1)
         ∧ (Z.of_nat n ≤ t < 2 * Z.of_nat n → np.mirror n t = 2 * Z.of_nat n - 1 - t)).
Proof.
  intros Hw Hrun Himg.
  pose proof Hw as (_ & _ & (h0 & w0 & d0 & Himg' & Hh0 & Hw0) & Hph & Hpw & Hpy & Hpx & Hn).
  assert (h0 = H ∧ w0 = W ∧ d0 = D) as (-> & -> & ->) by (split_and!; congruence).
  pose proof (proj2 (pad_shaped c img H W D Himg Hh0 Hw0 Hpy Hpx)) as Hpad.
  destruct (well_shaped_result _ _ _ _ _ _ _ _ _ _ Hw Hrun)
    as (o & Hp & _ & _ & (_ & _ & _ & Hst & _)).
  exists (out_patches o). split; [done|]. split.
  - intros q h w r i top left Hq Hh Hw' Ht1 Ht2 Hl1 Hl2 row col ch Hrow Hcol Hch.
    destruct (sqrt_bounds _ Hn) as [Hs Hle]. fold r in Hs, Hle.
    destruct (grid_window_at c points img q h w Hn Hh Hw') as [Hdiv Hwin].
    fold r i in Hdiv, Hwin.
    assert (Hi : 0 ≤ i < len_of points * (r * r)) by (unfold i; nia).
    rewrite (stored_full_window (frame_of c points img) o i _ _ D
               (top + cfg_pad_y c) (left + cfg_pad_x c) Hpad Hph Hpw (Hst i Hi)); try done.
    + rewrite (padded_item c img H W D) by done. repeat f_equal; lia.
    + rewrite Hwin. cbn [fst frame_of f_patch_h]. unfold slice_start.
      replace (item points [q; 2] + cfg_pad_y c - 1 - h - py.int_half (cfg_patch_h c - 1))
        with (top + cfg_pad_y c) by (unfold top; lia).
      rewrite (proj2 (Z.leb_le 0 _)) by lia. rewrite (proj2 (Z.leb_le _ _)) by lia. done.
    + rewrite Hwin. cbn [snd frame_of f_patch_w]. unfold slice_start.
      replace (item points [q; 1] + cfg_pad_x c - 1 - w - py.int_half (cfg_patch_w c - 1))
        with (left + cfg_pad_x c) by (unfold left; lia).
      rewrite (proj2 (Z.leb_le 0 _)) by lia. rewrite (proj2 (Z.leb_le _ _)) by lia. done.
  - intros n t. split_and!; [apply mirror_inside|apply mirror_before|apply mirror_after].
Qed.

(** X19, witness: in the example with nine patches per point, the patch
    of the first point at offsets (1, 1) starts one row above the image:
    its pixel (0, 2) is the pixel (0, 1) of the image, as is its pixel
    (1, 2). *)
Lemma X19_patch_pixels_of_the_image_witness :
  well_shaped (store_of example_config (example_points example_rows) (example_image 3 3 1))
    (VRef 0%nat) (VRef 2%nat) example_config (example_points example_rows) (example_image 3 3 1)
  ∧ run_of example_config example_rows
    = (inr (VRef 4%nat, VRef 5%nat, VRef 6%nat), (run_of example_config example_rows).2)
  ∧ shape (example_image 3 3 1) = [3%nat; 3%nat; 1%nat]
  ∧ ∃ patches,
      deref (run_of example_config example_rows).2 (VRef 4%nat) = Some (ONdarray patches)
      ∧ item patches [8; 0; 2; 0] = 10
      ∧ item patches [8; 1; 2; 0] = 10.
Proof.
  assert (Hw : well_shaped
    (store_of example_config (example_points example_rows) (example_image 3 3 1))
    (VRef 0%nat) (VRef 2%nat) example_config (example_points example_rows) (example_image 3 3 1)).
  { apply store_of_well_shaped; solve [lia | cbn; lia]. }
  assert (Hrun : run_of example_config example_rows
    = (inr (VRef 4%nat, VRef 5%nat, VRef 6%nat), (run_of example_config example_rows).2)).
  { apply run_of_eq. vm_compute. reflexivity. }
  split; [exact Hw|]. split; [exact Hrun|]. split; [reflexivity|].
  destruct (X19_patch_pixels_of_the_image _ _ _ _ _ _ _ _ _ _ 3%nat 3%nat 1%nat Hw Hrun eq_refl)
    as (patches & Hp & Hall & _).
  exists patches. split; [exact Hp|].
  specialize (Hall 0 1 1). cbv zeta in Hall.
  specialize (Hall ltac:(decide_cmp) ltac:(decide_cmp) ltac:(decide_cmp)
                   ltac:(decide_cmp) ltac:(decide_cmp) ltac:(decide_cmp) ltac:(decide_cmp)).
  pose proof (Hall 0 2 0 ltac:(decide_cmp) ltac:(decide_cmp) ltac:(decide_cmp)) as H0.
  pose proof (Hall 1 2 0 ltac:(decide_cmp) ltac:(decide_cmp) ltac:(decide_cmp)) as H1.
  vm_compute in H0, H1. split; [exact H0|exact H1].
Defined.
